(** * meadowdb reader and meadowgrid coordinator: a shallow embedding

    The development follows two source files:
    - [src/meadowdb/reader.py]: the lazy query builder ([MdbTable], the bool
      column classes), [_construct_sql], [to_pd] and [read];
    - [src/meadowgrid/coordinator.py]: [MeadowGridCoordinatorHandler] and the
      helper [_add_tasks_to_grid_job].

    Python exceptions are values of [exn] carried by [result]; handlers that
    mutate [self] before raising return the mutated state next to the
    exception.  Python dicts are insertion-ordered association lists. *)

From Stdlib Require Import ZArith List String Ascii Bool Lia DecimalString.
Import ListNotations.

Local Open Scope Z_scope.
Local Open Scope string_scope.

(* ================================================================= *)
(** ** Python runtime: exceptions, [str.join], ordered dicts *)

Module Py.

(** The exception classes the two modules raise.  [ExternalError] stands for
    whatever a collaborator (duckdb, pandas, the file system) raises. *)
Inductive exn : Type :=
| ValueError (msg : string)
| NotImplementedError (msg : string)
| TypeError (msg : string)
| ExternalError (msg : string).

Inductive result (A : Type) : Type :=
| Ok (a : A)
| Raise (e : exn).
Arguments Ok {A} a.
Arguments Raise {A} e.

Definition bind {A B} (m : result A) (k : A -> result B) : result B :=
  match m with
  | Ok a => k a
  | Raise e => Raise e
  end.

(** [sep.join(items)] *)
Definition join (sep : string) (items : list string) : string :=
  String.concat sep items.

(** [str(n)] for an [int] *)
Definition str_int (n : Z) : string := NilZero.string_of_int (Z.to_int n).

(** The double-quote character, ASCII 34 *)
Definition dquote : string := String "034"%char EmptyString.

(** [a in xs] for a list of strings *)
Definition str_in (a : string) (xs : list string) : bool :=
  existsb (String.eqb a) xs.

(** [sorted(xs)] for a list of strings (insertion sort, code-point order) *)
Fixpoint insert_sorted (a : string) (xs : list string) : list string :=
  match xs with
  | [] => [a]
  | x :: xs' => if String.leb a x then a :: xs else x :: insert_sorted a xs'
  end.

Definition sorted (xs : list string) : list string :=
  fold_right insert_sorted [] xs.

Definition str_list_eqb (xs ys : list string) : bool :=
  if list_eq_dec string_dec xs ys then true else false.

(** Insertion-ordered dict: [d[k] = v] keeps the position of an existing
    key and appends a new one; [keys] and [values] iterate in insertion
    order. *)
Section Dict.
Context {K V : Type} (K_eq_dec : forall x y : K, {x = y} + {x <> y}).

Definition dict : Type := list (K * V).

Fixpoint get (k : K) (d : dict) : option V :=
  match d with
  | [] => None
  | (k', v) :: d' => if K_eq_dec k k' then Some v else get k d'
  end.

Definition mem (k : K) (d : dict) : bool :=
  match get k d with Some _ => true | None => false end.

Fixpoint set (k : K) (v : V) (d : dict) : dict :=
  match d with
  | [] => [(k, v)]
  | (k', v') :: d' =>
      if K_eq_dec k k' then (k', v) :: d' else (k', v') :: set k v d'
  end.

Definition keys (d : dict) : list K := map fst d.
Definition values (d : dict) : list V := map snd d.
End Dict.

End Py.

Import Py.

Declare Scope py_scope.
Notation "x <- m ;; k" := (Py.bind m (fun x => k))
  (at level 61, m at next level, right associativity) : py_scope.
Local Open Scope py_scope.

(* ================================================================= *)
(** ** meadowdb/reader.py *)

Module Reader.

(** Modelled from the spec: [DataFileEntry] and [TableSchema] are declared
    in [meadowdb.readerwriter_shared], which is not part of the sources
    here.  The reader builds [DataFileEntry(data_file_type, data_filename)]
    and reads [deduplication_keys] ("this could be None"). *)
Record DataFileEntry : Type := mkDataFileEntry {
  data_file_type : string;
  data_filename : string
}.

Record TableSchema : Type := mkTableSchema {
  deduplication_keys : option (list string)
}.

(** [TableSchema()] *)
Definition default_TableSchema : TableSchema := mkTableSchema None.

(** [COMPARISON_LITERAL_TYPE = Union[str, datetime.datetime, int, float]].
    A datetime and a float are carried by their [str()] rendering, the only
    thing the reader asks of them. *)
Inductive literal : Type :=
| LStr (s : string)
| LDatetime (str_of : string)
| LInt (n : Z)
| LFloat (str_of : string).

(** [Union[COMPARISON_LITERAL_TYPE, Iterable[COMPARISON_LITERAL_TYPE]]]:
    a single literal, or a tuple/list of literals. *)
Inductive arg : Type :=
| Single (l : literal)
| Items (ls : list literal).

(** The two [MdbBoolColumn] classes.  A leaf keeps [_mdb_table] only to read
    its [_version_number], so the embedding stores that number. *)
Inductive MdbBoolColumn : Type :=
| MdbComputedBoolColumnOpArg
    (mdb_table_version : Z) (column_name : string) (op : string) (a : arg)
| MdbComputedBoolColumnOpColumn
    (series_a series_b : MdbBoolColumn) (op : string).

Inductive Op : Type :=
| _SelectColumnsOp (columns_to_select : list string)
| _SelectRowsOp (filter_column : MdbBoolColumn).

Record MdbTable : Type := mkMdbTable {
  _version_number : Z;
  _table_schema : TableSchema;
  _data_list : list DataFileEntry;
  _ops : list Op
}.

Definition _table_name_placeholder : string :=
  "[!!__to_be_replaced_table_name__!!]".
Definition _indicator_column_name : string := "__mdb_reserved_indicator__".

(** *** [MdbTable.__getitem__] and [MdbColumn] *)

(** [t[['column1', 'column2']]] *)
Definition getitem_columns (t : MdbTable) (item : list string) : MdbTable :=
  mkMdbTable (_version_number t) (_table_schema t) (_data_list t)
             (_ops t ++ [_SelectColumnsOp item]).

(** [t[bool_column]] *)
Definition getitem_rows (t : MdbTable) (item : MdbBoolColumn) : MdbTable :=
  mkMdbTable (_version_number t) (_table_schema t) (_data_list t)
             (_ops t ++ [_SelectRowsOp item]).

(** [t['column1']]: an [MdbColumn] is the pair of its table and its name. *)
Record MdbColumn : Type := mkMdbColumn {
  col_table : MdbTable;
  col_name : string
}.

Definition getitem_str (t : MdbTable) (item : string) : MdbColumn :=
  mkMdbColumn t item.

Definition compare_with (c : MdbColumn) (op : string) (a : arg)
  : MdbBoolColumn :=
  MdbComputedBoolColumnOpArg (_version_number (col_table c)) (col_name c) op a.

Definition col_eq c (x : literal) := compare_with c "=" (Single x).
Definition col_ne c (x : literal) := compare_with c "!=" (Single x).
Definition col_gt c (x : literal) := compare_with c ">" (Single x).
Definition col_lt c (x : literal) := compare_with c "<" (Single x).
Definition col_ge c (x : literal) := compare_with c ">=" (Single x).
Definition col_le c (x : literal) := compare_with c "<=" (Single x).
Definition between c (a b : literal) := compare_with c "BETWEEN" (Items [a; b]).
Definition isin c (items : list literal) := compare_with c "IN" (Items items).

(** [MdbColumn._interpret_as_bool] *)
Definition _interpret_as_bool (c : MdbColumn) : MdbBoolColumn :=
  compare_with c "=" (Single (LStr "TRUE")).

(** [__and__] and [__or__] of both bool column classes *)
Definition and_ (a b : MdbBoolColumn) := MdbComputedBoolColumnOpColumn a b "AND".
Definition or_ (a b : MdbBoolColumn) := MdbComputedBoolColumnOpColumn a b "OR".

(** *** [__invert__] *)

(** The [if]/[elif] chain of [MdbComputedBoolColumnOpArg.__invert__] *)
Definition invert_op (op : string) : result string :=
  if op =? "=" then Ok "!="
  else if op =? "!=" then Ok "="
  else if op =? ">" then Ok "<="
  else if op =? "<=" then Ok ">"
  else if op =? "<" then Ok ">="
  else if op =? ">=" then Ok "<"
  else if op =? "BETWEEN" then Ok "NOT BETWEEN"
  else if op =? "NOT BETWEEN" then Ok "BETWEEN"
  else if op =? "IN" then Ok "NOT IN"
  else if op =? "NOT IN" then Ok "IN"
  else Raise (ValueError ("Programming error: op " ++ op ++ " is not covered")).

Fixpoint invert (p : MdbBoolColumn) : result MdbBoolColumn :=
  match p with
  | MdbComputedBoolColumnOpArg t c op a =>
      new_op <- invert_op op ;;
      Ok (MdbComputedBoolColumnOpArg t c new_op a)
  | MdbComputedBoolColumnOpColumn sa sb op =>
      if op =? "AND" then
        na <- invert sa ;; nb <- invert sb ;;
        Ok (MdbComputedBoolColumnOpColumn na nb "OR")
      else if op =? "OR" then
        na <- invert sa ;; nb <- invert sb ;;
        Ok (MdbComputedBoolColumnOpColumn na nb "AND")
      else
        Raise (ValueError ("Programming error: self._op cannot be " ++ op))
  end.

(** [MdbColumn.__invert__] *)
Definition col_invert (c : MdbColumn) : result MdbBoolColumn :=
  invert (_interpret_as_bool c).

(** *** [_construct_where_clause] *)

(** [_single_arg_to_string] *)
Definition _single_arg_to_string (l : literal) : string :=
  match l with
  | LStr s => "'" ++ s ++ "'"
  | LDatetime s => "'" ++ s ++ "'"
  | LInt n => str_int n
  | LFloat s => s
  end.

(** Iterating over, or indexing, [self._arg].  A [str] literal is itself a
    sequence of one-character strings; any other single literal is not
    iterable. *)
Definition arg_items (a : arg) : result (list literal) :=
  match a with
  | Items ls => Ok ls
  | Single (LStr s) =>
      Ok (map (fun ch => LStr (String ch EmptyString)) (list_ascii_of_string s))
  | Single _ => Raise (TypeError "object is not iterable")
  end.

Definition column_ref (column_name : string) : string :=
  _table_name_placeholder ++ "." ++ dquote ++ column_name ++ dquote.

Definition where_clause_OpArg (self_version : Z) (column_name op : string)
           (a : arg) (mdb_table : MdbTable) : result string :=
  if negb (self_version =? _version_number mdb_table)%Z then
    Raise (ValueError
      "Using a series from a different table in a row selector is not supported")
  else if (op =? "BETWEEN") || (op =? "NOT BETWEEN") then
    items <- arg_items a ;;
    match items with
    | a0 :: a1 :: _ =>
        Ok ("(" ++ column_ref column_name ++ " " ++ op ++ " "
                ++ _single_arg_to_string a0 ++ " AND "
                ++ _single_arg_to_string a1 ++ ")")
    | _ => Raise (ExternalError "IndexError")
    end
  else if (op =? "IN") || (op =? "NOT IN") then
    items <- arg_items a ;;
    Ok ("(" ++ column_ref column_name ++ " " ++ op ++ " ("
            ++ join ", " (map _single_arg_to_string items) ++ "))")
  else
    match a with
    | Single l =>
        Ok ("(" ++ column_ref column_name ++ " " ++ op ++ " "
                ++ _single_arg_to_string l ++ ")")
    | Items _ =>
        (* outside [COMPARISON_LITERAL_TYPE]: the comparison methods of
           [MdbColumn] never build this *)
        Raise (TypeError "a comparison takes a single literal")
    end.

Fixpoint _construct_where_clause (p : MdbBoolColumn) (mdb_table : MdbTable)
  : result string :=
  match p with
  | MdbComputedBoolColumnOpArg v c op a => where_clause_OpArg v c op a mdb_table
  | MdbComputedBoolColumnOpColumn sa sb op =>
      wa <- _construct_where_clause sa mdb_table ;;
      wb <- _construct_where_clause sb mdb_table ;;
      Ok ("(" ++ wa ++ " " ++ op ++ " " ++ wb ++ ")")
  end.

(** *** [MdbTable._construct_sql] *)

(** [[op.columns_to_select for op in self._ops
      if isinstance(op, _SelectColumnsOp)]] *)
Fixpoint column_args (ops : list Op) : list (list string) :=
  match ops with
  | [] => []
  | _SelectColumnsOp cs :: ops' => cs :: column_args ops'
  | _SelectRowsOp _ :: ops' => column_args ops'
  end.

(** [[op.filter_column for op in self._ops if isinstance(op, _SelectRowsOp)]] *)
Fixpoint row_args (ops : list Op) : list MdbBoolColumn :=
  match ops with
  | [] => []
  | _SelectColumnsOp _ :: ops' => row_args ops'
  | _SelectRowsOp f :: ops' => f :: row_args ops'
  end.

(** [[a for a in next_columns if a not in curr_columns]] *)
Definition columns_not_previously_selected (curr_columns next_columns : list string)
  : list string :=
  filter (fun a => negb (str_in a curr_columns)) next_columns.

(** The loop [for next_columns in column_args[1:]] *)
Fixpoint narrow_columns (curr_columns : list string) (rest : list (list string))
  : result (list string) :=
  match rest with
  | [] => Ok curr_columns
  | next_columns :: rest' =>
      let bad := columns_not_previously_selected curr_columns next_columns in
      if (0 <? List.length bad)%nat then
        Raise (ValueError ("Tried to select columns " ++ join ", " bad
                             ++ " after already filtering them out"))
      else narrow_columns next_columns rest'
  end.

Definition render_columns (cols : list string) : string :=
  "SELECT " ++ join ", " (map column_ref cols).

Definition select_clause_of (ops : list Op) : result string :=
  match column_args ops with
  | [] => Ok ("SELECT " ++ _table_name_placeholder ++ ".*")
  | first :: rest =>
      curr_columns <- narrow_columns first rest ;;
      Ok (render_columns curr_columns)
  end.

(** The loop [for next_filter_column in row_args[1:]], which folds the
    filters into one AND node *)
Definition conjoin_filters (first : MdbBoolColumn) (rest : list MdbBoolColumn)
  : MdbBoolColumn :=
  fold_left (fun curr next => MdbComputedBoolColumnOpColumn curr next "AND")
            rest first.

Definition where_clause_of (self : MdbTable) : result string :=
  match row_args (_ops self) with
  | [] => Ok "TRUE"
  | first :: rest =>
      let curr_filter_column := conjoin_filters first rest in
      (* line 405: the clause is rendered from [row_args[0]];
         [curr_filter_column] is not used *)
      _construct_where_clause first self
  end.

Definition _construct_sql (self : MdbTable) : result (string * string) :=
  select_clause <- select_clause_of (_ops self) ;;
  where_clause <- where_clause_of self ;;
  Ok (select_clause, where_clause).

(** *** Predicates used to state properties of the builder *)

(** The operators the builder can put in a leaf and in a binary node *)
Definition comparison_ops : list string :=
  ["="; "!="; ">"; "<="; "<"; ">="; "BETWEEN"; "NOT BETWEEN"; "IN"; "NOT IN"].

Definition valid_comparison (op : string) : bool :=
  existsb (String.eqb op) comparison_ops.

Definition valid_connective (op : string) : bool :=
  (op =? "AND") || (op =? "OR").

(** Every operator of the tree is one the builder produces *)
Fixpoint valid_ops (p : MdbBoolColumn) : bool :=
  match p with
  | MdbComputedBoolColumnOpArg _ _ op _ => valid_comparison op
  | MdbComputedBoolColumnOpColumn sa sb op =>
      valid_connective op && valid_ops sa && valid_ops sb
  end.

(** Every column of [next] is a column of [curr] *)
Definition subset_of (next curr : list string) : bool :=
  forallb (fun a => str_in a curr) next.

(** Each column set of [rest] is a subset of the one before it, the first
    of them of [curr] *)
Fixpoint narrowing (curr : list string) (rest : list (list string)) : bool :=
  match rest with
  | [] => true
  | next :: rest' => subset_of next curr && narrowing next rest'
  end.

(** The message of the [ValueError] of the projection loop *)
Definition broadening_message (bad : list string) : string :=
  "Tried to select columns " ++ join ", " bad
    ++ " after already filtering them out".

(** The table [t] over another segment list *)
Definition with_data_list (t : MdbTable) (data_list : list DataFileEntry) : MdbTable :=
  mkMdbTable (_version_number t) (_table_schema t) data_list (_ops t).

(** [t[c1][c2]...[cn]] *)
Definition project (t : MdbTable) (column_sets : list (list string)) : MdbTable :=
  fold_left getitem_columns column_sets t.

(** [t[p1][p2]...[pn]] *)
Definition restrict (t : MdbTable) (filters : list MdbBoolColumn) : MdbTable :=
  fold_left getitem_rows filters t.

(** *** [MdbTable.to_pd] *)

(** [s.replace(old, new)] for a non-empty [old]: every non-overlapping
    occurrence, left to right.  [skip] counts the characters of a matched
    occurrence still to be dropped. *)
Fixpoint replace_from (old new : string) (skip : nat) (s : string) : string :=
  match s with
  | EmptyString => EmptyString
  | String ch s' =>
      match skip with
      | S k => replace_from old new k s'
      | O =>
          if prefix old s
          then new ++ replace_from old new (String.length old - 1) s'
          else String ch (replace_from old new O s')
      end
  end.

Definition replace (s old new : string) : string := replace_from old new O s.

(** pandas and duckdb, the collaborators [to_pd] drives.  The reader only
    assembles SQL text and moves frames around; what a query returns is the
    engine's business. *)
Class Engine : Type := {
  DataFrame : Type;
  (** [pd.DataFrame()] *)
  empty_DataFrame : DataFrame;
  (** [len(df)] *)
  df_len : DataFrame -> nat;
  (** [df.columns] *)
  df_columns : DataFrame -> list string;
  (** [pd.concat(frames)] *)
  pd_concat : list DataFrame -> DataFrame;
  (** [pd.concat(frames, ignore_index=True)] *)
  pd_concat_ignore_index : list DataFrame -> DataFrame;
  (** [df[keys].assign(name=1)] *)
  df_select_assign : DataFrame -> list string -> string -> result DataFrame;
  (** [d[name] = 1] *)
  df_set_column : DataFrame -> string -> DataFrame;
  Connection : Type;
  (** [duckdb.connect(":memory:")] *)
  duckdb_connect : Connection;
  (** [conn.from_parquet(filename).create_view(name)] *)
  create_view_from_parquet : Connection -> string -> string -> result Connection;
  (** [conn.register(name, df)] *)
  register : Connection -> string -> DataFrame -> Connection;
  (** [conn.execute(sql); conn.fetchdf()] *)
  execute_fetchdf : Connection -> string -> result DataFrame
}.

Section ToPd.
Context {E : Engine}.

(** The local variables of [to_pd] that the loop updates *)
Record loop_state : Type := mkLoopState {
  conn : Connection;
  partition_results : list DataFrame;
  deduplication_keys_seen : DataFrame;
  deletes : DataFrame
}.

(** [" AND ".join(f"{table_name}.{c} = {other}.{c}" for c in cols)] *)
Definition join_on (table_name other : string) (cols : list string) : string :=
  join " AND "
       (map (fun c => table_name ++ "." ++ c ++ " = " ++ other ++ "." ++ c) cols).

(** [c for c in deletes.columns if c != _indicator_column_name] *)
Definition delete_columns (d : DataFrame) : list string :=
  filter (fun c => negb (c =? _indicator_column_name)) (df_columns d).

(** The four shapes of the query of a [write] segment *)
Definition write_sql (select_clause where_clause table_name : string)
           (dedup_keys : option (list string)) (st : loop_state)
  : result (Connection * string) :=
  let sel := replace select_clause _table_name_placeholder table_name in
  let whr := replace where_clause _table_name_placeholder table_name in
  if (df_len (deduplication_keys_seen st) =? 0)%nat then
    if (df_len (deletes st) =? 0)%nat then
      Ok (conn st, sel ++ " FROM " ++ table_name ++ " WHERE " ++ whr)
    else
      let c := register (conn st) "ds" (deletes st) in
      Ok (c, sel ++ " FROM " ++ table_name ++ " LEFT JOIN ds ON "
                 ++ join_on table_name "ds" (delete_columns (deletes st))
                 ++ " WHERE ds." ++ _indicator_column_name
                 ++ " IS NULL AND " ++ whr)
  else
    match dedup_keys with
    | None => Raise (TypeError "'NoneType' object is not iterable")
    | Some ks =>
        if (df_len (deletes st) =? 0)%nat then
          let c := register (conn st) "pks" (deduplication_keys_seen st) in
          Ok (c, sel ++ " FROM " ++ table_name ++ " LEFT JOIN pks ON "
                     ++ join_on table_name "pks" ks
                     ++ " WHERE pks." ++ _indicator_column_name
                     ++ " IS NULL AND " ++ whr)
        else
          let c := register (conn st) "pks" (deduplication_keys_seen st) in
          let c := register c "ds" (deletes st) in
          Ok (c, sel ++ " FROM " ++ table_name ++ " LEFT JOIN ds ON "
                     ++ join_on table_name "ds" (delete_columns (deletes st))
                     ++ " LEFT JOIN pks ON " ++ join_on table_name "pks" ks
                     ++ " WHERE ds." ++ _indicator_column_name
                     ++ " IS NULL AND " ++ "pks." ++ _indicator_column_name
                     ++ " IS NULL AND " ++ whr)
    end.

(** The branch [data_file.data_file_type == "write"] *)
Definition on_write (select_clause where_clause : string)
           (dedup_keys : option (list string)) (i : nat)
           (data_file : DataFileEntry) (st : loop_state) : result loop_state :=
  let table_name := "t" ++ str_int (Z.of_nat i) in
  c <- create_view_from_parquet (conn st) (data_filename data_file) table_name ;;
  let st := mkLoopState c (partition_results st)
                        (deduplication_keys_seen st) (deletes st) in
  cs <- write_sql select_clause where_clause table_name dedup_keys st ;;
  let (c, sql) := cs in
  df <- execute_fetchdf c sql ;;
  let results := (partition_results st ++ [df])%list in
  match dedup_keys with
  | Some ks =>
      seen <- df_select_assign df ks _indicator_column_name ;;
      Ok (mkLoopState c results
                      (pd_concat [deduplication_keys_seen st; seen])
                      (deletes st))
  | None => Ok (mkLoopState c results (deduplication_keys_seen st) (deletes st))
  end.

(** The branch [data_file.data_file_type == "delete"] *)
Definition on_delete (data_file : DataFileEntry) (st : loop_state)
  : result loop_state :=
  c <- create_view_from_parquet (conn st) (data_filename data_file) "d" ;;
  d <- execute_fetchdf c "SELECT * FROM d" ;;
  let d := df_set_column d _indicator_column_name in
  if (0 <? df_len (deletes st))%nat
     && negb (str_list_eqb (sorted (df_columns (deletes st)))
                           (sorted (df_columns d)))
  then Raise (NotImplementedError
                "Deletes on different sets of columns is not supported")
  else Ok (mkLoopState c (partition_results st) (deduplication_keys_seen st)
                       (pd_concat [deletes st; d])).

(** [for i, data_file in enumerate(reversed(self._data_list))]: [files] is
    what is left of the reversed list, [i] the index of its head.  [break]
    leaves the loop with the state reached so far. *)
Fixpoint to_pd_loop (select_clause where_clause : string)
         (dedup_keys : option (list string)) (i : nat)
         (files : list DataFileEntry) (st : loop_state) : result loop_state :=
  match files with
  | [] => Ok st
  | data_file :: files' =>
      if data_file_type data_file =? "write" then
        st' <- on_write select_clause where_clause dedup_keys i data_file st ;;
        to_pd_loop select_clause where_clause dedup_keys (S i) files' st'
      else if data_file_type data_file =? "delete" then
        st' <- on_delete data_file st ;;
        to_pd_loop select_clause where_clause dedup_keys (S i) files' st'
      else if data_file_type data_file =? "delete_all" then
        Ok st
      else
        Raise (ValueError ("data_file_type " ++ data_file_type data_file
                             ++ " is not supported"))
  end.

Definition to_pd (self : MdbTable) : result DataFrame :=
  let c := duckdb_connect in
  clauses <- _construct_sql self ;;
  let (select_clause, where_clause) := clauses in
  let dedup_keys := deduplication_keys (_table_schema self) in
  st <- to_pd_loop select_clause where_clause dedup_keys O
                   (rev (_data_list self))
                   (mkLoopState c [] empty_DataFrame empty_DataFrame) ;;
  let results := rev (partition_results st) in
  if (List.length results =? 0)%nat then Ok empty_DataFrame
  else Ok (pd_concat_ignore_index results).
End ToPd.

(** A small engine to run [to_pd] on: a frame is a list of rows, a row is a
    string; the parquet file [f] holds the single row [f]; a query returns
    the rows of the view created last. *)
Definition toy_engine : Engine := {|
  DataFrame := list string;
  empty_DataFrame := [];
  df_len := @List.length string;
  df_columns := fun _ => ["row"];
  pd_concat := @List.concat string;
  pd_concat_ignore_index := @List.concat string;
  df_select_assign := fun df _ _ => Ok df;
  df_set_column := fun df _ => df;
  Connection := list (string * list string);
  duckdb_connect := [];
  create_view_from_parquet := fun c filename name => Ok ((name, [filename]) :: c);
  register := fun c _ _ => c;
  execute_fetchdf := fun c _ =>
    match c with
    | [] => Raise (ExternalError "no view")
    | (_, rows) :: _ => Ok rows
    end
|}.

(** *** [read] *)

(** Modelled from the spec: [TableVersion] is declared with the table
    versions client, which is not part of the sources here;
    [(version_number, table_schema_filename: optional, data_list_filename)]. *)
Record TableVersion : Type := mkTableVersion {
  version_number : Z;
  table_schema_filename : option string;
  data_list_filename : string
}.

(** Modelled from the spec: [meadowdb.connection.prod_userspace_name], the
    canonical userspace, named prod. *)
Definition prod_userspace_name : string := "prod".

(** [TableVersionsClientLocal] and the pickled files it points to.
    [pd.read_pickle] yields a [TableSchema] for a schema file and a list of
    [DataFileEntry] for a data list file. *)
Class TableVersionsClient : Type := {
  get_current_table_version :
    string -> string -> option Z -> option TableVersion;
  prepend_data_dir : string -> string;
  read_pickle_schema : string -> TableSchema;
  read_pickle_data_list : string -> list DataFileEntry
}.

Section Read.
Context {C : TableVersionsClient}.

Definition _prepend_data_dir_data_file_entries (data_list : list DataFileEntry)
  : list DataFileEntry :=
  map (fun d =>
         if data_file_type d =? "delete_all" then d
         else mkDataFileEntry (data_file_type d)
                              (prepend_data_dir (data_filename d)))
      data_list.

(** The schema read from an optional schema file *)
Definition schema_of_file (table_schema_filename : option string) : TableSchema :=
  match table_schema_filename with
  | Some f => read_pickle_schema (prepend_data_dir f)
  | None => default_TableSchema
  end.

(** The entries of one data list file, as [read] puts them in the table *)
Definition entries_of_file (data_list_filename : string) : list DataFileEntry :=
  _prepend_data_dir_data_file_entries
    (read_pickle_data_list (prepend_data_dir data_list_filename)).

(** The tail of [read], shared by both branches *)
Definition build_table (table_version_number : Z)
           (table_schema_filename : option string)
           (data_list_filenames : list string) : MdbTable :=
  let table_schema := schema_of_file table_schema_filename in
  mkMdbTable table_version_number table_schema
             (flat_map entries_of_file data_list_filenames)
             [].

Definition read (userspace table_name : string) (max_version_number : option Z)
  : result MdbTable :=
  let table_version :=
    get_current_table_version userspace table_name max_version_number in
  if userspace =? prod_userspace_name then
    match table_version with
    | None =>
        Raise (ValueError ("Requested table " ++ userspace ++ "/" ++ table_name
                             ++ " does not exist"))
    | Some tv =>
        Ok (build_table (version_number tv) (table_schema_filename tv)
                        [data_list_filename tv])
    end
  else
    let prod_table_version :=
      get_current_table_version prod_userspace_name table_name
                                max_version_number in
    match table_version, prod_table_version with
    | None, None =>
        Raise (ValueError
                 ("Requested table " ++ userspace ++ "/" ++ table_name
                    ++ " does not exist and " ++ prod_userspace_name ++ "/"
                    ++ table_name ++ " also does not exist"))
    | _, _ =>
        let table_schema_filename :=
          match table_version with
          | Some {| table_schema_filename := Some f |} => Some f
          | _ =>
              match prod_table_version with
              | Some ptv => table_schema_filename ptv
              | None => None
              end
          end in
        let data_list_filenames := [] in
        let table_version_number := (-1)%Z in
        let '(data_list_filenames, table_version_number) :=
          match prod_table_version with
          | Some ptv => ((data_list_filenames ++ [data_list_filename ptv])%list,
                         version_number ptv)
          | None => (data_list_filenames, table_version_number)
          end in
        let '(data_list_filenames, table_version_number) :=
          match table_version with
          | Some tv => ((data_list_filenames ++ [data_list_filename tv])%list,
                        Z.max table_version_number (version_number tv))
          | None => (data_list_filenames, table_version_number)
          end in
        Ok (build_table table_version_number table_schema_filename
                        data_list_filenames)
    end.

(** The entries a version contributes, none when the version is absent *)
Definition entries_of (v : option TableVersion) : list DataFileEntry :=
  match v with
  | Some tv => entries_of_file (data_list_filename tv)
  | None => []
  end.

(** The version, when there is one, has a non-negative number *)
Definition version_ok (v : option TableVersion) : bool :=
  match v with
  | Some tv => (0 <=? version_number tv)%Z
  | None => true
  end.
End Read.

(** A registry to run [read] on: [prod/t] at version 5 without a schema
    file, [dev/t] at version 6 with one, [prod/u] at version 7, nothing
    else. *)
Definition toy_client : TableVersionsClient := {|
  get_current_table_version := fun userspace table_name _ =>
    if (userspace =? "prod") && (table_name =? "t")
    then Some (mkTableVersion 5 None "prod_t.pkl")
    else if (userspace =? "dev") && (table_name =? "t")
    then Some (mkTableVersion 6 (Some "dev_schema.pkl") "dev_t.pkl")
    else if (userspace =? "prod") && (table_name =? "u")
    then Some (mkTableVersion 7 None "prod_u.pkl")
    else None;
  prepend_data_dir := fun f => "/data/" ++ f;
  read_pickle_schema := fun _ => mkTableSchema (Some ["k"]);
  read_pickle_data_list := fun f =>
    if f =? "/data/prod_t.pkl"
    then [mkDataFileEntry "write" "w1.parquet"; mkDataFileEntry "delete_all" EmptyString]
    else if f =? "/data/dev_t.pkl"
    then [mkDataFileEntry "write" "w2.parquet"]
    else [mkDataFileEntry "write" "w3.parquet"]
|}.

(** *** More of the builder, and predicates to state its properties *)

(** [MdbTable.empty] *)
Definition empty (self : MdbTable) : bool :=
  match _data_list self with
  | [] => true
  | _ :: _ => false
  end.

(** [t[t['bool_column']]] *)
Definition getitem_column (t : MdbTable) (item : MdbColumn) : MdbTable :=
  getitem_rows t (_interpret_as_bool item).

(** [MdbColumn.__and__] and [MdbColumn.__or__] *)
Definition col_and (c : MdbColumn) (other : MdbBoolColumn) : MdbBoolColumn :=
  MdbComputedBoolColumnOpColumn (_interpret_as_bool c) other "AND".
Definition col_or (c : MdbColumn) (other : MdbBoolColumn) : MdbBoolColumn :=
  MdbComputedBoolColumnOpColumn (_interpret_as_bool c) other "OR".

(** [MdbColumn._construct_where_clause] *)
Definition col_construct_where_clause (c : MdbColumn) (mdb_table : MdbTable)
  : result string :=
  _construct_where_clause (_interpret_as_bool c) mdb_table.

(** The bool columns that the methods of [MdbColumn] and the operators
    [&], [|] and [~] can produce *)
Inductive built : MdbBoolColumn -> Prop :=
| built_eq c x : built (col_eq c x)
| built_ne c x : built (col_ne c x)
| built_gt c x : built (col_gt c x)
| built_lt c x : built (col_lt c x)
| built_ge c x : built (col_ge c x)
| built_le c x : built (col_le c x)
| built_between c a b : built (between c a b)
| built_isin c items : built (isin c items)
| built_bool c : built (_interpret_as_bool c)
| built_and a b : built a -> built b -> built (and_ a b)
| built_or a b : built a -> built b -> built (or_ a b)
| built_invert a b : built a -> invert a = Ok b -> built b.

(** The exception a computation raised, if any *)
Definition raised {A : Type} (r : result A) : option exn :=
  match r with
  | Ok _ => None
  | Raise e => Some e
  end.

(** The table versions the leaves of a bool column were built from *)
Fixpoint leaf_versions (p : MdbBoolColumn) : list Z :=
  match p with
  | MdbComputedBoolColumnOpArg v _ _ _ => [v]
  | MdbComputedBoolColumnOpColumn sa sb _ =>
      (leaf_versions sa ++ leaf_versions sb)%list
  end.

(** What [to_pd] asks of the engine for write segments when nothing has been
    deleted and no deduplication keys have been seen, written as a plain
    scan: for the segments [files], newest first and numbered from [i], it
    creates the view [t<i>] over the file of the segment on the connection
    that holds the views created so far, and fetches
    [<select> FROM t<i> WHERE <where>] with the table name placeholder
    replaced by [t<i>].  The frames come back newest first; the first
    failing call of the engine ends the scan. *)
Section PlainScan.
Context {E : Engine}.

Fixpoint plain_scan (select_clause where_clause : string) (i : nat)
         (files : list DataFileEntry) (c : Connection)
  : result (list DataFrame) :=
  match files with
  | [] => Ok []
  | data_file :: files' =>
      let table_name := "t" ++ str_int (Z.of_nat i) in
      c' <- create_view_from_parquet c (data_filename data_file) table_name ;;
      df <- execute_fetchdf c'
              (replace select_clause _table_name_placeholder table_name
                 ++ " FROM " ++ table_name ++ " WHERE "
                 ++ replace where_clause _table_name_placeholder table_name) ;;
      dfs <- plain_scan select_clause where_clause (S i) files' c' ;;
      Ok (df :: dfs)
  end.

End PlainScan.

(** An engine that shows what it was asked: as [toy_engine], but a query
    returns each row of the view created last followed by the text of the
    query. *)
Definition echo_engine : Engine := {|
  DataFrame := list string;
  empty_DataFrame := [];
  df_len := @List.length string;
  df_columns := fun _ => ["row"];
  pd_concat := @List.concat string;
  pd_concat_ignore_index := @List.concat string;
  df_select_assign := fun df _ _ => Ok df;
  df_set_column := fun df _ => df;
  Connection := list (string * list string);
  duckdb_connect := [];
  create_view_from_parquet := fun c filename name => Ok ((name, [filename]) :: c);
  register := fun c _ _ => c;
  execute_fetchdf := fun c sql =>
    match c with
    | [] => Raise (ExternalError "no view")
    | (_, rows) :: _ => Ok (map (fun row => row ++ ": " ++ sql) rows)
    end
|}.

(** The segment kinds [to_pd] knows *)
Definition known_data_file_type (data_file_type : string) : bool :=
  (data_file_type =? "write") || (data_file_type =? "delete")
  || (data_file_type =? "delete_all").

End Reader.

(* ================================================================= *)
(** ** meadowgrid/coordinator.py *)

Module Coordinator.

(** *** Protobuf messages *)

(** Modelled from the spec: the messages come from [meadowgrid_pb2], which
    is not part of the sources here; the fields are the ones the
    coordinator reads and writes. *)
Inductive ProcessStateEnum : Type :=
| RUN_REQUESTED | ASSIGNED | RUNNING | SUCCEEDED | PYTHON_EXCEPTION
| NON_ZERO_RETURN_CODE | CANCELLED | RUN_REQUEST_FAILED | UNKNOWN
| ERROR_GETTING_STATE | REQUEST_IS_DUPLICATE.

Record ProcessState : Type := mkProcessState {
  state : ProcessStateEnum;
  pid : Z;
  return_code : Z;
  pickled_result : string
}.

(** [ProcessState(state=s)] *)
Definition ProcessState_of (s : ProcessStateEnum) : ProcessState :=
  mkProcessState s 0 0 EmptyString.

Record GridTask : Type := mkGridTask {
  task_id : Z;
  pickled_function_arguments : string
}.

(** The [job_spec] oneof; [no_job_spec] is the unset oneof, for which
    [WhichOneof] returns [None]. *)
Inductive JobSpec : Type :=
| py_command (payload : string)
| py_function (payload : string)
| py_grid (payload : string) (tasks : list GridTask) (all_tasks_added : bool)
| no_job_spec.

Record Job : Type := mkJob {
  job_id : string;
  job_friendly_name : string;
  priority : Z;
  job_spec : JobSpec
}.

(** [Job()] *)
Definition empty_Job : Job := mkJob EmptyString EmptyString 0 no_job_spec.

Inductive AddJobState : Type := ADDED | IS_DUPLICATE.

(** Modelled from the spec: [meadowgrid.config.JOB_ID_VALID_CHARACTERS];
    letters, digits, dot, dash and underscore. *)
Definition JOB_ID_VALID_CHARACTERS : list ascii :=
  list_ascii_of_string
    "abcdefghijklmnopqrstuvwxyzABCDEFGHIJKLMNOPQRSTUVWXYZ0123456789.-_".

(** *** In-memory records *)

Record _SimpleJob : Type := mk_SimpleJob {
  sj_job : Job;
  sj_state : ProcessState
}.

Record _GridTask : Type := mk_GridTask {
  gt_task_id : Z;
  gt_pickled_function_arguments : string;
  gt_state : ProcessState
}.

(** [unassigned_tasks] holds the same [_GridTask] objects as [all_tasks].
    An object is filed under its own [task_id] and never replaced, so a
    write through [all_tasks[task_id]] is applied to the queue entries with
    that id as well (see [set_task_state]). *)
Record _GridJob : Type := mk_GridJob {
  gj_job : Job;
  all_tasks : dict (K := Z) (V := _GridTask);
  unassigned_tasks : list _GridTask;
  gj_all_tasks_added : bool;
  num_current_grid_workers : Z
}.

Record MeadowGridCoordinatorHandler : Type := mkHandler {
  _grid_jobs : dict (K := string) (V := _GridJob);
  _simple_jobs : dict (K := string) (V := _SimpleJob)
}.

(** [__init__] *)
Definition init : MeadowGridCoordinatorHandler := mkHandler [] [].

Definition grid_get := get (V := _GridJob) string_dec.
Definition grid_mem := mem (V := _GridJob) string_dec.
Definition grid_set := set (V := _GridJob) string_dec.
Definition simple_get := get (V := _SimpleJob) string_dec.
Definition simple_mem := mem (V := _SimpleJob) string_dec.
Definition simple_set := set (V := _SimpleJob) string_dec.
Definition task_get := get (V := _GridTask) Z.eq_dec.
Definition task_mem := mem (V := _GridTask) Z.eq_dec.
Definition task_set := set (V := _GridTask) Z.eq_dec.

(** *** [_add_tasks_to_grid_job] *)

(** The job is mutated in place: what the loop did before an exception
    stays done, so the job comes back next to the outcome. *)
Fixpoint _add_tasks_to_grid_job (grid_job : _GridJob) (tasks : list GridTask)
  : _GridJob * result unit :=
  match tasks with
  | [] => (grid_job, Ok tt)
  | task_request :: tasks' =>
      if negb (task_mem (task_id task_request) (all_tasks grid_job)) then
        if gj_all_tasks_added grid_job then
          (grid_job,
           Raise (ValueError ("Tried to add all_tasks to job "
                                ++ job_id (gj_job grid_job)
                                ++ " after it had already been marked as all_tasks_added")))
        else if (task_id task_request <? 0)%Z then
          (grid_job, Raise (ValueError "task_ids cannot be negative"))
        else
          let grid_task :=
            mk_GridTask (task_id task_request)
                        (pickled_function_arguments task_request)
                        (ProcessState_of RUN_REQUESTED) in
          _add_tasks_to_grid_job
            (mk_GridJob (gj_job grid_job)
                        (task_set (task_id task_request) grid_task
                                  (all_tasks grid_job))
                        (unassigned_tasks grid_job ++ [grid_task])%list
                        (gj_all_tasks_added grid_job)
                        (num_current_grid_workers grid_job))
            tasks'
      else
        (* print: ignoring duplicate task *)
        _add_tasks_to_grid_job grid_job tasks'
  end.

(** *** The handlers.  Each returns the handler after the call and either
    the response or the exception raised. *)

Definition valid_chars (s : string) : bool :=
  forallb (fun ch => existsb (Ascii.eqb ch) JOB_ID_VALID_CHARACTERS)
          (list_ascii_of_string s).

(** [del grid_job.job.py_grid.tasks[:]] *)
Definition strip_tasks (j : Job) : Job :=
  match job_spec j with
  | py_grid payload _ added =>
      mkJob (job_id j) (job_friendly_name j) (priority j)
            (py_grid payload [] added)
  | _ => j
  end.

Definition add_job (self : MeadowGridCoordinatorHandler) (request : Job)
  : MeadowGridCoordinatorHandler * result AddJobState :=
  if job_id request =? EmptyString then
    (self, Raise (ValueError "job_id must not be None/empty string"))
  else if negb (valid_chars (job_id request))
          || negb (valid_chars (job_friendly_name request)) then
    (self,
     Raise (ValueError
              ("job_id " ++ job_id request ++ " or friendly name "
                 ++ job_friendly_name request
                 ++ " contains invalid characters. Only string.ascii_letters, numbers, ., -, and _ are permitted.")))
  else if grid_mem (job_id request) (_grid_jobs self)
          || simple_mem (job_id request) (_simple_jobs self) then
    (self, Ok IS_DUPLICATE)
  else if (priority request <=? 0)%Z then
    (self, Raise (ValueError "priority must be greater than 0"))
  else
    match job_spec request with
    | py_command _ | py_function _ =>
        (mkHandler (_grid_jobs self)
                   (simple_set (job_id request)
                               (mk_SimpleJob request (ProcessState_of RUN_REQUESTED))
                               (_simple_jobs self)),
         Ok ADDED)
    | py_grid _ tasks added =>
        let grid_job := mk_GridJob request [] [] false 0 in
        match _add_tasks_to_grid_job grid_job tasks with
        | (_, Raise e) => (self, Raise e)
        | (grid_job, Ok _) =>
            let grid_job :=
              mk_GridJob (strip_tasks (gj_job grid_job)) (all_tasks grid_job)
                         (unassigned_tasks grid_job) added
                         (num_current_grid_workers grid_job) in
            (mkHandler (grid_set (job_id request) grid_job (_grid_jobs self))
                       (_simple_jobs self),
             Ok ADDED)
        end
    | no_job_spec => (self, Raise (ValueError "Unknown job_spec None"))
    end.

Definition add_tasks_to_grid_job (self : MeadowGridCoordinatorHandler)
           (req_job_id : string) (tasks : list GridTask) (all_tasks_added : bool)
  : MeadowGridCoordinatorHandler * result unit :=
  match grid_get req_job_id (_grid_jobs self) with
  | None =>
      (self, Raise (ValueError ("job_id " ++ req_job_id
                                  ++ " does not exist, so cannot add tasks to it")))
  | Some job =>
      match _add_tasks_to_grid_job job tasks with
      | (job, Raise e) =>
          (mkHandler (grid_set req_job_id job (_grid_jobs self))
                     (_simple_jobs self),
           Raise e)
      | (job, Ok _) =>
          let job :=
            if all_tasks_added
            then mk_GridJob (gj_job job) (all_tasks job) (unassigned_tasks job)
                            true (num_current_grid_workers job)
            else job in
          (mkHandler (grid_set req_job_id job (_grid_jobs self))
                     (_simple_jobs self),
           Ok tt)
      end
  end.

Fixpoint update_job_states (self : MeadowGridCoordinatorHandler)
         (job_states : list (string * ProcessState))
  : MeadowGridCoordinatorHandler :=
  match job_states with
  | [] => self
  | (jid, process_state) :: rest =>
      match simple_get jid (_simple_jobs self) with
      | Some sj =>
          update_job_states
            (mkHandler (_grid_jobs self)
                       (simple_set jid (mk_SimpleJob (sj_job sj) process_state)
                                   (_simple_jobs self)))
            rest
      | None =>
          (* a grid job or an unknown job: print, nothing else *)
          update_job_states self rest
      end
  end.

(** An element of [available_jobs]: the job object of a grid job or of a
    simple job, named by its key. *)
Inductive job_ref : Type :=
| GridRef (jid : string)
| SimpleRef (jid : string).

Definition available_grid_jobs (self : MeadowGridCoordinatorHandler)
  : list job_ref :=
  map (fun kv => GridRef (fst kv))
      (filter (fun kv =>
                 (num_current_grid_workers (snd kv)
                  <? Z.of_nat (List.length (unassigned_tasks (snd kv))))%Z)
              (_grid_jobs self)).

Definition is_RUN_REQUESTED (s : ProcessStateEnum) : bool :=
  match s with RUN_REQUESTED => true | _ => false end.

Definition available_simple_jobs (self : MeadowGridCoordinatorHandler)
  : list job_ref :=
  map (fun kv => SimpleRef (fst kv))
      (filter (fun kv => is_RUN_REQUESTED (state (sj_state (snd kv))))
              (_simple_jobs self)).

Definition available_jobs (self : MeadowGridCoordinatorHandler) : list job_ref :=
  (available_grid_jobs self ++ available_simple_jobs self)%list.

(** [random.choices(available_jobs, weights)[0]] is an element of
    [available_jobs]; [choice] is the index drawn.  [None] when [choice] is
    not an index of the list, which is not an outcome of the call. *)
Definition get_next_job (self : MeadowGridCoordinatorHandler) (choice : nat)
  : option (MeadowGridCoordinatorHandler * Job) :=
  match available_jobs self with
  | [] => Some (self, empty_Job)
  | _ :: _ =>
      match nth_error (available_jobs self) choice with
      | None => None
      | Some (GridRef jid) =>
          match grid_get jid (_grid_jobs self) with
          | None => None
          | Some job =>
              let job' :=
                mk_GridJob (gj_job job) (all_tasks job) (unassigned_tasks job)
                           (gj_all_tasks_added job)
                           (num_current_grid_workers job + 1) in
              Some (mkHandler (grid_set jid job' (_grid_jobs self))
                              (_simple_jobs self),
                    gj_job job)
          end
      | Some (SimpleRef jid) =>
          match simple_get jid (_simple_jobs self) with
          | None => None
          | Some job =>
              Some (mkHandler (_grid_jobs self)
                              (simple_set jid
                                 (mk_SimpleJob (sj_job job)
                                               (ProcessState_of ASSIGNED))
                                 (_simple_jobs self)),
                    sj_job job)
          end
      end
  end.

(** [grid_job.all_tasks[task_id].state = process_state], seen through
    both containers *)
Definition with_state (process_state : ProcessState) (t : _GridTask) : _GridTask :=
  mk_GridTask (gt_task_id t) (gt_pickled_function_arguments t) process_state.

Definition set_task_state (grid_job : _GridJob) (tid : Z)
           (process_state : ProcessState) : _GridJob :=
  mk_GridJob (gj_job grid_job)
             (map (fun kv => if Z.eq_dec tid (fst kv)
                             then (fst kv, with_state process_state (snd kv))
                             else kv)
                  (all_tasks grid_job))
             (map (fun t => if Z.eq_dec tid (gt_task_id t)
                            then with_state process_state t else t)
                  (unassigned_tasks grid_job))
             (gj_all_tasks_added grid_job)
             (num_current_grid_workers grid_job).

Definition update_grid_task_state_and_get_next
           (self : MeadowGridCoordinatorHandler)
           (req_job_id : string) (req_task_id : Z) (process_state : ProcessState)
  : MeadowGridCoordinatorHandler * GridTask :=
  match grid_get req_job_id (_grid_jobs self) with
  | None => (self, mkGridTask (-1) EmptyString)
  | Some grid_job =>
      if negb (req_task_id =? -1)%Z
         && negb (task_mem req_task_id (all_tasks grid_job))
      then (self, mkGridTask (-1) EmptyString)
      else
        let grid_job :=
          if negb (req_task_id =? -1)%Z
          then set_task_state grid_job req_task_id process_state
          else grid_job in
        match unassigned_tasks grid_job with
        | chosen_task :: remaining =>
            (mkHandler
               (grid_set req_job_id
                  (mk_GridJob (gj_job grid_job) (all_tasks grid_job) remaining
                              (gj_all_tasks_added grid_job)
                              (num_current_grid_workers grid_job))
                  (_grid_jobs self))
               (_simple_jobs self),
             mkGridTask (gt_task_id chosen_task)
                        (gt_pickled_function_arguments chosen_task))
        | [] =>
            (mkHandler
               (grid_set req_job_id
                  (mk_GridJob (gj_job grid_job) (all_tasks grid_job) []
                              (gj_all_tasks_added grid_job)
                              (Z.max 0 (num_current_grid_workers grid_job - 1)))
                  (_grid_jobs self))
               (_simple_jobs self),
             mkGridTask (-1) EmptyString)
        end
  end.

Definition get_simple_job_states (self : MeadowGridCoordinatorHandler)
           (job_ids : list string) : list ProcessState :=
  map (fun jid =>
         match simple_get jid (_simple_jobs self) with
         | Some sj => sj_state sj
         | None => ProcessState_of UNKNOWN
         end)
      job_ids.

Definition get_grid_task_states (self : MeadowGridCoordinatorHandler)
           (req_job_id : string) (task_ids_to_ignore : list Z)
  : result (list (Z * ProcessState)) :=
  match grid_get req_job_id (_grid_jobs self) with
  | None => Raise (ValueError ("grid job_id " ++ req_job_id ++ " does not exist"))
  | Some job =>
      Ok (map (fun t => (gt_task_id t, gt_state t))
              (filter (fun t => negb (existsb (Z.eqb (gt_task_id t))
                                              task_ids_to_ignore))
                      (values (all_tasks job))))
  end.

(** *** The service as a state machine *)

Inductive request : Type :=
| AddJob (job : Job)
| AddTasksToGridJob (jid : string) (tasks : list GridTask) (all_tasks_added : bool)
| UpdateJobStates (job_states : list (string * ProcessState))
| GetNextJob (choice : nat)
| UpdateGridTaskStateAndGetNext (jid : string) (tid : Z) (process_state : ProcessState)
| GetSimpleJobStates (job_ids : list string)
| GetGridTaskStates (jid : string) (task_ids_to_ignore : list Z).

Inductive response : Type :=
| AddJobResponse (s : AddJobState)
| AddTasksResponse
| UpdateStateResponse
| JobResponse (job : Job)
| GridTaskResponse (task : GridTask)
| ProcessStates (process_states : list ProcessState)
| GridTaskStates (task_states : list (Z * ProcessState)).

Definition lift {A} (f : A -> response)
           (r : MeadowGridCoordinatorHandler * result A)
  : MeadowGridCoordinatorHandler * result response :=
  (fst r, match snd r with Ok a => Ok (f a) | Raise e => Raise e end).

Definition handle (self : MeadowGridCoordinatorHandler) (req : request)
  : option (MeadowGridCoordinatorHandler * result response) :=
  match req with
  | AddJob job => Some (lift AddJobResponse (add_job self job))
  | AddTasksToGridJob jid tasks added =>
      Some (lift (fun _ => AddTasksResponse)
                 (add_tasks_to_grid_job self jid tasks added))
  | UpdateJobStates job_states =>
      Some (update_job_states self job_states, Ok UpdateStateResponse)
  | GetNextJob choice =>
      match get_next_job self choice with
      | Some (self', job) => Some (self', Ok (JobResponse job))
      | None => None
      end
  | UpdateGridTaskStateAndGetNext jid tid process_state =>
      let r := update_grid_task_state_and_get_next self jid tid process_state in
      Some (fst r, Ok (GridTaskResponse (snd r)))
  | GetSimpleJobStates job_ids =>
      Some (self, Ok (ProcessStates (get_simple_job_states self job_ids)))
  | GetGridTaskStates jid ignore =>
      Some (self, match get_grid_task_states self jid ignore with
                  | Ok ts => Ok (GridTaskStates ts)
                  | Raise e => Raise e
                  end)
  end.

(** A log of calls, oldest first, with what each one answered *)
Definition trace : Type := list (request * result response).

(** [reachable tr self]: the calls of [tr], made in order on a fresh
    handler, leave it as [self]. *)
Inductive reachable : trace -> MeadowGridCoordinatorHandler -> Prop :=
| reachable_init : reachable [] init
| reachable_step tr self req self' resp :
    reachable tr self ->
    handle self req = Some (self', resp) ->
    reachable (tr ++ [(req, resp)])%list self'.

(** The task ids that [UpdateGridTaskStateAndGetNext] handed out for job
    [jid] in a log, in order; [-1] is the no-task answer. *)
Definition returned_task (jid : string) (entry : request * result response)
  : list Z :=
  match entry with
  | (UpdateGridTaskStateAndGetNext jid' _ _, Ok (GridTaskResponse task)) =>
      if (jid' =? jid) && negb (task_id task =? -1)%Z then [task_id task] else []
  | _ => []
  end.

Definition returned_tasks (jid : string) (tr : trace) : list Z :=
  flat_map (returned_task jid) tr.

(** *** The tasks sent for a grid job, read off a log

    A second description of which task ids the requests of a log have filed
    for a job, written from the rules of the interface alone and over lists
    of ids: tasks reach a grid job with the [AddJob] request that created it
    and with [AddTasksToGridJob] requests.  Of a batch, a task whose id is
    already known is skipped; a task with a new id is refused when the job
    is sealed or when the id is negative, and the rest of the batch is then
    not looked at; any other task is filed after the ones known so far. *)
Fixpoint filed_ids (known : list Z) (sealed : bool) (tasks : list GridTask)
  : list Z :=
  match tasks with
  | [] => []
  | t :: tasks' =>
      if existsb (Z.eqb (task_id t)) known then filed_ids known sealed tasks'
      else if sealed then []
      else if (task_id t <? 0)%Z then []
      else task_id t :: filed_ids (known ++ [task_id t])%list sealed tasks'
  end.

Definition is_Ok {A} (r : result A) : bool :=
  match r with Ok _ => true | Raise _ => false end.

(** What one entry of the log does to the ids sent for job [jid] so far and
    to whether the job is sealed; [None] stands for no grid job of that id.
    An [AddJob] with a py_grid spec that was answered ADDED opens the job
    with the tasks it carries.  An [AddTasksToGridJob] for a job that is
    there files its batch, and seals the job when it asks for it and was
    accepted. *)
Definition sent_step (jid : string) (acc : option (list Z * bool))
           (entry : request * result response) : option (list Z * bool) :=
  match entry with
  | (AddJob job, Ok (AddJobResponse ADDED)) =>
      if job_id job =? jid then
        match job_spec job with
        | py_grid _ tasks sealed => Some (filed_ids [] false tasks, sealed)
        | _ => acc
        end
      else acc
  | (AddTasksToGridJob jid' tasks sealed, resp) =>
      if jid' =? jid then
        match acc with
        | Some (ids, was_sealed) =>
            Some ((ids ++ filed_ids ids was_sealed tasks)%list,
                  was_sealed || (sealed && is_Ok resp))
        | None => None
        end
      else acc
  | _ => acc
  end.

(** The task ids sent for job [jid] by the requests of a log, in the order
    sent, and whether the job has been sealed *)
Definition tasks_sent (jid : string) (tr : trace) : option (list Z * bool) :=
  fold_left (sent_step jid) tr None.

(** The same two things as the handler holds them *)
Definition tasks_held (self : MeadowGridCoordinatorHandler) (jid : string)
  : option (list Z * bool) :=
  match grid_get jid (_grid_jobs self) with
  | Some gj => Some (keys (all_tasks gj), gj_all_tasks_added gj)
  | None => None
  end.

(** A grid worker calling [UpdateGridTaskStateAndGetNext] over and over for
    job [jid]: each element of [reports] is the task id and the state sent
    with one call ([-1] for no update).  The answers come back in order. *)
Fixpoint poll (reports : list (Z * ProcessState))
         (self : MeadowGridCoordinatorHandler) (jid : string)
  : MeadowGridCoordinatorHandler * list GridTask :=
  match reports with
  | [] => (self, [])
  | (tid, process_state) :: reports' =>
      let r := update_grid_task_state_and_get_next self jid tid process_state in
      let rs := poll reports' (fst r) jid in
      (fst rs, snd r :: snd rs)
  end.

(** The log of the calls [poll] makes *)
Definition poll_log (jid : string) (reports : list (Z * ProcessState))
           (answers : list GridTask) : trace :=
  map (fun ra =>
         (UpdateGridTaskStateAndGetNext jid (fst (fst ra)) (snd (fst ra)),
          Ok (GridTaskResponse (snd ra))))
      (combine reports answers).

(** A report the coordinator accepts: no update, or the id of a task of the
    job *)
Definition known_report (gj : _GridJob) (report : Z * ProcessState) : bool :=
  (fst report =? -1)%Z || task_mem (fst report) (all_tasks gj).

(** The message a grid worker gets for a queued task *)
Definition to_GridTask (t : _GridTask) : GridTask :=
  mkGridTask (gt_task_id t) (gt_pickled_function_arguments t).

(** *** Invariants *)

(** What holds of a grid job after a log in which [returned] are the task
    ids handed out for it: handed out and queued ids, in that order, are
    the keys of [all_tasks] in insertion order; no id occurs twice; ids
    and the worker count are not negative. *)
Definition job_inv (returned : list Z) (gj : _GridJob) : Prop :=
  (returned ++ map gt_task_id (unassigned_tasks gj))%list = keys (all_tasks gj)
  /\ NoDup (keys (all_tasks gj))
  /\ (forall k, In k (keys (all_tasks gj)) -> (0 <= k)%Z)
  /\ (0 <= num_current_grid_workers gj)%Z.

Definition handler_inv (tr : trace) (self : MeadowGridCoordinatorHandler) : Prop :=
  (forall jid gj, grid_get jid (_grid_jobs self) = Some gj ->
                  job_inv (returned_tasks jid tr) gj)
  /\ (forall jid, grid_get jid (_grid_jobs self) = None ->
                  returned_tasks jid tr = [])
  /\ (forall jid, grid_mem jid (_grid_jobs self) = true ->
                  simple_mem jid (_simple_jobs self) = false).

(** *** How the handlers change what they hold *)

(** The single mutations the handlers apply to a grid job object:
    [_add_tasks_to_grid_job] files one new task, [add_tasks_to_grid_job]
    seals, [get_next_job] counts a worker in, and
    [update_grid_task_state_and_get_next] writes a task state, pops the
    queue or counts a worker out. *)
Inductive job_change : _GridJob -> _GridJob -> Prop :=
| change_insert gj task_request :
    task_mem (task_id task_request) (all_tasks gj) = false ->
    gj_all_tasks_added gj = false ->
    (0 <= task_id task_request)%Z ->
    let grid_task :=
      mk_GridTask (task_id task_request)
                  (pickled_function_arguments task_request)
                  (ProcessState_of RUN_REQUESTED) in
    job_change gj
      (mk_GridJob (gj_job gj)
                  (task_set (task_id task_request) grid_task (all_tasks gj))
                  (unassigned_tasks gj ++ [grid_task])%list
                  (gj_all_tasks_added gj)
                  (num_current_grid_workers gj))
| change_seal gj :
    job_change gj
      (mk_GridJob (gj_job gj) (all_tasks gj) (unassigned_tasks gj) true
                  (num_current_grid_workers gj))
| change_worker_in gj :
    job_change gj
      (mk_GridJob (gj_job gj) (all_tasks gj) (unassigned_tasks gj)
                  (gj_all_tasks_added gj) (num_current_grid_workers gj + 1))
| change_task_state gj tid process_state :
    job_change gj (set_task_state gj tid process_state)
| change_pop gj chosen remaining :
    unassigned_tasks gj = chosen :: remaining ->
    job_change gj
      (mk_GridJob (gj_job gj) (all_tasks gj) remaining
                  (gj_all_tasks_added gj) (num_current_grid_workers gj))
| change_worker_out gj :
    unassigned_tasks gj = [] ->
    job_change gj
      (mk_GridJob (gj_job gj) (all_tasks gj) []
                  (gj_all_tasks_added gj)
                  (Z.max 0 (num_current_grid_workers gj - 1))).

(** Any number of such mutations, one after the other *)
Inductive job_changes : _GridJob -> _GridJob -> Prop :=
| changes_none gj : job_changes gj gj
| changes_more gj gj1 gj2 :
    job_changes gj gj1 -> job_change gj1 gj2 -> job_changes gj gj2.

(** The handler [self'] is what some calls make of the handler [self] *)
Inductive evolves (self : MeadowGridCoordinatorHandler)
  : MeadowGridCoordinatorHandler -> Prop :=
| evolves_refl : evolves self self
| evolves_step self1 req self2 resp :
    evolves self self1 ->
    handle self1 req = Some (self2, resp) ->
    evolves self self2.

(** Each entry of [all_tasks] is filed under its own id, and each queued
    task is the entry of [all_tasks] with its id *)
Definition tasks_wf (gj : _GridJob) : Prop :=
  Forall (fun kv => gt_task_id (snd kv) = fst kv) (all_tasks gj)
  /\ Forall (fun t => task_get (gt_task_id t) (all_tasks gj) = Some t)
            (unassigned_tasks gj).

(** A stored [Job] message: filed under its own id, which passed the checks
    of [add_job], with a positive priority *)
Definition job_ok (k : string) (job : Job) : Prop :=
  job_id job = k
  /\ k <> EmptyString
  /\ valid_chars k = true
  /\ valid_chars (job_friendly_name job) = true
  /\ (0 < priority job)%Z.

Definition is_simple_spec (spec : JobSpec) : bool :=
  match spec with py_command _ | py_function _ => true | _ => false end.

Definition is_stripped_grid_spec (spec : JobSpec) : bool :=
  match spec with py_grid _ [] _ => true | _ => false end.

Definition stored_ok (self : MeadowGridCoordinatorHandler) : Prop :=
  (forall k gj, grid_get k (_grid_jobs self) = Some gj ->
                job_ok k (gj_job gj)
                /\ is_stripped_grid_spec (job_spec (gj_job gj)) = true
                /\ tasks_wf gj)
  /\ (forall k sj, simple_get k (_simple_jobs self) = Some sj ->
                   job_ok k (sj_job sj)
                   /\ is_simple_spec (job_spec (sj_job sj)) = true).

(** The last state a batch of [update_job_states] gives for [jid], if any *)
Fixpoint last_state_for (jid : string) (job_states : list (string * ProcessState))
  : option ProcessState :=
  match job_states with
  | [] => None
  | (k, process_state) :: rest =>
      match last_state_for jid rest with
      | Some later => Some later
      | None => if string_dec jid k then Some process_state else None
      end
  end.

End Coordinator.

(* ================================================================= *)
(** ** Concrete tables, filters and jobs for the examples *)

Module Samples.
Import Reader.

Definition sample_table : MdbTable := mkMdbTable 3 default_TableSchema [] [].
Definition sample_a : MdbColumn := getitem_str sample_table "a".
Definition sample_b : MdbColumn := getitem_str sample_table "b".
Definition sample_filter : MdbBoolColumn :=
  and_ (col_eq sample_a (LInt 1))
       (or_ (between sample_b (LInt 2) (LInt 5)) (isin sample_a [LStr "x"])).

(** [t[t['a'] == 1][t['b'] == 2]] *)
Definition a_is_1 : MdbBoolColumn := col_eq sample_a (LInt 1).
Definition b_is_2 : MdbBoolColumn := col_eq sample_b (LInt 2).
Definition twice_filtered : MdbTable :=
  getitem_rows (getitem_rows sample_table a_is_1) b_is_2.

(** A grid job with tasks 0, 1, 2, sealed; the handler after adding it *)
Definition grid_job_g1 : Coordinator.Job :=
  Coordinator.mkJob "g1" "grid" 1
    (Coordinator.py_grid "f"
       [Coordinator.mkGridTask 0 "a"; Coordinator.mkGridTask 1 "b";
        Coordinator.mkGridTask 2 "c"]
       true).

Definition after_g1 : Coordinator.MeadowGridCoordinatorHandler :=
  fst (Coordinator.add_job Coordinator.init grid_job_g1).

Definition log_g1 : Coordinator.trace :=
  [(Coordinator.AddJob grid_job_g1,
    Ok (Coordinator.AddJobResponse Coordinator.ADDED))].

(** What a worker of g1 sends: first no update, then the state of the task
    it just ran *)
Definition reports_g1 : list (Z * Coordinator.ProcessState) :=
  [(-1, Coordinator.ProcessState_of Coordinator.RUNNING);
   (0, Coordinator.ProcessState_of Coordinator.SUCCEEDED);
   (1, Coordinator.ProcessState_of Coordinator.PYTHON_EXCEPTION)].

(** A second submission of the id g1, with priority 0 *)
Definition resubmitted_g1 : Coordinator.Job :=
  Coordinator.mkJob "g1" "again" 0 (Coordinator.py_command "echo").

(** An open grid job with task 0, and a batch whose third task is negative *)
Definition grid_job_g2 : Coordinator.Job :=
  Coordinator.mkJob "g2" "open" 1
    (Coordinator.py_grid "f" [Coordinator.mkGridTask 0 "a"] false).

Definition after_g2 : Coordinator.MeadowGridCoordinatorHandler :=
  fst (Coordinator.add_job Coordinator.init grid_job_g2).

Definition queued_g2 : Coordinator._GridJob :=
  match Coordinator.grid_get "g2" (Coordinator._grid_jobs after_g2) with
  | Some gj => gj
  | None => Coordinator.mk_GridJob grid_job_g2 [] [] false 0
  end.

Definition batch_pre : list Coordinator.GridTask :=
  [Coordinator.mkGridTask 5 "x"; Coordinator.mkGridTask 0 "dup"].
Definition batch_bad : Coordinator.GridTask := Coordinator.mkGridTask (-3) "y".
Definition batch_post : list Coordinator.GridTask := [Coordinator.mkGridTask 7 "z"].

(** A grid job whose second task has a negative id *)
Definition grid_job_bad : Coordinator.Job :=
  Coordinator.mkJob "g3" "bad" 1
    (Coordinator.py_grid "f"
       [Coordinator.mkGridTask 0 "a"; Coordinator.mkGridTask (-1) "b"] false).

(** A simple job, and the handler holding g1 and j1 *)
Definition simple_job_j1 : Coordinator.Job :=
  Coordinator.mkJob "j1" "simple" 2 (Coordinator.py_command "echo hi").

Definition after_j1 : Coordinator.MeadowGridCoordinatorHandler :=
  fst (Coordinator.add_job after_g1 simple_job_j1).

Definition log_j1 : Coordinator.trace :=
  (log_g1 ++ [(Coordinator.AddJob simple_job_j1,
               Ok (Coordinator.AddJobResponse Coordinator.ADDED))])%list.

(** The open job g2 after a worker took its first task and a late batch,
    which seals the job, brought task 5 and task 0 once more *)
Definition served_g2 : Coordinator.MeadowGridCoordinatorHandler :=
  fst (Coordinator.update_grid_task_state_and_get_next
         after_g2 "g2" (-1) (Coordinator.ProcessState_of Coordinator.RUNNING)).

Definition late_g2 : Coordinator.MeadowGridCoordinatorHandler :=
  fst (Coordinator.add_tasks_to_grid_job served_g2 "g2" batch_pre true).

Definition log_late_g2 : Coordinator.trace :=
  [(Coordinator.AddJob grid_job_g2,
    Ok (Coordinator.AddJobResponse Coordinator.ADDED));
   (Coordinator.UpdateGridTaskStateAndGetNext
      "g2" (-1) (Coordinator.ProcessState_of Coordinator.RUNNING),
    Ok (Coordinator.GridTaskResponse (Coordinator.mkGridTask 0 "a")));
   (Coordinator.AddTasksToGridJob "g2" batch_pre true,
    Ok Coordinator.AddTasksResponse)].

Definition reports_late_g2 : list (Z * Coordinator.ProcessState) :=
  [(0, Coordinator.ProcessState_of Coordinator.SUCCEEDED)].

(** The handler holding g1 and j1 after a worker of g1 has asked for its
    first task *)
Definition busy_g1 : Coordinator.MeadowGridCoordinatorHandler :=
  fst (Coordinator.update_grid_task_state_and_get_next
         after_j1 "g1" (-1) (Coordinator.ProcessState_of Coordinator.RUNNING)).

End Samples.

(* ================================================================= *)
(** ** Properties of the reader *)

Module ReaderProofs.
Import Reader Samples.
Local Open Scope list_scope.

(** *** Negation *)

Lemma valid_comparison_cases op :
  valid_comparison op = true -> In op comparison_ops.
Proof.
  unfold valid_comparison. rewrite existsb_exists.
  intros [x [Hin Heq]]. apply String.eqb_eq in Heq. subst x. exact Hin.
Qed.

Lemma invert_op_involutive op :
  valid_comparison op = true ->
  exists op', invert_op op = Ok op' /\ valid_comparison op' = true
              /\ invert_op op' = Ok op.
Proof.
  intros H. apply valid_comparison_cases in H. simpl in H.
  repeat (destruct H as [H|H]; [subst op; eexists; repeat split; reflexivity|]).
  contradiction.
Qed.

Lemma valid_connective_cases op :
  valid_connective op = true -> op = "AND" \/ op = "OR".
Proof.
  unfold valid_connective. rewrite orb_true_iff, !String.eqb_eq. tauto.
Qed.

Lemma invert_involutive p :
  valid_ops p = true ->
  exists q, invert p = Ok q /\ valid_ops q = true /\ invert q = Ok p.
Proof.
  induction p as [v c op a | sa IHa sb IHb op]; simpl; intros H.
  - destruct (invert_op_involutive op H) as [op' [H1 [H2 H3]]].
    exists (MdbComputedBoolColumnOpArg v c op' a). simpl.
    rewrite H1, H3. simpl. auto.
  - apply andb_true_iff in H. destruct H as [H Hb].
    apply andb_true_iff in H. destruct H as [Hop Ha].
    destruct (IHa Ha) as [qa [Ea [Va Ra]]].
    destruct (IHb Hb) as [qb [Eb [Vb Rb]]].
    rewrite Ea, Eb.
    destruct (valid_connective_cases op Hop); subst op; simpl;
      eexists; (split; [reflexivity|]); simpl;
      rewrite Va, Vb, Ra, Rb; simpl; auto.
Qed.

(** C7.  Negation of a bool column built with the operators of the builder
    succeeds and is an involution: negating the result gives back the
    original tree.  Negating an AND node gives the OR of the negated
    children and conversely; negating a leaf replaces its comparator by the
    inverse one ([=]/[!=], [<]/[>=], [>]/[<=], [BETWEEN]/[NOT BETWEEN],
    [IN]/[NOT IN]) and keeps table, column and argument. *)
Theorem invert_involution_de_morgan (p : MdbBoolColumn) :
  valid_ops p = true ->
  (exists q, invert p = Ok q /\ valid_ops q = true /\ invert q = Ok p)
  /\ (forall a b,
         invert (and_ a b)
         = (na <- invert a ;; nb <- invert b ;; Ok (or_ na nb))
         /\ invert (or_ a b)
            = (na <- invert a ;; nb <- invert b ;; Ok (and_ na nb)))
  /\ (forall v c x,
         let leaf := MdbComputedBoolColumnOpArg v c in
         invert (leaf "=" x) = Ok (leaf "!=" x)
         /\ invert (leaf "!=" x) = Ok (leaf "=" x)
         /\ invert (leaf "<" x) = Ok (leaf ">=" x)
         /\ invert (leaf ">=" x) = Ok (leaf "<" x)
         /\ invert (leaf ">" x) = Ok (leaf "<=" x)
         /\ invert (leaf "<=" x) = Ok (leaf ">" x)
         /\ invert (leaf "BETWEEN" x) = Ok (leaf "NOT BETWEEN" x)
         /\ invert (leaf "NOT BETWEEN" x) = Ok (leaf "BETWEEN" x)
         /\ invert (leaf "IN" x) = Ok (leaf "NOT IN" x)
         /\ invert (leaf "NOT IN" x) = Ok (leaf "IN" x)).
Proof.
  intros H. split; [exact (invert_involutive p H)|].
  split.
  - intros a b. split; reflexivity.
  - intros v c x. cbv zeta. repeat split; reflexivity.
Qed.

Lemma invert_involution_de_morgan_witness :
  valid_ops sample_filter = true
  /\ exists q, invert sample_filter = Ok q /\ valid_ops q = true
               /\ invert q = Ok sample_filter.
Proof.
  split; [reflexivity|].
  apply (invert_involution_de_morgan sample_filter). reflexivity.
Defined.

(** *** Row filters *)

Lemma row_args_app ops ops' : row_args (ops ++ ops') = row_args ops ++ row_args ops'.
Proof.
  induction ops as [|[cs|f] ops IH]; simpl; [reflexivity | exact IH | now rewrite IH].
Qed.

Lemma column_args_app ops ops' :
  column_args (ops ++ ops') = column_args ops ++ column_args ops'.
Proof.
  induction ops as [|[cs|f] ops IH]; simpl; [reflexivity | now rewrite IH | exact IH].
Qed.

Lemma restrict_fields t filters :
  _version_number (restrict t filters) = _version_number t
  /\ _ops (restrict t filters) = _ops t ++ map _SelectRowsOp filters.
Proof.
  unfold restrict. revert t.
  induction filters as [|f filters IH]; intros t; simpl.
  - rewrite app_nil_r. auto.
  - destruct (IH (getitem_rows t f)) as [Hv Ho].
    rewrite Hv, Ho. simpl. rewrite <- app_assoc. auto.
Qed.

Lemma row_args_filters filters : row_args (map _SelectRowsOp filters) = filters.
Proof. induction filters as [|f filters IH]; simpl; [reflexivity | now rewrite IH]. Qed.

Lemma where_clause_version p self self' :
  _version_number self = _version_number self' ->
  _construct_where_clause p self = _construct_where_clause p self'.
Proof.
  intros Hv. induction p as [v c op a | sa IHa sb IHb op]; simpl.
  - unfold where_clause_OpArg. rewrite Hv. reflexivity.
  - rewrite IHa, IHb. reflexivity.
Qed.

(** Whatever filters follow the first one, [where_clause_of] renders the
    first one alone: [t[p1][p2]...[pn]] gets the where clause of [t[p1]]. *)
Lemma where_clause_of_restrict t first rest :
  row_args (_ops t) = [] ->
  where_clause_of (restrict t (first :: rest))
  = _construct_where_clause first t.
Proof.
  intros Hnone. destruct (restrict_fields t (first :: rest)) as [Hv Ho].
  unfold where_clause_of.
  rewrite Ho, row_args_app, Hnone, row_args_filters.
  apply where_clause_version, Hv.
Qed.

(** C1.  On [t[t['a'] == 1][t['b'] == 2]] the loop of [_construct_sql] builds
    the AND node of both filters, whose clause is
    [((T."a" = 1) AND (T."b" = 2))], but the where_clause returned is
    [(T."a" = 1)], the clause of the first filter only. *)
Theorem construct_sql_keeps_first_filter_only :
  row_args (_ops twice_filtered) = [a_is_1; b_is_2]
  /\ _construct_where_clause (conjoin_filters a_is_1 [b_is_2]) twice_filtered
     = Ok ("((" ++ column_ref "a" ++ " = 1) AND (" ++ column_ref "b" ++ " = 2))")%string
  /\ _construct_sql twice_filtered
     = Ok ("SELECT " ++ _table_name_placeholder ++ ".*",
           "(" ++ column_ref "a" ++ " = 1)")%string
  /\ _construct_sql twice_filtered = _construct_sql (getitem_rows sample_table a_is_1).
Proof. repeat split; reflexivity. Qed.

(** *** Projections *)

Lemma project_fields t cs :
  _version_number (project t cs) = _version_number t
  /\ _table_schema (project t cs) = _table_schema t
  /\ _data_list (project t cs) = _data_list t
  /\ _ops (project t cs) = _ops t ++ map _SelectColumnsOp cs.
Proof.
  unfold project. revert t.
  induction cs as [|c cs IH]; intros t; simpl.
  - rewrite app_nil_r. auto.
  - destruct (IH (getitem_columns t c)) as [Hv [Hs [Hd Ho]]].
    rewrite Hv, Hs, Hd, Ho. simpl. rewrite <- app_assoc. auto.
Qed.

Lemma column_args_projections cs : column_args (map _SelectColumnsOp cs) = cs.
Proof. induction cs as [|c cs IH]; simpl; [reflexivity | now rewrite IH]. Qed.

Lemma row_args_projections cs : row_args (map _SelectColumnsOp cs) = [].
Proof. induction cs as [|c cs IH]; simpl; [reflexivity | exact IH]. Qed.

Lemma where_clause_of_ext self self' :
  _version_number self = _version_number self' ->
  row_args (_ops self) = row_args (_ops self') ->
  where_clause_of self = where_clause_of self'.
Proof.
  intros Hv Hr. unfold where_clause_of. rewrite Hr.
  destruct (row_args (_ops self')) as [|first rest]; [reflexivity|].
  apply where_clause_version, Hv.
Qed.

Lemma to_pd_ext {E : Engine} self self' :
  _construct_sql self = _construct_sql self' ->
  _table_schema self = _table_schema self' ->
  _data_list self = _data_list self' ->
  to_pd self = to_pd self'.
Proof. unfold to_pd. intros -> -> ->. reflexivity. Qed.

Lemma not_previously_selected_nil curr next :
  subset_of next curr = true <-> columns_not_previously_selected curr next = [].
Proof.
  unfold subset_of, columns_not_previously_selected.
  induction next as [|a next IH]; simpl; [tauto|].
  destruct (str_in a curr); simpl.
  - exact IH.
  - split; discriminate.
Qed.

Lemma str_in_In a xs : str_in a xs = true <-> In a xs.
Proof.
  unfold str_in. rewrite existsb_exists. split.
  - intros [x [Hin Heq]]. apply String.eqb_eq in Heq. now subst.
  - intros Hin. exists a. split; [exact Hin | apply String.eqb_refl].
Qed.

Lemma not_previously_selected_In curr next a :
  In a (columns_not_previously_selected curr next) <-> In a next /\ ~ In a curr.
Proof.
  unfold columns_not_previously_selected. rewrite filter_In, negb_true_iff.
  rewrite <- (str_in_In a curr). destruct (str_in a curr); intuition congruence.
Qed.

Lemma last_cons {A} (c : A) pre curr : last (c :: pre) curr = last pre c.
Proof.
  revert c curr. induction pre as [|x pre IH]; intros c curr; [reflexivity|].
  change (last (c :: x :: pre) curr) with (last (x :: pre) curr).
  rewrite (IH x curr), (IH x c). reflexivity.
Qed.

Lemma narrow_columns_narrowing curr rest :
  narrowing curr rest = true -> narrow_columns curr rest = Ok (last rest curr).
Proof.
  revert curr. induction rest as [|next rest IH]; intros curr; simpl.
  - reflexivity.
  - intros H. apply andb_true_iff in H. destruct H as [Hs Hn].
    apply not_previously_selected_nil in Hs. rewrite Hs. simpl.
    rewrite (IH next Hn), <- (last_cons next rest curr). reflexivity.
Qed.

Lemma narrow_columns_broadening curr pre next post :
  narrowing curr pre = true ->
  subset_of next (last pre curr) = false ->
  narrow_columns curr (pre ++ next :: post)
  = Raise (ValueError (broadening_message
                         (columns_not_previously_selected (last pre curr) next))).
Proof.
  revert curr. induction pre as [|c pre IH]; intros curr; simpl.
  - intros _ Hs.
    destruct (columns_not_previously_selected curr next) eqn:Hbad.
    + apply not_previously_selected_nil in Hbad. congruence.
    + reflexivity.
  - intros H Hs. apply andb_true_iff in H. destruct H as [Hc Hn].
    apply not_previously_selected_nil in Hc. rewrite Hc.
    change (narrow_columns c (pre ++ next :: post)
            = Raise (ValueError (broadening_message
                       (columns_not_previously_selected (last (c :: pre) curr) next)))).
    change (subset_of next (last (c :: pre) curr) = false) in Hs.
    rewrite last_cons in Hs |- *.
    apply (IH c Hn Hs).
Qed.

Lemma construct_sql_project t first rest :
  column_args (_ops t) = [] ->
  _construct_sql (project t (first :: rest))
  = (cols <- narrow_columns first rest ;;
     w <- where_clause_of t ;;
     Ok (render_columns cols, w)).
Proof.
  intros Hc. destruct (project_fields t (first :: rest)) as [Hv [_ [_ Ho]]].
  assert (Hw : where_clause_of (project t (first :: rest)) = where_clause_of t).
  { apply where_clause_of_ext; [exact Hv|].
    rewrite Ho, row_args_app, row_args_projections. apply app_nil_r. }
  unfold _construct_sql, select_clause_of.
  rewrite Hw, Ho, column_args_app, Hc, column_args_projections.
  change ([] ++ first :: rest) with (first :: rest).
  cbv iota beta.
  destruct (narrow_columns first rest); reflexivity.
Qed.

(** C6.  Let [t] carry no projection yet.  Applying [first] and then the
    column sets of [rest], each a subset of the one before, selects exactly
    the columns of the last set: the select clause is the text [SELECT]
    followed by the columns of the last set, in its order, each written as
    the table name placeholder, a dot and the column name in double quotes,
    separated by a comma and a space; the where clause is the one of [t].
    That is the SQL of applying the last set alone, and the table
    materializes to the same result.
    When the sets narrow up to some point and the next one, [next], has a
    column outside the running set, [_construct_sql] and [to_pd] raise a
    [ValueError] whose message lists exactly the columns of [next] that are
    not in the running set, and there is at least one. *)
Theorem successive_projections (t : MdbTable) (first : list string) :
  column_args (_ops t) = [] ->
  (forall rest,
      narrowing first rest = true ->
      let quoted c :=
        String "034"%char (c ++ String "034"%char EmptyString)%string in
      let selected :=
        ("SELECT "
         ++ String.concat ", "
              (map (fun c => "[!!__to_be_replaced_table_name__!!]." ++ quoted c)
                   (last rest first)))%string in
      select_clause_of (_ops (project t (first :: rest))) = Ok selected
      /\ _construct_sql (project t (first :: rest))
         = (w <- where_clause_of t ;; Ok (selected, w))
      /\ select_clause_of (_ops (project t (first :: rest)))
         = Ok (render_columns (last rest first))
      /\ _construct_sql (project t (first :: rest))
         = _construct_sql (getitem_columns t (last rest first))
      /\ forall E : Engine,
          to_pd (project t (first :: rest))
          = to_pd (getitem_columns t (last rest first)))
  /\ (forall pre next post,
         narrowing first pre = true ->
         subset_of next (last pre first) = false ->
         let bad := columns_not_previously_selected (last pre first) next in
         bad <> []
         /\ (forall a, In a bad <-> In a next /\ ~ In a (last pre first))
         /\ _construct_sql (project t (first :: pre ++ next :: post))
            = Raise (ValueError (broadening_message bad))
         /\ forall E : Engine,
             to_pd (project t (first :: pre ++ next :: post))
             = Raise (ValueError (broadening_message bad))).
Proof.
  intros Hc. split.
  - intros rest Hn quoted selected.
    assert (Hsql : _construct_sql (project t (first :: rest))
                   = _construct_sql (getitem_columns t (last rest first))).
    { rewrite (construct_sql_project t first rest Hc).
      change (getitem_columns t (last rest first))
        with (project t [last rest first]).
      rewrite (construct_sql_project t (last rest first) [] Hc).
      rewrite (narrow_columns_narrowing first rest Hn). reflexivity. }
    assert (Hsel : select_clause_of (_ops (project t (first :: rest)))
                   = Ok (render_columns (last rest first))).
    { destruct (project_fields t (first :: rest)) as [_ [_ [_ Ho]]].
      unfold select_clause_of.
      rewrite Ho, column_args_app, Hc, column_args_projections. simpl.
      rewrite (narrow_columns_narrowing first rest Hn). reflexivity. }
    split; [|split; [|split; [|split]]].
    + rewrite Hsel. reflexivity.
    + rewrite (construct_sql_project t first rest Hc).
      rewrite (narrow_columns_narrowing first rest Hn). reflexivity.
    + exact Hsel.
    + exact Hsql.
    + intros E. apply to_pd_ext; [exact Hsql | |].
      * destruct (project_fields t (first :: rest)) as [_ [-> _]]. reflexivity.
      * destruct (project_fields t (first :: rest)) as [_ [_ [-> _]]]. reflexivity.
  - intros pre next post Hn Hs bad.
    assert (Hsql : _construct_sql (project t (first :: pre ++ next :: post))
                   = Raise (ValueError (broadening_message bad))).
    { rewrite (construct_sql_project t first _ Hc).
      rewrite (narrow_columns_broadening first pre next post Hn Hs). reflexivity. }
    split; [|split; [|split]].
    + intros Hbad. apply not_previously_selected_nil in Hbad. congruence.
    + intros a. apply not_previously_selected_In.
    + exact Hsql.
    + intros E. unfold to_pd. rewrite Hsql. reflexivity.
Qed.

Lemma successive_projections_witness :
  column_args (_ops sample_table) = []
  /\ narrowing ["A"; "B"; "C"] [["B"; "A"]] = true
  /\ _construct_sql (project sample_table [["A"; "B"; "C"]; ["B"; "A"]])
     = Ok (("SELECT [!!__to_be_replaced_table_name__!!]."
              ++ String "034"%char ("B" ++ String "034"%char
                   (", [!!__to_be_replaced_table_name__!!]."
                      ++ String "034"%char
                           ("A" ++ String "034"%char EmptyString))))%string,
           "TRUE")
  /\ subset_of ["A"; "C"] ["A"; "B"] = false
  /\ _construct_sql (project sample_table [["A"; "B"]; ["A"; "C"]])
     = Raise (ValueError
                "Tried to select columns C after already filtering them out").
Proof.
  split; [reflexivity|]. split; [reflexivity|]. split; [|split; [reflexivity|]].
  - exact (proj1 (proj2 (proj1 (successive_projections
                                  sample_table ["A"; "B"; "C"] eq_refl)
                               [["B"; "A"]] eq_refl))).
  - apply (proj2 (successive_projections sample_table ["A"; "B"] eq_refl)
                 [] ["A"; "C"] []); reflexivity.
Defined.

(** *** Materialization and [delete_all] *)

Section Materialize.
Context {E : Engine}.

(** Once the loop meets a [delete_all] entry, what comes after it in the
    reversed list is never looked at. *)
Lemma to_pd_loop_delete_all select_clause where_clause dedup_keys f older_rev :
  forall newer_rev i st,
    to_pd_loop select_clause where_clause dedup_keys i
               (newer_rev ++ mkDataFileEntry "delete_all" f :: older_rev) st
    = to_pd_loop select_clause where_clause dedup_keys i newer_rev st.
Proof.
  induction newer_rev as [|d newer_rev IH]; intros i st.
  - reflexivity.
  - simpl.
    destruct (data_file_type d =? "write")%string.
    { destruct (on_write select_clause where_clause dedup_keys i d st);
        simpl; [apply IH | reflexivity]. }
    destruct (data_file_type d =? "delete")%string.
    { destruct (on_delete d st); simpl; [apply IH | reflexivity]. }
    reflexivity.
Qed.

Lemma construct_sql_with_data_list t data_list :
  _construct_sql (with_data_list t data_list) = _construct_sql t.
Proof.
  unfold _construct_sql.
  rewrite (where_clause_of_ext (with_data_list t data_list) t eq_refl eq_refl).
  reflexivity.
Qed.

(** C2.  Whatever the schema, the deduplication keys and the ops of the
    table, and whatever the segments [older] before a [delete_all] entry
    are, [to_pd] gives what it gives on the segments [newer] after that
    entry alone: it returns the same frame or raises the same exception.
    No segment older than the [delete_all] is read. *)
Theorem delete_all_hides_older_segments
        (t : MdbTable) (older newer : list DataFileEntry) (f : string) :
  to_pd (with_data_list t (older ++ mkDataFileEntry "delete_all" f :: newer))
  = to_pd (with_data_list t newer).
Proof.
  unfold to_pd. rewrite !construct_sql_with_data_list.
  destruct (_construct_sql t) as [[select_clause where_clause]|e]; [|reflexivity].
  simpl. rewrite rev_app_distr. simpl. rewrite <- app_assoc. simpl.
  rewrite to_pd_loop_delete_all. reflexivity.
Qed.

End Materialize.

(** The toy engine on [[W a; W b; delete_all; W c; D d; W e]]: only [c] and
    [e] are read. *)
Example to_pd_toy :
  @to_pd toy_engine
         (with_data_list sample_table
            [mkDataFileEntry "write" "a"; mkDataFileEntry "write" "b";
             mkDataFileEntry "delete_all" EmptyString;
             mkDataFileEntry "write" "c"; mkDataFileEntry "delete" "d";
             mkDataFileEntry "write" "e"])
  = Ok ["c"; "e"]%string.
Proof. reflexivity. Qed.

(** *** [read] *)

Section ReadProofs.
Context {C : TableVersionsClient}.

(** C4.  Reading [table_name] in a userspace other than prod, with [uv] the
    version found in the userspace and [pv] the one found in prod, and the
    userspace version number, if any, not negative.  If neither exists,
    [read] raises a [ValueError].  Otherwise it returns a table without ops
    whose data list is the entries of prod followed by those of the
    userspace (filenames resolved by [prepend_data_dir]), whose version
    number is the larger of the version numbers present, and whose schema is
    read from the schema file of the userspace version if it names one, else
    from that of the prod version, else is the default schema. *)
Theorem read_layers_userspace_on_prod
        (userspace table_name : string) (max_version_number : option Z) :
  let uv := get_current_table_version userspace table_name max_version_number in
  let pv := get_current_table_version prod_userspace_name table_name
                                      max_version_number in
  userspace <> prod_userspace_name ->
  version_ok uv = true ->
  match uv, pv with
  | None, None =>
      exists msg,
        read userspace table_name max_version_number = Raise (ValueError msg)
  | _, _ =>
      exists t,
        read userspace table_name max_version_number = Ok t
        /\ _ops t = []
        /\ _data_list t = entries_of pv ++ entries_of uv
        /\ _version_number t
           = match uv, pv with
             | Some u, Some p => Z.max (version_number p) (version_number u)
             | Some u, None => version_number u
             | None, Some p => version_number p
             | None, None => -1
             end
        /\ _table_schema t
           = match uv, pv with
             | Some {| table_schema_filename := Some f |}, _ =>
                 schema_of_file (Some f)
             | _, Some p => schema_of_file (table_schema_filename p)
             | _, None => default_TableSchema
             end
  end.
Proof.
  intros uv pv Hne Hok. unfold read.
  apply String.eqb_neq in Hne. rewrite Hne.
  fold uv. fold pv.
  destruct uv as [[un [uf|] ud]|], pv as [[pn pf pd]|]; simpl in *;
    try (eexists; repeat split; simpl; try rewrite app_nil_r; try reflexivity).
  all: apply Z.leb_le in Hok; lia.
Qed.

End ReadProofs.

Lemma read_layers_userspace_on_prod_witness :
  exists t,
    @read toy_client "dev" "t" None = Ok t
    /\ _ops t = []
    /\ _data_list t
       = [mkDataFileEntry "write" "/data/w1.parquet";
          mkDataFileEntry "delete_all" EmptyString;
          mkDataFileEntry "write" "/data/w2.parquet"]
    /\ _version_number t = 6
    /\ _table_schema t = mkTableSchema (Some ["k"%string]).
Proof.
  apply (@read_layers_userspace_on_prod toy_client "dev" "t" None).
  - discriminate.
  - reflexivity.
Defined.

End ReaderProofs.

(* ================================================================= *)
(** ** Properties of the coordinator *)

Module CoordinatorProofs.
Import Coordinator.
Local Open Scope list_scope.

(** *** Ordered dicts *)

Section DictLemmas.
Context {K V : Type} (K_eq_dec : forall x y : K, {x = y} + {x <> y}).
Local Abbreviation get := (Py.get (V := V) K_eq_dec).
Local Abbreviation set := (Py.set (V := V) K_eq_dec).
Local Abbreviation mem := (Py.mem (V := V) K_eq_dec).

Lemma get_set_same k v d : get k (set k v d) = Some v.
Proof.
  induction d as [|[k' v'] d IH]; simpl.
  - destruct (K_eq_dec k k); congruence.
  - destruct (K_eq_dec k k') as [->|Hne]; simpl.
    + destruct (K_eq_dec k' k'); congruence.
    + destruct (K_eq_dec k k'); [contradiction | exact IH].
Qed.

Lemma get_set_other k k' v d : k <> k' -> get k' (set k v d) = get k' d.
Proof.
  intros Hne. induction d as [|[k0 v0] d IH]; simpl.
  - destruct (K_eq_dec k' k); [congruence | reflexivity].
  - destruct (K_eq_dec k k0) as [->|Hk]; simpl.
    + destruct (K_eq_dec k' k0); [congruence | reflexivity].
    + destruct (K_eq_dec k' k0); [reflexivity | exact IH].
Qed.

Lemma mem_get k d : mem k d = true <-> exists v, get k d = Some v.
Proof.
  unfold Py.mem. destruct (get k d) as [v|].
  - split; eauto.
  - split; [discriminate | intros [v Hv]; discriminate].
Qed.

Lemma mem_false_get k d : mem k d = false <-> get k d = None.
Proof.
  unfold Py.mem. destruct (get k d); split; congruence.
Qed.

Lemma mem_keys k d : mem k d = true <-> In k (keys d).
Proof.
  unfold Py.mem. induction d as [|[k' v'] d IH]; simpl.
  - split; [discriminate | contradiction].
  - destruct (K_eq_dec k k') as [->|Hne].
    + split; auto.
    + rewrite IH. split; [auto | intros [H|H]; [congruence | exact H]].
Qed.

Lemma keys_set_old k v d : mem k d = true -> keys (set k v d) = keys d.
Proof.
  unfold Py.mem. induction d as [|[k' v'] d IH]; simpl.
  - discriminate.
  - destruct (K_eq_dec k k') as [->|Hne]; simpl; intros H.
    + reflexivity.
    + f_equal. exact (IH H).
Qed.

Lemma keys_set_new k v d : mem k d = false -> keys (set k v d) = keys d ++ [k].
Proof.
  unfold Py.mem. induction d as [|[k' v'] d IH]; simpl.
  - reflexivity.
  - destruct (K_eq_dec k k') as [->|Hne]; simpl; intros H.
    + discriminate.
    + f_equal. exact (IH H).
Qed.

Lemma mem_set k k' v d :
  mem k' (set k v d) = if K_eq_dec k k' then true else mem k' d.
Proof.
  unfold Py.mem. destruct (K_eq_dec k k') as [->|Hne].
  - now rewrite get_set_same.
  - now rewrite get_set_other.
Qed.

End DictLemmas.

(** *** [_add_tasks_to_grid_job] *)

Lemma add_tasks_app gj pre rest :
  _add_tasks_to_grid_job gj (pre ++ rest)
  = match _add_tasks_to_grid_job gj pre with
    | (gj1, Ok _) => _add_tasks_to_grid_job gj1 rest
    | (gj1, Raise e) => (gj1, Raise e)
    end.
Proof.
  revert gj. induction pre as [|t pre IH]; intros gj; simpl.
  - reflexivity.
  - destruct (negb (task_mem (task_id t) (all_tasks gj))); [|apply IH].
    destruct (gj_all_tasks_added gj); [reflexivity|].
    destruct (task_id t <? 0)%Z; [reflexivity | apply IH].
Qed.

(** The helper only appends: to the keys of [all_tasks] and to the queue,
    the same ids in the same order; it leaves the other fields alone. *)
Lemma add_tasks_appends tasks :
  forall gj,
    let gj1 := fst (_add_tasks_to_grid_job gj tasks) in
    exists new_tasks,
      unassigned_tasks gj1 = unassigned_tasks gj ++ new_tasks
      /\ keys (all_tasks gj1) = keys (all_tasks gj) ++ map gt_task_id new_tasks
      /\ (forall k, In k (map gt_task_id new_tasks) ->
                    (0 <= k)%Z /\ ~ In k (keys (all_tasks gj)))
      /\ NoDup (map gt_task_id new_tasks)
      /\ gj_job gj1 = gj_job gj
      /\ gj_all_tasks_added gj1 = gj_all_tasks_added gj
      /\ num_current_grid_workers gj1 = num_current_grid_workers gj
      /\ (snd (_add_tasks_to_grid_job gj tasks) = Ok tt ->
          forall t, In t tasks -> In (task_id t) (keys (all_tasks gj1))).
Proof.
  induction tasks as [|t tasks IH]; intros gj; simpl.
  - exists []. rewrite !app_nil_r. repeat split; auto; try constructor.
    all: simpl; intros; contradiction.
  - destruct (task_mem (task_id t) (all_tasks gj)) eqn:Hmem; simpl.
    + destruct (IH gj) as [new [Hu [Hk [Hnew [Hnd [Hj [Ha [Hn Hin]]]]]]]].
      exists new. repeat split; auto.
      * apply Hnew; assumption.
      * apply Hnew; assumption.
      * intros Hok t' [<-|Ht']; [|apply Hin; assumption].
        rewrite Hk. apply in_or_app. left.
        apply (mem_keys Z.eq_dec). exact Hmem.
    + destruct (gj_all_tasks_added gj) eqn:Hadded; simpl.
      { exists []. rewrite !app_nil_r. repeat split; auto; try constructor;
          simpl; try contradiction; discriminate. }
      destruct (task_id t <? 0)%Z eqn:Hneg; simpl.
      { exists []. rewrite !app_nil_r. repeat split; auto; try constructor;
          simpl; try contradiction; discriminate. }
      set (grid_task := mk_GridTask (task_id t) (pickled_function_arguments t)
                                    (ProcessState_of RUN_REQUESTED)).
      set (gj' := mk_GridJob (gj_job gj)
                             (task_set (task_id t) grid_task (all_tasks gj))
                             (unassigned_tasks gj ++ [grid_task])
                             false
                             (num_current_grid_workers gj)).
      destruct (IH gj') as [new [Hu [Hk [Hnew [Hnd [Hj [Ha [Hn Hin]]]]]]]].
      assert (Hkeys : keys (all_tasks gj') = keys (all_tasks gj) ++ [task_id t]).
      { apply (keys_set_new Z.eq_dec). exact Hmem. }
      exists (grid_task :: new).
      rewrite Hu, Hk, Hkeys. simpl. rewrite <- !app_assoc. simpl.
      repeat split; auto.
      * destruct H as [<-|H]; [apply Z.ltb_ge; exact Hneg | apply Hnew; exact H].
      * destruct H as [<-|H].
        -- intros Hin'. apply (mem_keys Z.eq_dec) in Hin'.
           unfold task_mem in Hmem. congruence.
        -- intros Hin'. apply (proj2 (Hnew k H)). rewrite Hkeys.
           apply in_or_app. left. exact Hin'.
      * constructor; [|exact Hnd].
        intros Hin'. apply (proj2 (Hnew _ Hin')). rewrite Hkeys.
        apply in_or_app. right. left. reflexivity.
      * intros Hok t' [<-|Ht'].
        -- apply in_or_app. right. left. reflexivity.
        -- specialize (Hin Hok t' Ht'). rewrite Hk, Hkeys, <- app_assoc in Hin.
           exact Hin.
Qed.

(** *** The job invariant under each mutation *)

Lemma job_inv_ext returned gj gj' :
  keys (all_tasks gj') = keys (all_tasks gj) ->
  map gt_task_id (unassigned_tasks gj') = map gt_task_id (unassigned_tasks gj) ->
  (0 <= num_current_grid_workers gj')%Z ->
  job_inv returned gj -> job_inv returned gj'.
Proof.
  unfold job_inv. intros -> -> Hn [H1 [H2 [H3 _]]]. auto.
Qed.

Lemma job_inv_add_tasks returned gj tasks :
  job_inv returned gj ->
  job_inv returned (fst (_add_tasks_to_grid_job gj tasks)).
Proof.
  intros [H1 [H2 [H3 H4]]].
  destruct (add_tasks_appends tasks gj)
    as [new [Hu [Hk [Hnew [Hnd [_ [_ [Hn _]]]]]]]].
  unfold job_inv. rewrite Hu, Hk, Hn, map_app, app_assoc, H1.
  repeat split; auto.
  - apply NoDup_app; auto.
    intros a Ha Ha'. exact (proj2 (Hnew a Ha') Ha).
  - intros k Hin. apply in_app_or in Hin. destruct Hin as [Hin|Hin].
    + apply H3, Hin.
    + apply Hnew, Hin.
Qed.

Lemma job_inv_fresh job : job_inv [] (mk_GridJob job [] [] false 0).
Proof.
  unfold job_inv. simpl. repeat split; auto; try constructor; try lia;
    try contradiction.
Qed.

Lemma set_task_state_keys gj tid ps :
  keys (all_tasks (set_task_state gj tid ps)) = keys (all_tasks gj)
  /\ map gt_task_id (unassigned_tasks (set_task_state gj tid ps))
     = map gt_task_id (unassigned_tasks gj)
  /\ num_current_grid_workers (set_task_state gj tid ps)
     = num_current_grid_workers gj.
Proof.
  unfold set_task_state, keys. simpl. rewrite !map_map. repeat split.
  - apply map_ext. intros [k t]. simpl. destruct (Z.eq_dec tid k); reflexivity.
  - apply map_ext. intros t. destruct (Z.eq_dec tid (gt_task_id t)); reflexivity.
Qed.

Lemma job_inv_pop returned gj chosen remaining added n :
  job_inv returned gj ->
  unassigned_tasks gj = chosen :: remaining ->
  (0 <= n)%Z ->
  job_inv (returned ++ [gt_task_id chosen])
          (mk_GridJob (gj_job gj) (all_tasks gj) remaining added n)
  /\ (0 <= gt_task_id chosen)%Z.
Proof.
  unfold job_inv. intros [H1 [H2 [H3 H4]]] Hu Hn. simpl.
  rewrite Hu in H1. simpl in H1. rewrite <- app_assoc. simpl.
  repeat split; auto.
  apply H3. rewrite <- H1. apply in_or_app. right. left. reflexivity.
Qed.

(** *** The handler invariant *)

Lemma returned_tasks_snoc jid tr entry :
  returned_tasks jid (tr ++ [entry]) = returned_tasks jid tr ++ returned_task jid entry.
Proof.
  unfold returned_tasks. rewrite flat_map_app. simpl. now rewrite app_nil_r.
Qed.

(** A call that hands out no task and leaves the handler alone *)
Lemma handler_inv_silent tr self entry :
  (forall jid, returned_task jid entry = []) ->
  handler_inv tr self -> handler_inv (tr ++ [entry]) self.
Proof.
  intros Hsilent [H1 [H2 H3]]. unfold handler_inv.
  split; [|split]; intros jid; intros;
    rewrite ?returned_tasks_snoc, ?Hsilent, ?app_nil_r; auto.
Qed.

(** A call that hands out [out] for job [k] and replaces that job by [gj'] *)
Lemma handler_inv_grid_set tr self entry k gj' out :
  returned_task k entry = out ->
  (forall jid, jid <> k -> returned_task jid entry = []) ->
  grid_mem k (_grid_jobs self) = true ->
  job_inv (returned_tasks k tr ++ out) gj' ->
  handler_inv tr self ->
  handler_inv (tr ++ [entry])
              (mkHandler (grid_set k gj' (_grid_jobs self)) (_simple_jobs self)).
Proof.
  intros Hout Hother Hmem Hinv [H1 [H2 H3]]. unfold handler_inv. simpl.
  unfold grid_get, grid_set, grid_mem in *.
  split; [|split]; intros jid; rewrite ?returned_tasks_snoc.
  - intros gj. destruct (string_dec k jid) as [<-|Hne].
    + rewrite get_set_same. intros [= <-]. rewrite Hout. exact Hinv.
    + rewrite (get_set_other _ _ _ _ _ Hne), Hother, app_nil_r by congruence.
      apply H1.
  - destruct (string_dec k jid) as [<-|Hne].
    + rewrite get_set_same. discriminate.
    + rewrite (get_set_other _ _ _ _ _ Hne), Hother, app_nil_r by congruence.
      apply H2.
  - rewrite mem_set. destruct (string_dec k jid) as [<-|Hne]; auto.
Qed.

Lemma update_job_states_frame job_states :
  forall self,
    _grid_jobs (update_job_states self job_states) = _grid_jobs self
    /\ forall jid,
        simple_mem jid (_simple_jobs (update_job_states self job_states))
        = simple_mem jid (_simple_jobs self).
Proof.
  induction job_states as [|[k ps] rest IH]; intros self; simpl; [auto|].
  destruct (simple_get k (_simple_jobs self)) as [sj|] eqn:Hget; [|apply IH].
  destruct (IH (mkHandler (_grid_jobs self)
                          (simple_set k (mk_SimpleJob (sj_job sj) ps)
                                      (_simple_jobs self)))) as [Hg Hs].
  simpl in *. split; [exact Hg|].
  intros jid. rewrite Hs. unfold simple_mem, simple_set, simple_get in *.
  rewrite mem_set. destruct (string_dec k jid) as [<-|Hne]; [|reflexivity].
  symmetry. apply mem_get. eauto.
Qed.

(** A call that hands out no task and touches the simple jobs only *)
Lemma handler_inv_simple tr self entry simple' :
  (forall jid, returned_task jid entry = []) ->
  (forall jid, grid_mem jid (_grid_jobs self) = true ->
               simple_mem jid simple' = false) ->
  handler_inv tr self ->
  handler_inv (tr ++ [entry]) (mkHandler (_grid_jobs self) simple').
Proof.
  intros Hsilent Hdisj [H1 [H2 H3]]. unfold handler_inv. simpl.
  split; [|split]; intros jid; intros;
    rewrite ?returned_tasks_snoc, ?Hsilent, ?app_nil_r; auto.
Qed.

(** A call that hands out no task and files a new grid job under [k] *)
Lemma handler_inv_grid_new tr self entry k gj' :
  (forall jid, returned_task jid entry = []) ->
  grid_mem k (_grid_jobs self) = false ->
  simple_mem k (_simple_jobs self) = false ->
  job_inv [] gj' ->
  handler_inv tr self ->
  handler_inv (tr ++ [entry])
              (mkHandler (grid_set k gj' (_grid_jobs self)) (_simple_jobs self)).
Proof.
  intros Hsilent Hg Hs Hinv [H1 [H2 H3]]. unfold handler_inv. simpl.
  unfold grid_get, grid_set, grid_mem in *.
  split; [|split]; intros jid;
    rewrite ?returned_tasks_snoc, ?Hsilent, ?app_nil_r.
  - intros gj. destruct (string_dec k jid) as [<-|Hne].
    + rewrite get_set_same. intros [= <-].
      rewrite (H2 k); [exact Hinv | apply mem_false_get; exact Hg].
    + rewrite (get_set_other _ _ _ _ _ Hne). apply H1.
  - destruct (string_dec k jid) as [<-|Hne].
    + rewrite get_set_same. discriminate.
    + rewrite (get_set_other _ _ _ _ _ Hne). apply H2.
  - rewrite mem_set. destruct (string_dec k jid) as [<-|Hne]; auto.
Qed.

(** The outcomes of [update_grid_task_state_and_get_next] *)
Lemma update_grid_task_cases self k tid ps :
  let r := update_grid_task_state_and_get_next self k tid ps in
  r = (self, mkGridTask (-1) EmptyString)
  \/ exists gj,
      grid_get k (_grid_jobs self) = Some gj
      /\ let gj0 := if negb (tid =? -1)%Z then set_task_state gj tid ps else gj in
         (exists chosen remaining,
             unassigned_tasks gj0 = chosen :: remaining
             /\ r = (mkHandler
                       (grid_set k
                          (mk_GridJob (gj_job gj0) (all_tasks gj0) remaining
                                      (gj_all_tasks_added gj0)
                                      (num_current_grid_workers gj0))
                          (_grid_jobs self))
                       (_simple_jobs self),
                     to_GridTask chosen))
         \/ (unassigned_tasks gj0 = []
             /\ r = (mkHandler
                       (grid_set k
                          (mk_GridJob (gj_job gj0) (all_tasks gj0) []
                                      (gj_all_tasks_added gj0)
                                      (Z.max 0 (num_current_grid_workers gj0 - 1)))
                          (_grid_jobs self))
                       (_simple_jobs self),
                     mkGridTask (-1) EmptyString)).
Proof.
  unfold update_grid_task_state_and_get_next.
  destruct (grid_get k (_grid_jobs self)) as [gj|]; [|left; reflexivity].
  destruct (negb (tid =? -1)%Z && negb (task_mem tid (all_tasks gj)));
    [left; reflexivity|].
  right. exists gj. split; [reflexivity|]. cbv zeta.
  destruct (unassigned_tasks (if negb (tid =? -1)%Z
                              then set_task_state gj tid ps else gj))
    as [|chosen remaining].
  - right. split; reflexivity.
  - left. exists chosen, remaining. split; reflexivity.
Qed.

(** The outcomes of [get_next_job] *)
Lemma get_next_job_cases self choice self' job :
  get_next_job self choice = Some (self', job) ->
  self' = self
  \/ (exists k gj,
         grid_get k (_grid_jobs self) = Some gj
         /\ self' = mkHandler
                      (grid_set k
                         (mk_GridJob (gj_job gj) (all_tasks gj) (unassigned_tasks gj)
                                     (gj_all_tasks_added gj)
                                     (num_current_grid_workers gj + 1))
                         (_grid_jobs self))
                      (_simple_jobs self))
  \/ (exists k sj,
         simple_get k (_simple_jobs self) = Some sj
         /\ self' = mkHandler (_grid_jobs self)
                              (simple_set k
                                 (mk_SimpleJob (sj_job sj) (ProcessState_of ASSIGNED))
                                 (_simple_jobs self))).
Proof.
  unfold get_next_job.
  destruct (available_jobs self) as [|a l]; [intros [= <- _]; left; reflexivity|].
  destruct (nth_error (a :: l) choice) as [[k|k]|]; [| |discriminate].
  - destruct (grid_get k (_grid_jobs self)) as [gj|] eqn:Hget; [|discriminate].
    intros [= <- _]. right. left. exists k, gj. split; [exact Hget | reflexivity].
  - destruct (simple_get k (_simple_jobs self)) as [sj|] eqn:Hget; [|discriminate].
    intros [= <- _]. right. right. exists k, sj. split; [exact Hget | reflexivity].
Qed.

Lemma grid_get_mem k grid gj : grid_get k grid = Some gj -> grid_mem k grid = true.
Proof. unfold grid_get, grid_mem. intros H. apply mem_get. eauto. Qed.

Lemma handle_preserves_inv tr self req self' resp :
  handler_inv tr self ->
  handle self req = Some (self', resp) ->
  handler_inv (tr ++ [(req, resp)]) self'.
Proof.
  intros Hinv. destruct req as [job|k tasks added|job_states|choice|k tid ps|ids|k ign];
    simpl.
  - (* AddJob *)
    unfold lift, add_job.
    destruct (job_id job =? EmptyString)%string;
      [intros [= <- <-]; apply handler_inv_silent; auto|].
    destruct (negb (valid_chars (job_id job))
              || negb (valid_chars (job_friendly_name job)));
      [intros [= <- <-]; apply handler_inv_silent; auto|].
    destruct (grid_mem (job_id job) (_grid_jobs self)) eqn:Hg;
      [intros [= <- <-]; apply handler_inv_silent; auto|].
    destruct (simple_mem (job_id job) (_simple_jobs self)) eqn:Hs;
      [intros [= <- <-]; apply handler_inv_silent; auto|].
    simpl. destruct (priority job <=? 0)%Z;
      [intros [= <- <-]; apply handler_inv_silent; auto|].
    assert (Hsimple : forall jid,
               grid_mem jid (_grid_jobs self) = true ->
               simple_mem jid
                 (simple_set (job_id job)
                    (mk_SimpleJob job (ProcessState_of RUN_REQUESTED))
                    (_simple_jobs self)) = false).
    { intros jid Hjid. unfold simple_mem, simple_set. rewrite mem_set.
      destruct (string_dec (job_id job) jid) as [<-|Hne]; [congruence|].
      apply Hinv, Hjid. }
    destruct (job_spec job) as [payload|payload|payload tasks added|].
    + intros [= <- <-]. apply handler_inv_simple; auto.
    + intros [= <- <-]. apply handler_inv_simple; auto.
    + pose proof (job_inv_add_tasks [] (mk_GridJob job [] [] false 0) tasks
                                    (job_inv_fresh job)) as Hnew.
      destruct (_add_tasks_to_grid_job (mk_GridJob job [] [] false 0) tasks)
        as [gj [[]|e]]; simpl in *.
      * intros [= <- <-]. apply handler_inv_grid_new; auto.
      * intros [= <- <-]. apply handler_inv_silent; auto.
    + intros [= <- <-]. apply handler_inv_silent; auto.
  - (* AddTasksToGridJob *)
    unfold lift, add_tasks_to_grid_job.
    destruct (grid_get k (_grid_jobs self)) as [gj|] eqn:Hget;
      [|intros [= <- <-]; apply handler_inv_silent; auto].
    pose proof (job_inv_add_tasks (returned_tasks k tr) gj tasks
                                  (proj1 Hinv k gj Hget)) as Hnew.
    destruct (_add_tasks_to_grid_job gj tasks) as [gj1 [[]|e]]; simpl in *;
      intros [= <- <-];
      apply (handler_inv_grid_set tr self _ k _ []);
      eauto using grid_get_mem; rewrite app_nil_r; [|exact Hnew].
    destruct added; [|exact Hnew].
    apply (job_inv_ext _ gj1); try reflexivity; [apply Hnew | exact Hnew].
  - (* UpdateJobStates *)
    intros [= <- <-].
    destruct (update_job_states_frame job_states self) as [Hg Hs].
    destruct (update_job_states self job_states) as [grid' simple'].
    simpl in *. subst grid'.
    apply handler_inv_simple; auto.
    intros jid Hjid. rewrite Hs. apply Hinv, Hjid.
  - (* GetNextJob *)
    destruct (get_next_job self choice) as [[self1 job]|] eqn:Hnext; [|discriminate].
    intros [= <- <-].
    destruct (get_next_job_cases _ _ _ _ Hnext)
      as [-> | [[k [gj [Hget ->]]] | [k [sj [Hget ->]]]]].
    + apply handler_inv_silent; auto.
    + apply (handler_inv_grid_set tr self _ k _ []);
        eauto using grid_get_mem. rewrite app_nil_r.
      generalize (proj1 Hinv k gj Hget). intros Hj.
      apply (job_inv_ext _ gj); try reflexivity; [|exact Hj].
      simpl. destruct Hj as [_ [_ [_ Hn]]]. lia.
    + apply handler_inv_simple; auto.
      intros jid Hjid. unfold simple_mem, simple_set. rewrite mem_set.
      destruct (string_dec k jid) as [<-|Hne]; [|apply Hinv, Hjid].
      assert (simple_mem k (_simple_jobs self) = true)
        by (apply mem_get; eauto).
      rewrite (proj2 (proj2 Hinv) k Hjid) in H. discriminate.
  - (* UpdateGridTaskStateAndGetNext *)
    intros [= <- <-].
    destruct (update_grid_task_cases self k tid ps)
      as [-> | [gj [Hget [[chosen [remaining [Hu ->]]] | [Hu ->]]]]]; simpl.
    + apply handler_inv_silent; auto.
      intros jid. simpl. rewrite andb_false_r. reflexivity.
    + set (gj0 := if negb (tid =? -1)%Z then set_task_state gj tid ps else gj) in *.
      assert (Hj0 : job_inv (returned_tasks k tr) gj0).
      { generalize (proj1 Hinv k gj Hget).
        subst gj0. destruct (negb (tid =? -1)%Z); [|auto].
        destruct (set_task_state_keys gj tid ps) as [Hk [Hq Hn]].
        intros Hj. apply (job_inv_ext _ gj); auto.
        rewrite Hn. apply Hj. }
      destruct (job_inv_pop _ _ _ _ (gj_all_tasks_added gj0)
                            (num_current_grid_workers gj0) Hj0 Hu)
        as [Hpop Hpos]; [apply Hj0|].
      apply (handler_inv_grid_set tr self _ k _ [gt_task_id chosen]);
        eauto using grid_get_mem.
      * simpl. rewrite String.eqb_refl.
        destruct (gt_task_id chosen =? -1)%Z eqn:Hc; [|reflexivity].
        apply Z.eqb_eq in Hc. lia.
      * intros jid Hne. simpl.
        destruct (String.eqb_spec k jid); [congruence | reflexivity].
    + set (gj0 := if negb (tid =? -1)%Z then set_task_state gj tid ps else gj) in *.
      assert (Hj0 : job_inv (returned_tasks k tr) gj0).
      { generalize (proj1 Hinv k gj Hget).
        subst gj0. destruct (negb (tid =? -1)%Z); [|auto].
        destruct (set_task_state_keys gj tid ps) as [Hk [Hq Hn]].
        intros Hj. apply (job_inv_ext _ gj); auto.
        rewrite Hn. apply Hj. }
      apply (handler_inv_grid_set tr self _ k _ []);
        eauto using grid_get_mem.
      * simpl. rewrite andb_false_r. reflexivity.
      * intros jid _. simpl. rewrite andb_false_r. reflexivity.
      * rewrite app_nil_r. apply (job_inv_ext _ gj0); simpl; auto.
        -- rewrite Hu. reflexivity.
        -- lia.
  - (* GetSimpleJobStates *)
    intros [= <- <-]. apply handler_inv_silent; auto.
  - (* GetGridTaskStates *)
    intros [= <- <-]. apply handler_inv_silent; auto.
Qed.

Lemma handler_inv_init : handler_inv [] init.
Proof.
  unfold handler_inv, init. simpl. repeat split; auto; discriminate.
Qed.

Lemma reachable_inv tr self : reachable tr self -> handler_inv tr self.
Proof.
  induction 1 as [|tr self req self' resp _ IH Hstep].
  - exact handler_inv_init.
  - exact (handle_preserves_inv _ _ _ _ _ IH Hstep).
Qed.

(** *** The worker count *)

(** C8.  In a handler reached from a fresh one by any calls, the worker
    count of every grid job is not negative.  [get_next_job] leaves the
    count of a job as it is or adds one; [update_grid_task_state_and_get_next]
    leaves it as it is or, when it finds the queue of the job empty, sets it
    to [max 0 (count - 1)]. *)
Theorem workers_never_negative tr self jid gj :
  reachable tr self ->
  grid_get jid (_grid_jobs self) = Some gj ->
  (0 <= num_current_grid_workers gj)%Z
  /\ (forall choice self' job gj',
         get_next_job self choice = Some (self', job) ->
         grid_get jid (_grid_jobs self') = Some gj' ->
         num_current_grid_workers gj' = num_current_grid_workers gj
         \/ num_current_grid_workers gj' = (num_current_grid_workers gj + 1)%Z)
  /\ (forall k tid ps gj',
         grid_get jid
           (_grid_jobs (fst (update_grid_task_state_and_get_next self k tid ps)))
         = Some gj' ->
         num_current_grid_workers gj' = num_current_grid_workers gj
         \/ (unassigned_tasks gj' = []
             /\ num_current_grid_workers gj'
                = Z.max 0 (num_current_grid_workers gj - 1))).
Proof.
  intros Hreach Hget. split; [|split].
  - apply (proj1 (reachable_inv _ _ Hreach) jid gj Hget).
  - intros choice self' job gj' Hnext Hget'.
    destruct (get_next_job_cases _ _ _ _ Hnext)
      as [-> | [[k [gjk [Hk ->]]] | [k [sj [Hk ->]]]]]; simpl in Hget'.
    + left. congruence.
    + unfold grid_get, grid_set in *.
      destruct (string_dec k jid) as [<-|Hne].
      * rewrite get_set_same in Hget'. injection Hget' as <-. simpl.
        right. congruence.
      * rewrite (get_set_other _ _ _ _ _ Hne) in Hget'. left. congruence.
    + left. congruence.
  - intros k tid ps gj'.
    destruct (update_grid_task_cases self k tid ps)
      as [-> | [gjk [Hk [[chosen [remaining [Hu ->]]] | [Hu ->]]]]]; simpl;
      intros Hget'.
    + left. congruence.
    + unfold grid_get, grid_set in *.
      destruct (string_dec k jid) as [<-|Hne].
      * rewrite get_set_same in Hget'. injection Hget' as <-. simpl.
        left. assert (gjk = gj) by congruence. subst gjk.
        destruct (negb (tid =? -1)%Z); reflexivity.
      * rewrite (get_set_other _ _ _ _ _ Hne) in Hget'. left. congruence.
    + unfold grid_get, grid_set in *.
      destruct (string_dec k jid) as [<-|Hne].
      * rewrite get_set_same in Hget'. injection Hget' as <-. simpl.
        right. assert (gjk = gj) by congruence. subst gjk.
        split; [reflexivity|].
        destruct (negb (tid =? -1)%Z); reflexivity.
      * rewrite (get_set_other _ _ _ _ _ Hne) in Hget'. left. congruence.
Qed.

Lemma workers_never_negative_witness :
  exists gj,
    grid_get "g1" (_grid_jobs Samples.after_g1) = Some gj
    /\ (0 <= num_current_grid_workers gj)%Z.
Proof.
  eexists. split; [reflexivity|].
  eapply (workers_never_negative Samples.log_g1 Samples.after_g1 "g1").
  - apply (reachable_step [] init (AddJob Samples.grid_job_g1)).
    + exact reachable_init.
    + reflexivity.
  - reflexivity.
Defined.

(** *** Dispatch order *)

Lemma set_task_state_messages gj tid ps :
  map to_GridTask (unassigned_tasks (set_task_state gj tid ps))
  = map to_GridTask (unassigned_tasks gj).
Proof.
  unfold set_task_state. simpl. rewrite map_map. apply map_ext.
  intros t. destruct (Z.eq_dec tid (gt_task_id t)); reflexivity.
Qed.

(** On an empty queue the answer is the no-task answer. *)
Lemma empty_queue_no_task self k gj tid ps :
  grid_get k (_grid_jobs self) = Some gj ->
  unassigned_tasks gj = [] ->
  snd (update_grid_task_state_and_get_next self k tid ps)
  = mkGridTask (-1) EmptyString.
Proof.
  intros Hget Hempty.
  destruct (update_grid_task_cases self k tid ps)
    as [-> | [gjk [Hk [[chosen [remaining [Hu ->]]] | [Hu ->]]]]];
    try reflexivity.
  exfalso. assert (gjk = gj) by congruence. subst gjk.
  assert (Hq : map to_GridTask
                   (unassigned_tasks
                      (if negb (tid =? -1)%Z
                       then set_task_state gj tid ps else gj)) = []).
  { destruct (negb (tid =? -1)%Z).
    - rewrite set_task_state_messages, Hempty. reflexivity.
    - rewrite Hempty. reflexivity. }
  rewrite Hu in Hq. discriminate.
Qed.

Lemma forallb_pointwise {A} (f g : A -> bool) l :
  (forall x, f x = g x) -> forallb f l = forallb g l.
Proof.
  intros Hfg. induction l as [|x l IH]; simpl; [reflexivity|].
  now rewrite Hfg, IH.
Qed.

Lemma known_report_keys gj gj' :
  keys (all_tasks gj') = keys (all_tasks gj) ->
  forall report, known_report gj' report = known_report gj report.
Proof.
  intros Hk [tid ps]. unfold known_report, task_mem. simpl. f_equal.
  destruct (mem Z.eq_dec tid (all_tasks gj)) eqn:Hm.
  - apply (mem_keys Z.eq_dec). rewrite Hk. apply (mem_keys Z.eq_dec), Hm.
  - destruct (mem Z.eq_dec tid (all_tasks gj')) eqn:Hm'; [|reflexivity].
    apply (mem_keys Z.eq_dec) in Hm'. rewrite Hk in Hm'.
    apply (mem_keys Z.eq_dec) in Hm'. congruence.
Qed.

Lemma poll_drains k :
  forall messages reports self gj,
    grid_get k (_grid_jobs self) = Some gj ->
    map to_GridTask (unassigned_tasks gj) = messages ->
    List.length reports = List.length messages ->
    forallb (known_report gj) reports = true ->
    let r := poll reports self k in
    snd r = messages
    /\ exists gj',
        grid_get k (_grid_jobs (fst r)) = Some gj'
        /\ unassigned_tasks gj' = []
        /\ keys (all_tasks gj') = keys (all_tasks gj).
Proof.
  induction messages as [|message messages IH];
    intros [|[tid ps] reports] self gj Hget Hq Hlen Hknown;
    try discriminate; simpl.
  - split; [reflexivity|]. exists gj. repeat split; auto.
    destruct (unassigned_tasks gj); [reflexivity | discriminate].
  - simpl in Hknown. apply andb_true_iff in Hknown.
    destruct Hknown as [Hfirst Hknown]. unfold known_report in Hfirst.
    simpl in Hfirst.
    set (gj0 := if negb (tid =? -1)%Z then set_task_state gj tid ps else gj).
    assert (Hq0 : map to_GridTask (unassigned_tasks gj0) = message :: messages).
    { subst gj0. destruct (negb (tid =? -1)%Z);
        [rewrite set_task_state_messages|]; exact Hq. }
    assert (Hk0 : keys (all_tasks gj0) = keys (all_tasks gj)).
    { subst gj0. destruct (negb (tid =? -1)%Z);
        [apply set_task_state_keys | reflexivity]. }
    destruct (unassigned_tasks gj0) as [|chosen remaining] eqn:Hu0;
      [discriminate|].
    injection Hq0 as Hchosen Hremaining.
    set (gj1 := mk_GridJob (gj_job gj0) (all_tasks gj0) remaining
                           (gj_all_tasks_added gj0)
                           (num_current_grid_workers gj0)).
    set (self1 := mkHandler (grid_set k gj1 (_grid_jobs self)) (_simple_jobs self)).
    assert (Hstep : update_grid_task_state_and_get_next self k tid ps
                    = (self1, message)).
    { unfold update_grid_task_state_and_get_next. rewrite Hget.
      replace (negb (tid =? -1)%Z && negb (task_mem tid (all_tasks gj)))
        with false
        by (destruct (tid =? -1)%Z; simpl in *; [|rewrite Hfirst]; reflexivity).
      fold gj0. rewrite Hu0, <- Hchosen. reflexivity. }
    assert (Hget1 : grid_get k (_grid_jobs self1) = Some gj1).
    { unfold grid_get, grid_set. simpl. apply get_set_same. }
    assert (Hknown1 : forallb (known_report gj1) reports = true).
    { rewrite <- Hknown. apply forallb_pointwise.
      apply known_report_keys. exact Hk0. }
    destruct (IH reports self1 gj1 Hget1 Hremaining
                 (eq_add_S _ _ Hlen) Hknown1)
      as [Hans [gj' [Hg' [Hu' Hk']]]].
    rewrite Hstep. simpl. rewrite Hans.
    split; [reflexivity|]. exists gj'. repeat split; auto.
    rewrite Hk'. exact Hk0.
Qed.

Lemma poll_reachable k :
  forall reports tr self,
    reachable tr self ->
    reachable (tr ++ poll_log k reports (snd (poll reports self k)))
              (fst (poll reports self k)).
Proof.
  induction reports as [|[tid ps] reports IH]; intros tr self Hreach; simpl.
  - rewrite app_nil_r. exact Hreach.
  - set (r := update_grid_task_state_and_get_next self k tid ps).
    unfold poll_log. simpl. fold (poll_log k reports (snd (poll reports (fst r) k))).
    change (tr ++ ?e :: ?l) with (tr ++ [e] ++ l). rewrite app_assoc.
    apply IH. apply (reachable_step tr self _ (fst r) _ Hreach). reflexivity.
Qed.

(** *** [add_job] and the priority *)

(** The handler that already holds the grid job g1 answers a second
    submission of that id with priority 0 by IS_DUPLICATE: the duplicate
    test comes before the priority test. *)
Lemma add_job_duplicate_before_priority :
  reachable Samples.log_g1 Samples.after_g1
  /\ (priority Samples.resubmitted_g1 <= 0)%Z
  /\ add_job Samples.after_g1 Samples.resubmitted_g1
     = (Samples.after_g1, Ok IS_DUPLICATE).
Proof.
  split; [|split].
  - apply (reachable_step [] init (AddJob Samples.grid_job_g1)).
    + exact reachable_init.
    + reflexivity.
  - simpl. lia.
  - reflexivity.
Qed.

(** C5, amended.  A request whose priority is not greater than 0 is never
    answered with ADDED and never changes the handler.  It is answered with
    IS_DUPLICATE only if its job_id is already a key of the grid-job or the
    simple-job map; when the job_id is in neither map the call raises a
    [ValueError]. *)
Theorem add_job_nonpositive_priority self request :
  (priority request <= 0)%Z ->
  let known := grid_mem (job_id request) (_grid_jobs self)
               || simple_mem (job_id request) (_simple_jobs self) in
  fst (add_job self request) = self
  /\ snd (add_job self request) <> Ok ADDED
  /\ (snd (add_job self request) = Ok IS_DUPLICATE -> known = true)
  /\ (known = false ->
      exists msg, snd (add_job self request) = Raise (ValueError msg))
  /\ (known = true ->
      job_id request <> EmptyString ->
      valid_chars (job_id request) = true ->
      valid_chars (job_friendly_name request) = true ->
      snd (add_job self request) = Ok IS_DUPLICATE).
Proof.
  intros Hprio known. subst known. apply Z.leb_le in Hprio. unfold add_job.
  destruct (String.eqb_spec (job_id request) EmptyString) as [Hempty|Hempty].
  { simpl. repeat split; try discriminate; try contradiction. eauto. }
  destruct (valid_chars (job_id request)); simpl;
    [|repeat split; try discriminate; eauto].
  destruct (valid_chars (job_friendly_name request)); simpl;
    [|repeat split; try discriminate; eauto].
  destruct (grid_mem (job_id request) (_grid_jobs self)
            || simple_mem (job_id request) (_simple_jobs self)).
  { simpl. repeat split; try discriminate. }
  rewrite Hprio. simpl. repeat split; try discriminate. eauto.
Qed.

Lemma add_job_nonpositive_priority_witness :
  fst (add_job init (Coordinator.mkJob "j0" "zero" 0 (py_command "echo"))) = init
  /\ exists msg,
      snd (add_job init (Coordinator.mkJob "j0" "zero" 0 (py_command "echo")))
      = Raise (ValueError msg).
Proof.
  assert (Hprio : (priority (Coordinator.mkJob "j0" "zero" 0 (py_command "echo"))
                   <= 0)%Z) by (simpl; lia).
  destruct (add_job_nonpositive_priority init _ Hprio) as [Hsame [_ [_ [Hraise _]]]].
  split; [exact Hsame | apply Hraise; reflexivity].
Defined.

(** *** [add_tasks_to_grid_job] and a failing batch *)

(** C9.  Let the batch be [pre ++ bad :: post], where the helper accepts
    [pre] (turning the job [gj] into [gj1]) and [bad] is a new task that it
    rejects, because its id is negative or because the job is sealed.
    Then the call raises a [ValueError] and the handler keeps [gj1] under
    the job id: every task of [pre] has its id in [all_tasks], the new ones
    among them were appended to [all_tasks] and to the queue, and the job
    is not sealed by the call. *)
Theorem add_tasks_partial_on_error self jid gj gj1 pre bad post sealed :
  grid_get jid (_grid_jobs self) = Some gj ->
  _add_tasks_to_grid_job gj pre = (gj1, Ok tt) ->
  task_mem (task_id bad) (all_tasks gj1) = false ->
  gj_all_tasks_added gj1 = true \/ (task_id bad < 0)%Z ->
  let r := add_tasks_to_grid_job self jid (pre ++ bad :: post) sealed in
  (exists msg, snd r = Raise (ValueError msg))
  /\ fst r = mkHandler (grid_set jid gj1 (_grid_jobs self)) (_simple_jobs self)
  /\ grid_get jid (_grid_jobs (fst r)) = Some gj1
  /\ gj_all_tasks_added gj1 = gj_all_tasks_added gj
  /\ (forall t, In t pre -> In (task_id t) (keys (all_tasks gj1)))
  /\ exists new_tasks,
      unassigned_tasks gj1 = unassigned_tasks gj ++ new_tasks
      /\ keys (all_tasks gj1) = keys (all_tasks gj) ++ map gt_task_id new_tasks
      /\ forall t, In t pre ->
                   ~ In (task_id t) (keys (all_tasks gj)) ->
                   In (task_id t) (map gt_task_id new_tasks).
Proof.
  intros Hget Hpre Hnew Hbad r.
  assert (Hrun : _add_tasks_to_grid_job gj (pre ++ bad :: post)
                 = (gj1, snd (_add_tasks_to_grid_job gj1 [bad]))
                 /\ exists msg,
                     snd (_add_tasks_to_grid_job gj1 [bad]) = Raise (ValueError msg)).
  { rewrite add_tasks_app, Hpre. simpl. rewrite Hnew. simpl.
    destruct (gj_all_tasks_added gj1) eqn:Hsealed; simpl; [eauto|].
    destruct Hbad as [Hbad|Hbad]; [discriminate|].
    apply Z.ltb_lt in Hbad. rewrite Hbad. simpl. eauto. }
  destruct Hrun as [Hrun [msg Hmsg]].
  assert (Hr : r = (mkHandler (grid_set jid gj1 (_grid_jobs self))
                              (_simple_jobs self),
                    Raise (ValueError msg))).
  { unfold r, add_tasks_to_grid_job. rewrite Hget, Hrun, Hmsg. reflexivity. }
  destruct (add_tasks_appends pre gj)
    as [new [Hu [Hk [_ [_ [_ [Ha [_ Hin]]]]]]]].
  rewrite Hpre in Hu, Hk, Ha, Hin. simpl in Hu, Hk, Ha, Hin.
  rewrite Hr. simpl. split; [eauto|]. split; [reflexivity|].
  split; [unfold grid_get, grid_set; apply get_set_same|].
  split; [exact Ha|]. split; [exact (Hin eq_refl)|].
  exists new. split; [exact Hu|]. split; [exact Hk|].
  intros t Ht Hfresh. specialize (Hin eq_refl t Ht). rewrite Hk in Hin.
  apply in_app_or in Hin. destruct Hin as [Hin|Hin]; [contradiction | exact Hin].
Qed.

Lemma add_tasks_partial_on_error_witness :
  let r := add_tasks_to_grid_job
             Samples.after_g2 "g2"
             (Samples.batch_pre ++ Samples.batch_bad :: Samples.batch_post) true in
  (exists msg, snd r = Raise (ValueError msg))
  /\ exists gj1,
      grid_get "g2" (_grid_jobs (fst r)) = Some gj1
      /\ keys (all_tasks gj1) = [0; 5]%Z
      /\ map gt_task_id (unassigned_tasks gj1) = [0; 5]%Z
      /\ gj_all_tasks_added gj1 = false.
Proof.
  intros r.
  destruct (add_tasks_partial_on_error
              Samples.after_g2 "g2" Samples.queued_g2
              (fst (_add_tasks_to_grid_job Samples.queued_g2 Samples.batch_pre))
              Samples.batch_pre Samples.batch_bad Samples.batch_post true
              eq_refl eq_refl eq_refl (or_intror eq_refl))
    as [Hraise [_ [Hget _]]].
  split; [exact Hraise|].
  eexists. split; [exact Hget|]. repeat split; reflexivity.
Defined.

(** *** [get_simple_job_states] *)

(** C10.  In a handler reached from a fresh one, a job id filed as a grid
    job is reported UNKNOWN by [get_simple_job_states], which is also the
    answer for an id in neither map; and the answer of the query is the
    same on two handlers with the same simple-job map, whatever their
    grid-job maps are. *)
Theorem grid_job_reported_unknown tr self jid :
  reachable tr self ->
  grid_mem jid (_grid_jobs self) = true ->
  get_simple_job_states self [jid] = [ProcessState_of UNKNOWN]
  /\ (forall never_added,
         grid_mem never_added (_grid_jobs self) = false ->
         simple_mem never_added (_simple_jobs self) = false ->
         get_simple_job_states self [never_added]
         = get_simple_job_states self [jid])
  /\ (forall other job_ids,
         _simple_jobs other = _simple_jobs self ->
         get_simple_job_states other job_ids
         = get_simple_job_states self job_ids).
Proof.
  intros Hreach Hgrid.
  pose proof (proj2 (proj2 (reachable_inv _ _ Hreach)) jid Hgrid) as Hsimple.
  apply (mem_false_get string_dec) in Hsimple.
  assert (Hunknown : get_simple_job_states self [jid] = [ProcessState_of UNKNOWN]).
  { unfold get_simple_job_states, simple_get. simpl. rewrite Hsimple. reflexivity. }
  split; [exact Hunknown|]. split.
  - intros never_added _ Hs. rewrite Hunknown.
    apply (mem_false_get string_dec) in Hs.
    unfold get_simple_job_states, simple_get. simpl. rewrite Hs. reflexivity.
  - intros other job_ids Heq. unfold get_simple_job_states. rewrite Heq.
    reflexivity.
Qed.

Lemma grid_job_reported_unknown_witness :
  get_simple_job_states Samples.after_g1 ["g1"%string] = [ProcessState_of UNKNOWN].
Proof.
  assert (Hreach : reachable Samples.log_g1 Samples.after_g1).
  { apply (reachable_step [] init (AddJob Samples.grid_job_g1)).
    - exact reachable_init.
    - reflexivity. }
  exact (proj1 (grid_job_reported_unknown
                  Samples.log_g1 Samples.after_g1 "g1" Hreach eq_refl)).
Defined.

End CoordinatorProofs.

(* ================================================================= *)
(** ** More on the coordinator: what the handlers keep and never do *)

Module CoordinatorMore.
Import Coordinator CoordinatorProofs.
Local Open Scope list_scope.

(** *** Mutations of a grid job *)

Lemma job_changes_trans gj gj1 gj2 :
  job_changes gj gj1 -> job_changes gj1 gj2 -> job_changes gj gj2.
Proof.
  intros H1 H2. induction H2 as [|g g1 g2 _ IH Hstep]; [exact H1|].
  eapply changes_more; [exact (IH H1) | exact Hstep].
Qed.

Lemma job_changes_one gj gj' : job_change gj gj' -> job_changes gj gj'.
Proof. intros H. eapply changes_more; [apply changes_none | exact H]. Qed.

Lemma add_tasks_changes tasks :
  forall gj, job_changes gj (fst (_add_tasks_to_grid_job gj tasks)).
Proof.
  induction tasks as [|t tasks IH]; intros gj; simpl; [apply changes_none|].
  destruct (task_mem (task_id t) (all_tasks gj)) eqn:Hmem; simpl; [apply IH|].
  destruct (gj_all_tasks_added gj) eqn:Hsealed; simpl; [apply changes_none|].
  destruct (task_id t <? 0)%Z eqn:Hneg; simpl; [apply changes_none|].
  eapply job_changes_trans; [|apply IH].
  apply job_changes_one.
  pose proof (change_insert gj t Hmem Hsealed (proj1 (Z.ltb_ge _ _) Hneg)) as H.
  cbv zeta in H. rewrite Hsealed in H. exact H.
Qed.

(** *** What an ADDED answer means *)

Lemma add_job_added self request :
  snd (add_job self request) = Ok ADDED ->
  job_id request <> EmptyString
  /\ valid_chars (job_id request) = true
  /\ valid_chars (job_friendly_name request) = true
  /\ grid_mem (job_id request) (_grid_jobs self) = false
  /\ simple_mem (job_id request) (_simple_jobs self) = false
  /\ (0 < priority request)%Z
  /\ ((is_simple_spec (job_spec request) = true
       /\ fst (add_job self request)
          = mkHandler (_grid_jobs self)
                      (simple_set (job_id request)
                         (mk_SimpleJob request (ProcessState_of RUN_REQUESTED))
                         (_simple_jobs self)))
      \/ (exists payload tasks sealed g,
             job_spec request = py_grid payload tasks sealed
             /\ _add_tasks_to_grid_job (mk_GridJob request [] [] false 0) tasks
                = (g, Ok tt)
             /\ fst (add_job self request)
                = mkHandler
                    (grid_set (job_id request)
                       (mk_GridJob (strip_tasks (gj_job g)) (all_tasks g)
                                   (unassigned_tasks g) sealed
                                   (num_current_grid_workers g))
                       (_grid_jobs self))
                    (_simple_jobs self))).
Proof.
  unfold add_job.
  destruct (String.eqb_spec (job_id request) EmptyString) as [Hempty|Hempty];
    [discriminate|].
  destruct (valid_chars (job_id request)); simpl; [|discriminate].
  destruct (valid_chars (job_friendly_name request)); simpl; [|discriminate].
  destruct (grid_mem (job_id request) (_grid_jobs self)); simpl; [discriminate|].
  destruct (simple_mem (job_id request) (_simple_jobs self)); simpl;
    [discriminate|].
  destruct (priority request <=? 0)%Z eqn:Hprio; simpl; [discriminate|].
  apply Z.leb_gt in Hprio.
  destruct (job_spec request) as [payload|payload|payload tasks sealed|] eqn:Hspec;
    simpl.
  - intros _. repeat split; auto.
  - intros _. repeat split; auto.
  - destruct (_add_tasks_to_grid_job (mk_GridJob request [] [] false 0) tasks)
      as [g [[]|e]] eqn:Hadd; simpl; [|discriminate].
    intros _. repeat split; auto.
    right. exists payload, tasks, sealed, g. auto.
  - discriminate.
Qed.

(** *** One call, seen from one key *)

Lemma grid_set_step grids k0 gj0 gj0' k :
  grid_get k0 grids = Some gj0 ->
  job_changes gj0 gj0' ->
  match grid_get k grids with
  | Some gj =>
      exists gj', grid_get k (grid_set k0 gj0' grids) = Some gj'
                  /\ job_changes gj gj'
  | None => grid_get k (grid_set k0 gj0' grids) = None
  end.
Proof.
  intros Hget Hch. unfold grid_get, grid_set in *.
  destruct (string_dec k0 k) as [<-|Hne].
  - rewrite Hget, get_set_same. eauto.
  - rewrite (get_set_other _ _ _ _ _ Hne).
    destruct (get string_dec k grids) as [gj|]; [|reflexivity].
    exists gj. split; [reflexivity | apply changes_none].
Qed.

Lemma grid_same_step grids k :
  match grid_get k grids with
  | Some gj => exists gj', grid_get k grids = Some gj' /\ job_changes gj gj'
  | None => grid_get k grids = None
  end.
Proof.
  destruct (grid_get k grids) as [gj|] eqn:H; [|reflexivity].
  exists gj. split; [reflexivity | apply changes_none].
Qed.

(** A call leaves each grid job in place, changed by the mutations of
    [job_change] only; a key that was free stays free unless the call is the
    [add_job] that files a job under it. *)
Lemma handle_grid_step self req self' resp :
  handle self req = Some (self', resp) ->
  forall k,
    match grid_get k (_grid_jobs self) with
    | Some gj =>
        exists gj', grid_get k (_grid_jobs self') = Some gj'
                    /\ job_changes gj gj'
    | None =>
        grid_get k (_grid_jobs self') = None
        \/ exists job,
            req = AddJob job /\ job_id job = k
            /\ snd (add_job self job) = Ok ADDED
            /\ self' = fst (add_job self job)
    end.
Proof.
  intros Hstep k.
  assert (Hweaken :
            forall s' r,
              match grid_get k (_grid_jobs self) with
              | Some gj =>
                  exists gj', grid_get k (_grid_jobs s') = Some gj'
                              /\ job_changes gj gj'
              | None => grid_get k (_grid_jobs s') = None
              end ->
              match grid_get k (_grid_jobs self) with
              | Some gj =>
                  exists gj', grid_get k (_grid_jobs s') = Some gj'
                              /\ job_changes gj gj'
              | None =>
                  grid_get k (_grid_jobs s') = None
                  \/ exists job,
                      r = AddJob job /\ job_id job = k
                      /\ snd (add_job self job) = Ok ADDED
                      /\ s' = fst (add_job self job)
              end).
  { intros s' r. destruct (grid_get k (_grid_jobs self)); auto. }
  destruct req as [job|k0 tasks sealed|job_states|choice|k0 tid ps|ids|k0 ign];
    simpl in Hstep.
  - (* AddJob *)
    unfold lift in Hstep. injection Hstep as <- <-.
    destruct (snd (add_job self job)) as [[]|e] eqn:Hans.
    + destruct (add_job_added self job Hans)
        as [_ [_ [_ [Hg [_ [_ [[_ Hst] | [pl [ts [sl [g [_ [_ Hst]]]]]]]]]]]]].
      * apply Hweaken. rewrite Hst. simpl. apply grid_same_step.
      * destruct (string_dec (job_id job) k) as [<-|Hne].
        -- apply (mem_false_get string_dec) in Hg.
           unfold grid_get. rewrite Hg.
           right. exists job. auto.
        -- apply Hweaken. rewrite Hst. simpl. unfold grid_get, grid_set.
           rewrite (get_set_other _ _ _ _ _ Hne). apply grid_same_step.
    + assert (Hsame : fst (add_job self job) = self).
      { revert Hans. unfold add_job.
        repeat match goal with
               | |- context [if ?b then _ else _] => destruct b; simpl
               end; try discriminate; auto.
        destruct (job_spec job); simpl; try discriminate; auto.
        destruct (_add_tasks_to_grid_job _ _) as [g [[]|e]]; simpl;
          try discriminate; auto. }
      apply Hweaken. rewrite Hsame. apply grid_same_step.
    + assert (Hsame : fst (add_job self job) = self).
      { revert Hans. unfold add_job.
        repeat match goal with
               | |- context [if ?b then _ else _] => destruct b; simpl
               end; try discriminate; auto.
        destruct (job_spec job); simpl; try discriminate; auto.
        destruct (_add_tasks_to_grid_job _ _) as [g [[]|e']]; simpl;
          try discriminate; auto. }
      apply Hweaken. rewrite Hsame. apply grid_same_step.
  - (* AddTasksToGridJob *)
    unfold lift, add_tasks_to_grid_job in Hstep.
    destruct (grid_get k0 (_grid_jobs self)) as [gj|] eqn:Hget.
    + pose proof (add_tasks_changes tasks gj) as Hch.
      destruct (_add_tasks_to_grid_job gj tasks) as [gj1 [[]|e]];
        simpl in *; injection Hstep as <- <-; apply Hweaken; simpl.
      * apply (grid_set_step _ k0 gj); [exact Hget|].
        destruct sealed; [|exact Hch].
        eapply changes_more; [exact Hch | apply change_seal].
      * apply (grid_set_step _ k0 gj); [exact Hget | exact Hch].
    + simpl in Hstep. injection Hstep as <- <-. apply Hweaken; simpl; apply grid_same_step.
  - (* UpdateJobStates *)
    injection Hstep as <- <-. apply Hweaken.
    rewrite (proj1 (update_job_states_frame job_states self)).
    apply grid_same_step.
  - (* GetNextJob *)
    destruct (get_next_job self choice) as [[self1 job]|] eqn:Hnext;
      [|discriminate].
    injection Hstep as <- <-.
    destruct (get_next_job_cases _ _ _ _ Hnext)
      as [-> | [[k0 [gj [Hget ->]]] | [k0 [sj [Hget ->]]]]];
      apply Hweaken; simpl.
    + apply grid_same_step.
    + apply (grid_set_step _ k0 gj); [exact Hget|].
      apply job_changes_one, change_worker_in.
    + apply grid_same_step.
  - (* UpdateGridTaskStateAndGetNext *)
    injection Hstep as <- <-. apply Hweaken.
    destruct (update_grid_task_cases self k0 tid ps)
      as [-> | [gj [Hget [[chosen [remaining [Hu ->]]] | [Hu ->]]]]]; simpl.
    + apply grid_same_step.
    + apply (grid_set_step _ k0 gj); [exact Hget|].
      eapply changes_more; [|eapply change_pop; exact Hu].
      destruct (negb (tid =? -1)%Z);
        [apply job_changes_one, change_task_state | apply changes_none].
    + apply (grid_set_step _ k0 gj); [exact Hget|].
      eapply changes_more; [|apply change_worker_out; exact Hu].
      destruct (negb (tid =? -1)%Z);
        [apply job_changes_one, change_task_state | apply changes_none].
  - injection Hstep as <- <-. apply Hweaken; simpl; apply grid_same_step.
  - injection Hstep as <- <-. apply Hweaken; simpl; apply grid_same_step.
Qed.

(** *** What no mutation undoes *)

Section MoreDictLemmas.
Context {K V : Type} (K_eq_dec : forall x y : K, {x = y} + {x <> y}).

Lemma set_new (k : K) (v : V) d :
  mem K_eq_dec k d = false -> set K_eq_dec k v d = d ++ [(k, v)].
Proof.
  unfold Py.mem. induction d as [|[k' v'] d IH]; simpl; [reflexivity|].
  destruct (K_eq_dec k k') as [->|Hne]; [discriminate|].
  intros H. now rewrite (IH H).
Qed.

Lemma get_app (k : K) (d e : dict (K := K) (V := V)) :
  get K_eq_dec k (d ++ e)
  = match get K_eq_dec k d with
    | Some v => Some v
    | None => get K_eq_dec k e
    end.
Proof.
  induction d as [|[k' v'] d IH]; simpl; [reflexivity|].
  destruct (K_eq_dec k k'); [reflexivity | exact IH].
Qed.

Lemma set_set_same (k : K) (v : V) d :
  set K_eq_dec k v (set K_eq_dec k v d) = set K_eq_dec k v d.
Proof.
  induction d as [|[k' v'] d IH]; simpl.
  - destruct (K_eq_dec k k); congruence.
  - destruct (K_eq_dec k k') as [->|Hne]; simpl.
    + destruct (K_eq_dec k' k'); congruence.
    + destruct (K_eq_dec k k'); [contradiction | now rewrite IH].
Qed.

Lemma get_In (k : K) (v : V) d : get K_eq_dec k d = Some v -> In (k, v) d.
Proof.
  induction d as [|[k' v'] d IH]; simpl; [discriminate|].
  destruct (K_eq_dec k k') as [->|Hne].
  - intros [= ->]. left. reflexivity.
  - intros H. right. exact (IH H).
Qed.

Lemma In_get_NoDup (k : K) (v : V) d :
  NoDup (keys d) -> In (k, v) d -> get K_eq_dec k d = Some v.
Proof.
  induction d as [|[k' v'] d IH]; simpl; [contradiction|].
  intros Hnd [[= -> ->]|Hin].
  - destruct (K_eq_dec k k); congruence.
  - inversion Hnd as [|x l Hnotin Hnd']; subst.
    destruct (K_eq_dec k k') as [->|Hne].
    + exfalso. apply Hnotin. change (In (fst (k', v)) (map fst d)).
      apply in_map, Hin.
    + exact (IH Hnd' Hin).
Qed.

End MoreDictLemmas.

(** The entry of [tid'] after a state has been written to the task [tid] *)
Lemma task_get_set_task_state gj tid ps tid' :
  task_get tid' (all_tasks (set_task_state gj tid ps))
  = match task_get tid' (all_tasks gj) with
    | Some t => Some (if Z.eq_dec tid tid' then with_state ps t else t)
    | None => None
    end.
Proof.
  unfold task_get, set_task_state. simpl.
  induction (all_tasks gj) as [|[k t] d IH]; simpl; [reflexivity|].
  destruct (Z.eq_dec tid k) as [->|Hne]; simpl.
  - destruct (Z.eq_dec tid' k) as [->|Hne'].
    + destruct (Z.eq_dec k k); congruence.
    + exact IH.
  - destruct (Z.eq_dec tid' k) as [->|Hne'].
    + destruct (Z.eq_dec tid k); congruence.
    + exact IH.
Qed.

Lemma job_change_facts gj gj' :
  job_change gj gj' ->
  gj_job gj' = gj_job gj
  /\ (exists more, keys (all_tasks gj') = keys (all_tasks gj) ++ more)
  /\ (gj_all_tasks_added gj = true ->
      gj_all_tasks_added gj' = true
      /\ keys (all_tasks gj') = keys (all_tasks gj))
  /\ (forall tid t,
         task_get tid (all_tasks gj) = Some t ->
         exists t',
           task_get tid (all_tasks gj') = Some t'
           /\ gt_task_id t' = gt_task_id t
           /\ gt_pickled_function_arguments t'
              = gt_pickled_function_arguments t)
  /\ (tasks_wf gj -> tasks_wf gj').
Proof.
  intros Hch.
  destruct Hch as [gj task_request Hmem Hopen Hpos grid_task | gj | gj
                   | gj tid ps | gj chosen remaining Hu | gj Hu].
  - (* insert *)
    simpl. unfold task_set, task_mem, task_get in *.
    split; [reflexivity|]. split.
    { exists [task_id task_request]. apply keys_set_new. exact Hmem. }
    split; [congruence|]. split.
    { intros tid t Hget.
      destruct (Z.eq_dec (task_id task_request) tid) as [<-|Hne].
      - apply (mem_false_get Z.eq_dec) in Hmem. congruence.
      - rewrite (get_set_other _ _ _ _ _ Hne). eauto. }
    intros [Hfiled Hqueue]. unfold tasks_wf. simpl.
    unfold task_set, task_get. rewrite (set_new _ _ _ _ Hmem).
    split.
    + apply Forall_app. split; [exact Hfiled|].
      constructor; [reflexivity | constructor].
    + apply Forall_app. split.
      * revert Hqueue. apply Forall_impl. intros t Ht.
        unfold task_get in Ht. rewrite get_app, Ht. reflexivity.
      * constructor; [|constructor]. rewrite get_app.
        apply (mem_false_get Z.eq_dec) in Hmem. simpl. rewrite Hmem.
        unfold grid_task. simpl.
        destruct (Z.eq_dec (task_id task_request) (task_id task_request));
          congruence.
  - (* seal *)
    simpl.
    split; [reflexivity|]. split; [exists []; now rewrite app_nil_r|].
    split; [auto|]. split; [eauto|]. auto.
  - (* worker in *)
    simpl.
    split; [reflexivity|]. split; [exists []; now rewrite app_nil_r|].
    split; [auto|]. split; [eauto|]. auto.
  - (* task state *)
    destruct (set_task_state_keys gj tid ps) as [Hk _].
    split; [reflexivity|]. split; [exists []; now rewrite Hk, app_nil_r|].
    split; [auto|]. split.
    { intros tid' t Hget. rewrite task_get_set_task_state, Hget.
      eexists. split; [reflexivity|].
      destruct (Z.eq_dec tid tid'); auto. }
    intros [Hfiled Hqueue]. unfold tasks_wf. split.
    + unfold set_task_state. simpl. apply Forall_map.
      revert Hfiled. apply Forall_impl. intros [k t] Hkt. simpl in *.
      destruct (Z.eq_dec tid k); simpl; exact Hkt.
    + replace (unassigned_tasks (set_task_state gj tid ps))
        with (map (fun t => if Z.eq_dec tid (gt_task_id t)
                            then with_state ps t else t)
                  (unassigned_tasks gj)) by reflexivity.
      apply Forall_map.
      revert Hqueue. apply Forall_impl. intros t Ht.
      assert (Hid : gt_task_id
                      (if Z.eq_dec tid (gt_task_id t)
                       then with_state ps t else t) = gt_task_id t)
        by (destruct (Z.eq_dec tid (gt_task_id t)); reflexivity).
      rewrite Hid, task_get_set_task_state, Ht. reflexivity.
  - (* pop *)
    simpl.
    split; [reflexivity|]. split; [exists []; now rewrite app_nil_r|].
    split; [auto|]. split; [eauto|].
    intros [Hfiled Hqueue]. unfold tasks_wf. simpl. split; [exact Hfiled|].
    rewrite Hu in Hqueue. inversion Hqueue; assumption.
  - (* worker out *)
    simpl.
    split; [reflexivity|]. split; [exists []; now rewrite app_nil_r|].
    split; [auto|]. split; [eauto|].
    intros [Hfiled _]. unfold tasks_wf. simpl. split; [exact Hfiled | constructor].
Qed.

Lemma job_changes_facts gj gj' :
  job_changes gj gj' ->
  gj_job gj' = gj_job gj
  /\ (exists more, keys (all_tasks gj') = keys (all_tasks gj) ++ more)
  /\ (gj_all_tasks_added gj = true ->
      gj_all_tasks_added gj' = true
      /\ keys (all_tasks gj') = keys (all_tasks gj))
  /\ (forall tid t,
         task_get tid (all_tasks gj) = Some t ->
         exists t',
           task_get tid (all_tasks gj') = Some t'
           /\ gt_task_id t' = gt_task_id t
           /\ gt_pickled_function_arguments t'
              = gt_pickled_function_arguments t)
  /\ (tasks_wf gj -> tasks_wf gj').
Proof.
  induction 1 as [gj | gj gj1 gj2 _ IH Hstep].
  - split; [reflexivity|]. split; [exists []; now rewrite app_nil_r|].
    split; [auto|]. split; [eauto|]. auto.
  - destruct IH as [Hj [[more Hk] [Hs [Ht Hw]]]].
    destruct (job_change_facts _ _ Hstep) as [Hj' [[more' Hk'] [Hs' [Ht' Hw']]]].
    split; [congruence|]. split.
    { exists (more ++ more'). rewrite Hk', Hk, app_assoc. reflexivity. }
    split.
    { intros Hsealed. destruct (Hs Hsealed) as [H1 H2].
      destruct (Hs' H1) as [H3 H4]. split; congruence. }
    split.
    { intros tid t Hget. destruct (Ht tid t Hget) as [t1 [Hg1 [Hi1 Ha1]]].
      destruct (Ht' tid t1 Hg1) as [t2 [Hg2 [Hi2 Ha2]]].
      exists t2. repeat split; congruence. }
    auto.
Qed.

(** *** Simple jobs under one call *)

Lemma update_job_states_get job_states :
  forall self k,
    match simple_get k (_simple_jobs self) with
    | Some sj =>
        exists sj',
          simple_get k (_simple_jobs (update_job_states self job_states))
          = Some sj'
          /\ sj_job sj' = sj_job sj
          /\ sj_state sj' = match last_state_for k job_states with
                            | Some process_state => process_state
                            | None => sj_state sj
                            end
    | None =>
        simple_get k (_simple_jobs (update_job_states self job_states)) = None
    end.
Proof.
  induction job_states as [|[k0 ps] rest IH]; intros self k; simpl.
  - destruct (simple_get k (_simple_jobs self)) as [sj|]; eauto.
  - destruct (simple_get k0 (_simple_jobs self)) as [sj0|] eqn:H0.
    + specialize (IH (mkHandler (_grid_jobs self)
                                (simple_set k0 (mk_SimpleJob (sj_job sj0) ps)
                                            (_simple_jobs self))) k).
      simpl in IH. unfold simple_get, simple_set in *.
      destruct (string_dec k0 k) as [<-|Hne].
      * rewrite get_set_same in IH. rewrite H0.
        destruct IH as [sj' [Hg [Hj Hs]]]. exists sj'. simpl in *.
        repeat split; auto. rewrite Hs.
        destruct (last_state_for k0 rest); [reflexivity|].
        destruct (string_dec k0 k0); congruence.
      * rewrite (get_set_other _ _ _ _ _ Hne) in IH.
        destruct (get string_dec k (_simple_jobs self)) as [sj|]; [|exact IH].
        destruct IH as [sj' [Hg [Hj Hs]]]. exists sj'.
        repeat split; auto. rewrite Hs.
        destruct (last_state_for k rest); [reflexivity|].
        destruct (string_dec k k0); congruence.
    + specialize (IH self k).
      destruct (simple_get k (_simple_jobs self)) as [sj|] eqn:Hk; [|exact IH].
      destruct IH as [sj' [Hg [Hj Hs]]]. exists sj'.
      repeat split; auto. rewrite Hs.
      destruct (last_state_for k rest); [reflexivity|].
      destruct (string_dec k k0) as [->|]; congruence.
Qed.

Lemma add_job_not_added self job :
  snd (add_job self job) <> Ok ADDED -> fst (add_job self job) = self.
Proof.
  unfold add_job.
  repeat match goal with
         | |- context [if ?b then _ else _] => destruct b; simpl
         end; auto.
  destruct (job_spec job); simpl; auto; try congruence.
  destruct (_add_tasks_to_grid_job _ _) as [g [[]|e]]; simpl; auto; congruence.
Qed.

Lemma handle_simple_step self req self' resp :
  handle self req = Some (self', resp) ->
  forall k,
    match simple_get k (_simple_jobs self) with
    | Some sj =>
        exists sj', simple_get k (_simple_jobs self') = Some sj'
                    /\ sj_job sj' = sj_job sj
    | None =>
        simple_get k (_simple_jobs self') = None
        \/ exists job,
            req = AddJob job /\ job_id job = k
            /\ snd (add_job self job) = Ok ADDED
            /\ self' = fst (add_job self job)
    end.
Proof.
  intros Hstep k.
  assert (Hsame :
            forall s' r,
              _simple_jobs s' = _simple_jobs self ->
              match simple_get k (_simple_jobs self) with
              | Some sj =>
                  exists sj', simple_get k (_simple_jobs s') = Some sj'
                              /\ sj_job sj' = sj_job sj
              | None =>
                  simple_get k (_simple_jobs s') = None
                  \/ exists job,
                      r = AddJob job /\ job_id job = k
                      /\ snd (add_job self job) = Ok ADDED
                      /\ s' = fst (add_job self job)
              end).
  { intros s' r ->. destruct (simple_get k (_simple_jobs self)) as [sj|]; eauto. }
  destruct req as [job|k0 tasks sealed|job_states|choice|k0 tid ps|ids|k0 ign];
    simpl in Hstep.
  - unfold lift in Hstep. injection Hstep as <- <-.
    destruct (snd (add_job self job)) as [[]|e] eqn:Hans.
    + destruct (add_job_added self job Hans)
        as [_ [_ [_ [_ [Hs [_ [[_ Hst] | [pl [ts [sl [g [_ [_ Hst]]]]]]]]]]]]].
      * unfold simple_mem, simple_get in *.
        destruct (string_dec (job_id job) k) as [<-|Hne].
        -- apply (mem_false_get string_dec) in Hs. rewrite Hs.
           right. exists job. auto.
        -- rewrite Hst. simpl. unfold simple_set.
           rewrite (get_set_other _ _ _ _ _ Hne).
           destruct (get string_dec k (_simple_jobs self)) as [sj|]; eauto.
      * apply Hsame. rewrite Hst. reflexivity.
    + apply Hsame. rewrite add_job_not_added by congruence. reflexivity.
    + apply Hsame. rewrite add_job_not_added by congruence. reflexivity.
  - unfold lift, add_tasks_to_grid_job in Hstep.
    destruct (grid_get k0 (_grid_jobs self)) as [gj|].
    + destruct (_add_tasks_to_grid_job gj tasks) as [gj1 [[]|e]];
        simpl in *; injection Hstep as <- <-; apply Hsame; reflexivity.
    + simpl in Hstep. injection Hstep as <- <-. apply Hsame. reflexivity.
  - injection Hstep as <- <-.
    pose proof (update_job_states_get job_states self k) as H.
    destruct (simple_get k (_simple_jobs self)) as [sj|].
    + destruct H as [sj' [Hg [Hj _]]]. eauto.
    + left. exact H.
  - destruct (get_next_job self choice) as [[self1 job]|] eqn:Hnext;
      [|discriminate].
    injection Hstep as <- <-.
    destruct (get_next_job_cases _ _ _ _ Hnext)
      as [-> | [[k0 [gj [Hget ->]]] | [k0 [sj0 [Hget ->]]]]].
    + apply Hsame. reflexivity.
    + apply Hsame. reflexivity.
    + simpl. unfold simple_get, simple_set in *.
      destruct (string_dec k0 k) as [<-|Hne].
      * rewrite Hget, get_set_same. eauto.
      * rewrite (get_set_other _ _ _ _ _ Hne).
        destruct (get string_dec k (_simple_jobs self)) as [sj|]; eauto.
  - injection Hstep as <- <-.
    destruct (update_grid_task_cases self k0 tid ps)
      as [-> | [gj [Hget [[chosen [remaining [Hu ->]]] | [Hu ->]]]]];
      apply Hsame; reflexivity.
  - injection Hstep as <- <-. apply Hsame. reflexivity.
  - injection Hstep as <- <-. apply Hsame. reflexivity.
Qed.

(** *** Over any number of calls *)

Lemma evolves_grid self self' :
  evolves self self' ->
  forall k gj,
    grid_get k (_grid_jobs self) = Some gj ->
    exists gj', grid_get k (_grid_jobs self') = Some gj' /\ job_changes gj gj'.
Proof.
  induction 1 as [|self1 req self2 resp _ IH Hstep]; intros k gj Hget.
  - exists gj. split; [exact Hget | apply changes_none].
  - destruct (IH k gj Hget) as [gj1 [Hget1 Hch1]].
    pose proof (handle_grid_step _ _ _ _ Hstep k) as H.
    rewrite Hget1 in H. destruct H as [gj2 [Hget2 Hch2]].
    exists gj2. split; [exact Hget2 | eapply job_changes_trans; eassumption].
Qed.

Lemma evolves_simple self self' :
  evolves self self' ->
  forall k sj,
    simple_get k (_simple_jobs self) = Some sj ->
    exists sj', simple_get k (_simple_jobs self') = Some sj'
                /\ sj_job sj' = sj_job sj.
Proof.
  induction 1 as [|self1 req self2 resp _ IH Hstep]; intros k sj Hget.
  - eauto.
  - destruct (IH k sj Hget) as [sj1 [Hget1 Hj1]].
    pose proof (handle_simple_step _ _ _ _ Hstep k) as H.
    rewrite Hget1 in H. destruct H as [sj2 [Hget2 Hj2]].
    exists sj2. split; [exact Hget2 | congruence].
Qed.

(** *** What every reachable handler holds *)

Lemma strip_tasks_grid job payload tasks sealed :
  job_spec job = py_grid payload tasks sealed ->
  strip_tasks job
  = mkJob (job_id job) (job_friendly_name job) (priority job)
          (py_grid payload [] sealed).
Proof. unfold strip_tasks. intros ->. reflexivity. Qed.

Lemma tasks_wf_fresh job : tasks_wf (mk_GridJob job [] [] false 0).
Proof. split; constructor. Qed.

Lemma handle_preserves_stored_ok self req self' resp :
  stored_ok self ->
  handle self req = Some (self', resp) ->
  stored_ok self'.
Proof.
  intros [Hgrid Hsimple] Hstep. split.
  - intros k gj' Hget'.
    pose proof (handle_grid_step _ _ _ _ Hstep k) as H.
    destruct (grid_get k (_grid_jobs self)) as [gj|] eqn:Hget.
    + destruct H as [gj'' [Hget'' Hch]].
      assert (gj'' = gj') by congruence. subst gj''.
      destruct (job_changes_facts _ _ Hch) as [Hj [_ [_ [_ Hwf]]]].
      destruct (Hgrid k gj Hget) as [Hok [Hstripped Hw]].
      rewrite Hj. auto.
    + destruct H as [H | [job [-> [<- [Hans ->]]]]]; [congruence|].
      destruct (add_job_added self job Hans)
        as [Hne [Hv1 [Hv2 [_ [_ [Hprio [[_ Hst] | [pl [ts [sl [g [Hspec [Hadd Hst]]]]]]]]]]]]];
        rewrite Hst in Hget'; simpl in Hget'; [congruence|].
      unfold grid_get, grid_set in Hget'. rewrite get_set_same in Hget'.
      injection Hget' as <-. simpl.
      pose proof (add_tasks_changes ts (mk_GridJob job [] [] false 0)) as Hch.
      rewrite Hadd in Hch. simpl in Hch.
      destruct (job_changes_facts _ _ Hch) as [Hj [_ [_ [_ Hwf]]]].
      simpl in Hj. rewrite Hj, (strip_tasks_grid job pl ts sl Hspec).
      split; [|split].
      * unfold job_ok. simpl. auto.
      * reflexivity.
      * specialize (Hwf (tasks_wf_fresh job)). exact Hwf.
  - intros k sj' Hget'.
    pose proof (handle_simple_step _ _ _ _ Hstep k) as H.
    destruct (simple_get k (_simple_jobs self)) as [sj|] eqn:Hget.
    + destruct H as [sj'' [Hget'' Hj]].
      assert (sj'' = sj') by congruence. subst sj''.
      rewrite Hj. apply (Hsimple k sj Hget).
    + destruct H as [H | [job [-> [<- [Hans ->]]]]]; [congruence|].
      destruct (add_job_added self job Hans)
        as [Hne [Hv1 [Hv2 [_ [_ [Hprio [[Hspec Hst] | [pl [ts [sl [g [_ [_ Hst]]]]]]]]]]]]];
        rewrite Hst in Hget'; simpl in Hget'; [|congruence].
      unfold simple_get, simple_set in Hget'. rewrite get_set_same in Hget'.
      injection Hget' as <-. simpl.
      split; [|exact Hspec]. unfold job_ok. auto.
Qed.

Lemma reachable_stored_ok tr self : reachable tr self -> stored_ok self.
Proof.
  induction 1 as [|tr self req self' resp _ IH Hstep].
  - split; intros k x Hget; discriminate.
  - exact (handle_preserves_stored_ok _ _ _ _ IH Hstep).
Qed.

Section KeysNoDup.
Context {K V : Type} (K_eq_dec : forall x y : K, {x = y} + {x <> y}).

Lemma keys_set_NoDup (k : K) (v : V) d :
  NoDup (keys d) -> NoDup (keys (set K_eq_dec k v d)).
Proof.
  intros Hnd. destruct (mem K_eq_dec k d) eqn:Hmem.
  - rewrite (keys_set_old K_eq_dec _ _ _ Hmem). exact Hnd.
  - rewrite (keys_set_new K_eq_dec _ _ _ Hmem).
    apply NoDup_app; [exact Hnd | constructor; [intros [] | constructor] |].
    intros a Ha [<-|[]]. apply (mem_keys K_eq_dec) in Ha. congruence.
Qed.

End KeysNoDup.

Lemma update_job_states_NoDup job_states :
  forall self,
    NoDup (keys (_simple_jobs self)) ->
    NoDup (keys (_simple_jobs (update_job_states self job_states))).
Proof.
  induction job_states as [|[k ps] rest IH]; intros self Hnd; simpl; [exact Hnd|].
  destruct (simple_get k (_simple_jobs self)) as [sj|]; [|apply IH, Hnd].
  apply IH. simpl. apply keys_set_NoDup, Hnd.
Qed.

Lemma handle_preserves_NoDup self req self' resp :
  NoDup (keys (_grid_jobs self)) /\ NoDup (keys (_simple_jobs self)) ->
  handle self req = Some (self', resp) ->
  NoDup (keys (_grid_jobs self')) /\ NoDup (keys (_simple_jobs self')).
Proof.
  intros [Hg Hs] Hstep.
  destruct req as [job|k0 tasks sealed|job_states|choice|k0 tid ps|ids|k0 ign];
    simpl in Hstep.
  - unfold lift in Hstep. injection Hstep as <- <-.
    destruct (snd (add_job self job)) as [[]|e] eqn:Hans.
    + destruct (add_job_added self job Hans)
        as [_ [_ [_ [_ [_ [_ [[_ Hst] | [pl [ts [sl [g [_ [_ Hst]]]]]]]]]]]]];
        rewrite Hst; simpl; split; auto; apply keys_set_NoDup; assumption.
    + rewrite add_job_not_added by congruence. auto.
    + rewrite add_job_not_added by congruence. auto.
  - unfold lift, add_tasks_to_grid_job in Hstep.
    destruct (grid_get k0 (_grid_jobs self)) as [gj|].
    + destruct (_add_tasks_to_grid_job gj tasks) as [gj1 [[]|e]];
        simpl in *; injection Hstep as <- <-; simpl; split; auto;
        apply keys_set_NoDup; assumption.
    + simpl in Hstep. injection Hstep as <- <-. auto.
  - injection Hstep as <- <-.
    rewrite (proj1 (update_job_states_frame job_states self)).
    split; [exact Hg | apply update_job_states_NoDup, Hs].
  - destruct (get_next_job self choice) as [[self1 job]|] eqn:Hnext;
      [|discriminate].
    injection Hstep as <- <-.
    destruct (get_next_job_cases _ _ _ _ Hnext)
      as [-> | [[k0 [gj [Hget ->]]] | [k0 [sj0 [Hget ->]]]]]; simpl;
      split; auto; apply keys_set_NoDup; assumption.
  - injection Hstep as <- <-.
    destruct (update_grid_task_cases self k0 tid ps)
      as [-> | [gj [Hget [[chosen [remaining [Hu ->]]] | [Hu ->]]]]]; simpl;
      split; auto; apply keys_set_NoDup; assumption.
  - injection Hstep as <- <-. auto.
  - injection Hstep as <- <-. auto.
Qed.

Lemma reachable_NoDup tr self :
  reachable tr self ->
  NoDup (keys (_grid_jobs self)) /\ NoDup (keys (_simple_jobs self)).
Proof.
  induction 1 as [|tr self req self' resp _ IH Hstep].
  - split; constructor.
  - exact (handle_preserves_NoDup _ _ _ _ IH Hstep).
Qed.

(** *** [add_job] *)

(** X1.  Unless it answers ADDED, [add_job] leaves the handler exactly as
    it was: a duplicate, a rejected request and a grid job one of whose
    tasks is refused leave no trace. *)
Theorem add_job_changes_nothing_unless_added self job :
  snd (add_job self job) <> Ok ADDED ->
  fst (add_job self job) = self.
Proof. exact (add_job_not_added self job). Qed.

Lemma add_job_changes_nothing_unless_added_witness :
  fst (add_job Samples.after_g1 Samples.grid_job_bad) = Samples.after_g1
  /\ snd (add_job Samples.after_g1 Samples.grid_job_bad)
     = Raise (ValueError "task_ids cannot be negative").
Proof.
  split; [|reflexivity].
  apply (add_job_changes_nothing_unless_added
           Samples.after_g1 Samples.grid_job_bad).
  discriminate.
Defined.

(** X2.  Once a request has been answered ADDED, every later request with
    the same job_id (and a well-formed friendly name) is answered
    IS_DUPLICATE and changes nothing, whatever its priority and payload and
    whatever requests the handler has served in between. *)
Theorem add_job_again_is_duplicate self job later again :
  snd (add_job self job) = Ok ADDED ->
  evolves (fst (add_job self job)) later ->
  job_id again = job_id job ->
  valid_chars (job_friendly_name again) = true ->
  add_job later again = (later, Ok IS_DUPLICATE).
Proof.
  intros Hans Hlater Hid Hname.
  destruct (add_job_added self job Hans)
    as [Hne [Hv [_ [_ [_ [_ Hst]]]]]].
  assert (Hknown :
            grid_mem (job_id job) (_grid_jobs later)
            || simple_mem (job_id job) (_simple_jobs later)
            = true).
  { destruct Hst as [[_ Hst] | [pl [ts [sl [g [_ [_ Hst]]]]]]].
    - assert (Hget : exists sj,
                 simple_get (job_id job)
                            (_simple_jobs (fst (add_job self job))) = Some sj).
      { rewrite Hst. simpl. eexists. apply get_set_same. }
      destruct Hget as [sj Hget].
      destruct (evolves_simple _ _ Hlater _ _ Hget) as [sj' [Hget' _]].
      assert (Hmem : simple_mem (job_id job) (_simple_jobs later) = true)
        by (apply mem_get; eauto).
      rewrite Hmem. apply orb_true_r.
    - assert (Hget : exists gj,
                 grid_get (job_id job)
                          (_grid_jobs (fst (add_job self job))) = Some gj).
      { rewrite Hst. simpl. eexists. apply get_set_same. }
      destruct Hget as [gj Hget].
      destruct (evolves_grid _ _ Hlater _ _ Hget) as [gj' [Hget' _]].
      rewrite (grid_get_mem _ _ _ Hget'). reflexivity. }
  unfold add_job. rewrite Hid.
  destruct (String.eqb_spec (job_id job) EmptyString); [contradiction|].
  rewrite Hv, Hname. simpl. rewrite Hknown. reflexivity.
Qed.

Lemma add_job_again_is_duplicate_witness :
  evolves Samples.after_g1 Samples.busy_g1
  /\ Samples.busy_g1 <> Samples.after_g1
  /\ add_job Samples.busy_g1 Samples.resubmitted_g1
     = (Samples.busy_g1, Ok IS_DUPLICATE).
Proof.
  assert (Hlater : evolves Samples.after_g1 Samples.busy_g1).
  { apply (evolves_step _ Samples.after_j1
             (UpdateGridTaskStateAndGetNext
                "g1" (-1) (ProcessState_of RUNNING))
             _ (Ok (GridTaskResponse (mkGridTask 0 "a"))));
      [|reflexivity].
    apply (evolves_step _ Samples.after_g1 (AddJob Samples.simple_job_j1)
             _ (Ok (AddJobResponse ADDED)));
      [apply evolves_refl | reflexivity]. }
  split; [exact Hlater|]. split; [discriminate|].
  exact (add_job_again_is_duplicate
           init Samples.grid_job_g1 Samples.busy_g1 Samples.resubmitted_g1
           eq_refl Hlater eq_refl eq_refl).
Defined.

Lemma In_available_simple self k sj :
  In (k, sj) (_simple_jobs self) ->
  state (sj_state sj) = RUN_REQUESTED ->
  In (SimpleRef k) (available_jobs self).
Proof.
  intros Hin Hstate. unfold available_jobs, available_simple_jobs.
  apply in_or_app. right.
  change (SimpleRef k) with ((fun kv : string * _SimpleJob => SimpleRef (fst kv)) (k, sj)).
  apply in_map. apply filter_In. split; [exact Hin|]. simpl. now rewrite Hstate.
Qed.

(** X3.  A request with a non-empty, well-formed and unused job_id, a
    well-formed friendly name, a positive priority and a py_command or
    py_function spec is answered ADDED.  The grid jobs are untouched, the
    state of the new job reads RUN_REQUESTED, the states of the other jobs
    read as before, and the job is a candidate of [get_next_job]. *)
Theorem add_job_accepts_simple_job self job :
  job_id job <> EmptyString ->
  valid_chars (job_id job) = true ->
  valid_chars (job_friendly_name job) = true ->
  grid_mem (job_id job) (_grid_jobs self) = false ->
  simple_mem (job_id job) (_simple_jobs self) = false ->
  (0 < priority job)%Z ->
  is_simple_spec (job_spec job) = true ->
  let self' := fst (add_job self job) in
  snd (add_job self job) = Ok ADDED
  /\ _grid_jobs self' = _grid_jobs self
  /\ get_simple_job_states self' [job_id job] = [ProcessState_of RUN_REQUESTED]
  /\ (forall other,
         other <> job_id job ->
         get_simple_job_states self' [other]
         = get_simple_job_states self [other])
  /\ In (SimpleRef (job_id job)) (available_jobs self').
Proof.
  intros Hne Hv Hname Hg Hs Hprio Hspec self'.
  assert (Hrun : add_job self job
                 = (mkHandler (_grid_jobs self)
                              (simple_set (job_id job)
                                 (mk_SimpleJob job (ProcessState_of RUN_REQUESTED))
                                 (_simple_jobs self)),
                    Ok ADDED)).
  { unfold add_job.
    destruct (String.eqb_spec (job_id job) EmptyString); [contradiction|].
    rewrite Hv, Hname, Hg, Hs. simpl.
    apply Z.leb_gt in Hprio. rewrite Hprio.
    destruct (job_spec job); simpl in Hspec; try discriminate; reflexivity. }
  subst self'. rewrite Hrun. simpl.
  split; [reflexivity|]. split; [reflexivity|].
  unfold get_simple_job_states, simple_get, simple_set. simpl.
  split; [now rewrite get_set_same|]. split.
  - intros other Hother.
    rewrite (get_set_other string_dec _ _ _ _ (not_eq_sym Hother)). reflexivity.
  - apply (In_available_simple _ _
             (mk_SimpleJob job (ProcessState_of RUN_REQUESTED))); [|reflexivity].
    simpl. apply (get_In string_dec), get_set_same.
Qed.

Lemma add_job_accepts_simple_job_witness :
  snd (add_job Samples.after_g1 Samples.simple_job_j1) = Ok ADDED
  /\ get_simple_job_states Samples.after_j1 ["j1"%string]
     = [ProcessState_of RUN_REQUESTED]
  /\ In (SimpleRef "j1") (available_jobs Samples.after_j1).
Proof.
  assert (Hprio : (0 < priority Samples.simple_job_j1)%Z) by (simpl; lia).
  assert (Hne : job_id Samples.simple_job_j1 <> EmptyString) by discriminate.
  destruct (add_job_accepts_simple_job
              Samples.after_g1 Samples.simple_job_j1
              Hne eq_refl eq_refl eq_refl eq_refl Hprio eq_refl)
    as [Hans [_ [Hstate [_ Havail]]]].
  split; [exact Hans|]. split; [exact Hstate | exact Havail].
Defined.

(** *** [_add_tasks_to_grid_job] *)

Lemma add_tasks_ok_iff tasks :
  forall gj,
    snd (_add_tasks_to_grid_job gj tasks) = Ok tt
    <-> Forall (fun t => In (task_id t) (keys (all_tasks gj))
                         \/ (gj_all_tasks_added gj = false
                             /\ (0 <= task_id t)%Z))
               tasks.
Proof.
  induction tasks as [|t tasks IH]; intros gj; simpl.
  - split; [constructor | reflexivity].
  - destruct (task_mem (task_id t) (all_tasks gj)) eqn:Hmem; simpl.
    + rewrite IH. split.
      * intros H. constructor; [|exact H]. left.
        apply (mem_keys Z.eq_dec). exact Hmem.
      * intros H. inversion H; assumption.
    + assert (Hnotin : ~ In (task_id t) (keys (all_tasks gj))).
      { intros Hin. apply (mem_keys Z.eq_dec) in Hin.
        unfold task_mem in Hmem. congruence. }
      destruct (gj_all_tasks_added gj) eqn:Hsealed; simpl.
      { split; [discriminate|]. intros H. inversion H as [|x l [Hx|[Hx _]] _]; subst.
        - contradiction.
        - discriminate. }
      destruct (task_id t <? 0)%Z eqn:Hneg; simpl.
      { split; [discriminate|]. intros H. inversion H as [|x l [Hx|[_ Hx]] _]; subst.
        - contradiction.
        - apply Z.ltb_lt in Hneg. lia. }
      apply Z.ltb_ge in Hneg. rewrite IH. simpl.
      unfold task_set. rewrite (keys_set_new Z.eq_dec _ _ _ Hmem).
      split.
      * intros H. constructor; [right; auto|].
        revert H. apply Forall_impl. intros t' [Hin|Hright]; [|right; exact Hright].
        apply in_app_or in Hin. destruct Hin as [Hin|[<-|[]]]; [left; exact Hin|].
        right. auto.
      * intros H. inversion H as [|x l _ Hrest]; subst.
        revert Hrest. apply Forall_impl. intros t' [Hin|Hright]; [|right; exact Hright].
        left. apply in_or_app. left. exact Hin.
Qed.

(** X4.  The helper accepts a batch exactly when each of its tasks either
    has an id the job already knows or is new on an open job with an id
    that is not negative. *)
Theorem add_tasks_accepted_iff gj tasks :
  snd (_add_tasks_to_grid_job gj tasks) = Ok tt
  <-> Forall (fun t => In (task_id t) (keys (all_tasks gj))
                       \/ (gj_all_tasks_added gj = false
                           /\ (0 <= task_id t)%Z))
             tasks.
Proof. apply add_tasks_ok_iff. Qed.

Lemma add_tasks_entries tasks :
  forall gj,
    Forall (fun kv =>
              In kv (all_tasks gj)
              \/ exists task_request,
                  In task_request tasks
                  /\ kv = (task_id task_request,
                           mk_GridTask (task_id task_request)
                                       (pickled_function_arguments task_request)
                                       (ProcessState_of RUN_REQUESTED)))
           (all_tasks (fst (_add_tasks_to_grid_job gj tasks))).
Proof.
  induction tasks as [|t tasks IH]; intros gj; simpl.
  - apply Forall_forall. auto.
  - assert (Hweaken :
                Forall (fun kv =>
                          In kv (all_tasks gj)
                          \/ exists task_request,
                              (t = task_request \/ In task_request tasks)
                              /\ kv = (task_id task_request,
                                       mk_GridTask (task_id task_request)
                                         (pickled_function_arguments task_request)
                                         (ProcessState_of RUN_REQUESTED)))
                       (all_tasks gj)).
    { apply Forall_forall. auto. }
    destruct (task_mem (task_id t) (all_tasks gj)) eqn:Hmem; simpl.
    + generalize (IH gj). apply Forall_impl.
      intros kv [H|[req [Hin Hkv]]]; [left; exact H|].
      right. exists req. auto.
    + destruct (gj_all_tasks_added gj); simpl; [exact Hweaken|].
      destruct (task_id t <? 0)%Z; simpl; [exact Hweaken|].
      match goal with
      | |- Forall _ (all_tasks (fst (_add_tasks_to_grid_job ?g tasks))) =>
          generalize (IH g)
      end.
      apply Forall_impl. simpl.
      intros kv [H|[req [Hin Hkv]]].
      * unfold task_set in H. rewrite (set_new Z.eq_dec _ _ _ Hmem) in H.
        apply in_app_or in H. destruct H as [H|[<-|[]]]; [left; exact H|].
        right. exists t. auto.
      * right. exists req. auto.
Qed.

(** X5.  A grid job with a non-empty, well-formed and unused job_id, a
    well-formed friendly name, a positive priority and tasks whose ids are
    not negative is answered ADDED whatever [all_tasks_added] it carries:
    the flag is applied only after the tasks are filed.  The stored job has
    the tasks stripped from its [Job] message, the submitted flag, no
    worker, and one task per distinct id of the request, all queued in the
    order filed and in state RUN_REQUESTED. *)
Theorem add_job_accepts_grid_job self job payload tasks sealed :
  job_id job <> EmptyString ->
  valid_chars (job_id job) = true ->
  valid_chars (job_friendly_name job) = true ->
  grid_mem (job_id job) (_grid_jobs self) = false ->
  simple_mem (job_id job) (_simple_jobs self) = false ->
  (0 < priority job)%Z ->
  job_spec job = py_grid payload tasks sealed ->
  Forall (fun t => (0 <= task_id t)%Z) tasks ->
  let self' := fst (add_job self job) in
  snd (add_job self job) = Ok ADDED
  /\ _simple_jobs self' = _simple_jobs self
  /\ exists gj,
      grid_get (job_id job) (_grid_jobs self') = Some gj
      /\ gj_job gj = mkJob (job_id job) (job_friendly_name job) (priority job)
                           (py_grid payload [] sealed)
      /\ gj_all_tasks_added gj = sealed
      /\ num_current_grid_workers gj = 0%Z
      /\ map gt_task_id (unassigned_tasks gj) = keys (all_tasks gj)
      /\ NoDup (keys (all_tasks gj))
      /\ (forall tid, In tid (keys (all_tasks gj))
                      <-> In tid (map task_id tasks))
      /\ Forall (fun t => gt_state t = ProcessState_of RUN_REQUESTED)
                (values (all_tasks gj)).
Proof.
  intros Hne Hv Hname Hg Hs Hprio Hspec Hids self'.
  set (fresh := mk_GridJob job [] [] false 0).
  assert (Hok : snd (_add_tasks_to_grid_job fresh tasks) = Ok tt).
  { apply add_tasks_ok_iff. revert Hids. apply Forall_impl.
    intros t Ht. right. auto. }
  destruct (add_tasks_appends tasks fresh)
    as [new [Hu [Hk [_ [Hnd [Hj [_ [Hn Hin]]]]]]]].
  pose proof (add_tasks_entries tasks fresh) as Hentries.
  destruct (_add_tasks_to_grid_job fresh tasks) as [g r] eqn:Hadd.
  simpl in *. subst r.
  assert (Hrun : add_job self job
                 = (mkHandler
                      (grid_set (job_id job)
                         (mk_GridJob (strip_tasks (gj_job g)) (all_tasks g)
                                     (unassigned_tasks g) sealed
                                     (num_current_grid_workers g))
                         (_grid_jobs self))
                      (_simple_jobs self),
                    Ok ADDED)).
  { unfold add_job.
    destruct (String.eqb_spec (job_id job) EmptyString); [contradiction|].
    rewrite Hv, Hname, Hg, Hs. simpl.
    apply Z.leb_gt in Hprio. rewrite Hprio, Hspec.
    fold fresh. rewrite Hadd. reflexivity. }
  subst self'. rewrite Hrun. simpl.
  split; [reflexivity|]. split; [reflexivity|].
  eexists. split; [unfold grid_get, grid_set; apply get_set_same|]. simpl.
  rewrite Hj, (strip_tasks_grid job payload tasks sealed Hspec).
  split; [reflexivity|]. split; [reflexivity|]. split; [exact Hn|].
  split; [rewrite Hu, Hk; reflexivity|].
  split; [rewrite Hk; exact Hnd|]. split.
  - intros tid. split.
    + intros Hin'. unfold keys in Hin'. apply in_map_iff in Hin'.
      destruct Hin' as [[k t] [<- Hkv]].
      rewrite Forall_forall in Hentries.
      destruct (Hentries _ Hkv) as [[]|[req [Hreq [= -> _]]]].
      simpl. apply in_map, Hreq.
    + intros Hin'. apply in_map_iff in Hin'. destruct Hin' as [t [<- Ht]].
      apply (Hin eq_refl t Ht).
  - apply Forall_forall. intros t Ht. unfold values in Ht.
    apply in_map_iff in Ht. destruct Ht as [[k t'] [<- Hkv]].
    rewrite Forall_forall in Hentries.
    destruct (Hentries _ Hkv) as [[]|[req [_ [= _ ->]]]]. reflexivity.
Qed.

Lemma add_job_accepts_grid_job_witness :
  snd (add_job init Samples.grid_job_g1) = Ok ADDED
  /\ exists gj,
      grid_get "g1" (_grid_jobs Samples.after_g1) = Some gj
      /\ gj_all_tasks_added gj = true
      /\ map gt_task_id (unassigned_tasks gj) = keys (all_tasks gj).
Proof.
  assert (Hprio : (0 < priority Samples.grid_job_g1)%Z) by (simpl; lia).
  assert (Hne : job_id Samples.grid_job_g1 <> EmptyString) by discriminate.
  assert (Hids : Forall (fun t => (0 <= task_id t)%Z)
                        [mkGridTask 0 "a"; mkGridTask 1 "b"; mkGridTask 2 "c"]).
  { repeat constructor; simpl; lia. }
  destruct (add_job_accepts_grid_job
              init Samples.grid_job_g1 "f" _ true
              Hne eq_refl eq_refl eq_refl eq_refl Hprio eq_refl Hids)
    as [Hans [_ [gj [Hget [_ [Hsealed [_ [Hqueue _]]]]]]]].
  split; [exact Hans|]. exists gj. auto.
Defined.

(** *** [add_tasks_to_grid_job] *)

Lemma add_tasks_all_known tasks :
  forall gj,
    Forall (fun t => In (task_id t) (keys (all_tasks gj))) tasks ->
    _add_tasks_to_grid_job gj tasks = (gj, Ok tt).
Proof.
  induction tasks as [|t tasks IH]; intros gj Hknown; simpl; [reflexivity|].
  inversion Hknown as [|x l Hin Hrest]; subst.
  apply (mem_keys Z.eq_dec) in Hin. unfold task_mem. rewrite Hin. simpl.
  apply IH, Hrest.
Qed.

(** X6.  Sending a batch that was accepted a second time is accepted again
    and changes nothing: all of its tasks are duplicates by then. *)
Theorem add_tasks_again_changes_nothing self jid tasks sealed :
  snd (add_tasks_to_grid_job self jid tasks sealed) = Ok tt ->
  add_tasks_to_grid_job
    (fst (add_tasks_to_grid_job self jid tasks sealed)) jid tasks sealed
  = (fst (add_tasks_to_grid_job self jid tasks sealed), Ok tt).
Proof.
  unfold add_tasks_to_grid_job at 1 3 4.
  destruct (grid_get jid (_grid_jobs self)) as [gj|] eqn:Hget; [|discriminate].
  destruct (add_tasks_appends tasks gj) as [new [_ [_ [_ [_ [_ [_ [_ Hin]]]]]]]].
  destruct (_add_tasks_to_grid_job gj tasks) as [gj1 [[]|e]] eqn:Hadd;
    simpl in *; [|discriminate].
  intros _. specialize (Hin eq_refl).
  unfold add_tasks_to_grid_job. simpl.
  unfold grid_get, grid_set. rewrite get_set_same.
  rewrite add_tasks_all_known.
  - destruct sealed; simpl; rewrite set_set_same; reflexivity.
  - apply Forall_forall. intros t Ht. destruct sealed; simpl; apply Hin, Ht.
Qed.

Lemma add_tasks_again_changes_nothing_witness :
  let once := add_tasks_to_grid_job Samples.after_g2 "g2" Samples.batch_pre false in
  snd once = Ok tt
  /\ add_tasks_to_grid_job (fst once) "g2" Samples.batch_pre false
     = (fst once, Ok tt).
Proof.
  intros once. split; [reflexivity|].
  exact (add_tasks_again_changes_nothing
           Samples.after_g2 "g2" Samples.batch_pre false eq_refl).
Defined.

(** *** [update_job_states] and [get_simple_job_states] *)

(** X7.  After [update_job_states], a simple job reads the last state the
    batch gives for its id, or its old state when the batch does not name
    it; an id that is not a simple job still reads UNKNOWN, so updates for
    grid jobs and unknown ids are dropped; and the grid jobs are untouched. *)
Theorem update_job_states_then_query self job_states jid :
  get_simple_job_states (update_job_states self job_states) [jid]
  = [match simple_get jid (_simple_jobs self) with
     | Some sj =>
         match last_state_for jid job_states with
         | Some process_state => process_state
         | None => sj_state sj
         end
     | None => ProcessState_of UNKNOWN
     end]
  /\ _grid_jobs (update_job_states self job_states) = _grid_jobs self.
Proof.
  split; [|apply update_job_states_frame].
  pose proof (update_job_states_get job_states self jid) as H.
  unfold get_simple_job_states. simpl.
  destruct (simple_get jid (_simple_jobs self)) as [sj|].
  - destruct H as [sj' [-> [_ ->]]]. reflexivity.
  - rewrite H. reflexivity.
Qed.

(** *** [get_next_job] *)

Lemma In_available_grid self k :
  In (GridRef k) (available_jobs self) ->
  exists gj,
    In (k, gj) (_grid_jobs self)
    /\ (num_current_grid_workers gj
        < Z.of_nat (List.length (unassigned_tasks gj)))%Z.
Proof.
  unfold available_jobs, available_grid_jobs, available_simple_jobs.
  intros Hin. apply in_app_or in Hin. destruct Hin as [Hin|Hin].
  - apply in_map_iff in Hin. destruct Hin as [[k' gj] [[= ->] Hf]].
    apply filter_In in Hf. destruct Hf as [Hin Hcond]. simpl in Hcond.
    exists gj. split; [exact Hin | apply Z.ltb_lt; exact Hcond].
  - apply in_map_iff in Hin. destruct Hin as [kv [Heq _]]. discriminate.
Qed.

Lemma In_available_simple_inv self k :
  In (SimpleRef k) (available_jobs self) ->
  exists sj,
    In (k, sj) (_simple_jobs self) /\ state (sj_state sj) = RUN_REQUESTED.
Proof.
  unfold available_jobs, available_grid_jobs, available_simple_jobs.
  intros Hin. apply in_app_or in Hin. destruct Hin as [Hin|Hin].
  - apply in_map_iff in Hin. destruct Hin as [kv [Heq _]]. discriminate.
  - apply in_map_iff in Hin. destruct Hin as [[k' sj] [[= ->] Hf]].
    apply filter_In in Hf. destruct Hf as [Hin Hcond]. simpl in Hcond.
    exists sj. split; [exact Hin|].
    destruct (state (sj_state sj)); simpl in Hcond; congruence.
Qed.

(** X8.  In a handler reached from a fresh one, [get_next_job] answers the
    empty [Job] and changes nothing exactly when no job is available.
    Otherwise it hands out the stored [Job] message of an available job,
    which has a positive priority and is filed under its own job_id: either
    a grid job with more queued tasks than workers, whose message carries no
    tasks and whose worker count goes up by one, or a simple job in state
    RUN_REQUESTED, which then reads ASSIGNED and is no longer available. *)
Theorem get_next_job_hands_out_available_job tr self choice self' job :
  reachable tr self ->
  get_next_job self choice = Some (self', job) ->
  (available_jobs self = [] /\ job = empty_Job /\ self' = self)
  \/ (available_jobs self <> []
      /\ (0 < priority job)%Z
      /\ ((exists gj gj',
              grid_get (job_id job) (_grid_jobs self) = Some gj
              /\ gj_job gj = job
              /\ is_stripped_grid_spec (job_spec job) = true
              /\ (num_current_grid_workers gj
                  < Z.of_nat (List.length (unassigned_tasks gj)))%Z
              /\ grid_get (job_id job) (_grid_jobs self') = Some gj'
              /\ num_current_grid_workers gj'
                 = (num_current_grid_workers gj + 1)%Z
              /\ _simple_jobs self' = _simple_jobs self)
          \/ (exists sj,
                 simple_get (job_id job) (_simple_jobs self) = Some sj
                 /\ sj_job sj = job
                 /\ state (sj_state sj) = RUN_REQUESTED
                 /\ get_simple_job_states self' [job_id job]
                    = [ProcessState_of ASSIGNED]
                 /\ ~ In (SimpleRef (job_id job)) (available_jobs self')
                 /\ _grid_jobs self' = _grid_jobs self))).
Proof.
  intros Hreach Hnext.
  destruct (reachable_stored_ok _ _ Hreach) as [Hgrid Hsimple].
  destruct (reachable_NoDup _ _ Hreach) as [Hndg Hnds].
  unfold get_next_job in Hnext.
  destruct (available_jobs self) as [|a l] eqn:Havail.
  { injection Hnext as <- <-. left. auto. }
  right. split; [discriminate|].
  destruct (nth_error (a :: l) choice) as [[k|k]|] eqn:Hnth; [| |discriminate].
  - apply nth_error_In in Hnth. rewrite <- Havail in Hnth.
    destruct (In_available_grid _ _ Hnth) as [gj0 [Hin Hcond]].
    apply (In_get_NoDup string_dec _ _ _ Hndg) in Hin. fold grid_get in Hin.
    rewrite Hin in Hnext. injection Hnext as <- <-.
    destruct (Hgrid k gj0 Hin) as [[Hid [_ [_ [_ Hprio]]]] [Hstripped _]].
    split; [exact Hprio|]. left. rewrite Hid.
    eexists gj0, _. repeat split; auto.
    + simpl. unfold grid_get, grid_set. apply get_set_same.
    + reflexivity.
  - apply nth_error_In in Hnth. rewrite <- Havail in Hnth.
    destruct (In_available_simple_inv _ _ Hnth) as [sj0 [Hin Hstate]].
    apply (In_get_NoDup string_dec _ _ _ Hnds) in Hin. fold simple_get in Hin.
    rewrite Hin in Hnext. injection Hnext as <- <-.
    destruct (Hsimple k sj0 Hin) as [[Hid [_ [_ [_ Hprio]]]] _].
    split; [exact Hprio|]. right. rewrite Hid.
    exists sj0. repeat split; auto.
    + unfold get_simple_job_states, simple_get, simple_set. simpl.
      now rewrite get_set_same.
    + intros Hin'. destruct (In_available_simple_inv _ _ Hin') as [sj1 [Hin1 Hst1]].
      simpl in Hin1.
      apply (In_get_NoDup string_dec) in Hin1;
        [|apply keys_set_NoDup; exact Hnds].
      unfold simple_set in Hin1. rewrite get_set_same in Hin1.
      injection Hin1 as <-. discriminate.
Qed.

Lemma get_next_job_hands_out_available_job_witness :
  exists self',
    get_next_job Samples.after_j1 1 = Some (self', Samples.simple_job_j1)
    /\ get_simple_job_states self' ["j1"%string] = [ProcessState_of ASSIGNED]
    /\ ~ In (SimpleRef "j1") (available_jobs self').
Proof.
  eexists. split; [reflexivity|].
  assert (Hreach : reachable Samples.log_j1 Samples.after_j1).
  { apply (reachable_step Samples.log_g1 Samples.after_g1
                          (AddJob Samples.simple_job_j1)).
    - apply (reachable_step [] init (AddJob Samples.grid_job_g1)).
      + exact reachable_init.
      + reflexivity.
    - reflexivity. }
  destruct (get_next_job_hands_out_available_job
              Samples.log_j1 Samples.after_j1 1 _ _ Hreach eq_refl)
    as [[Habs _] | [_ [_ [[gj [gj' [Habs _]]] | [sj [_ [_ [_ [Hq [Hna _]]]]]]]]]].
  - discriminate.
  - discriminate.
  - split; [exact Hq | exact Hna].
Defined.

(** *** [get_grid_task_states] *)

Lemma existsb_eqb_In tid ignore :
  existsb (Z.eqb tid) ignore = true <-> In tid ignore.
Proof.
  rewrite existsb_exists. split.
  - intros [x [Hin Heq]]. apply Z.eqb_eq in Heq. now subst.
  - intros Hin. exists tid. split; [exact Hin | apply Z.eqb_refl].
Qed.

Lemma task_ids_of_filtered_values (d : dict (K := Z) (V := _GridTask)) keep :
  Forall (fun kv => gt_task_id (snd kv) = fst kv) d ->
  map gt_task_id (filter (fun t => keep (gt_task_id t)) (values d))
  = filter keep (keys d).
Proof.
  induction 1 as [|[k t] d Hkt _ IH]; simpl; [reflexivity|].
  simpl in Hkt. rewrite Hkt.
  destruct (keep k); simpl; [rewrite Hkt|]; now rewrite IH.
Qed.

Lemma grid_task_states_spec tr self jid gj ignore :
  reachable tr self ->
  grid_get jid (_grid_jobs self) = Some gj ->
  exists l,
    get_grid_task_states self jid ignore = Ok l
    /\ map fst l
       = filter (fun tid => negb (existsb (Z.eqb tid) ignore))
                (keys (all_tasks gj))
    /\ forall tid ps,
        In (tid, ps) l
        <-> (~ In tid ignore
             /\ exists t, task_get tid (all_tasks gj) = Some t
                          /\ gt_state t = ps).
Proof.
  intros Hreach Hget.
  destruct (proj1 (reachable_stored_ok _ _ Hreach) jid gj Hget)
    as [_ [_ [Hfiled _]]].
  destruct (proj1 (reachable_inv _ _ Hreach) jid gj Hget) as [_ [Hnd _]].
  unfold get_grid_task_states. rewrite Hget.
  eexists. split; [reflexivity|]. split.
  - rewrite map_map. simpl.
    apply (task_ids_of_filtered_values
             _ (fun tid => negb (existsb (Z.eqb tid) ignore)) Hfiled).
  - intros tid ps. rewrite in_map_iff. split.
    + intros [t [[= <- <-] Hin]]. apply filter_In in Hin.
      destruct Hin as [Hin Hkeep]. apply negb_true_iff in Hkeep.
      split.
      * intros Hign. apply existsb_eqb_In in Hign. congruence.
      * exists t. split; [|reflexivity].
        unfold values in Hin. apply in_map_iff in Hin.
        destruct Hin as [[k t'] [Heq Hkv]]. simpl in Heq. subst t'.
        rewrite Forall_forall in Hfiled. specialize (Hfiled _ Hkv).
        simpl in Hfiled. rewrite Hfiled.
        apply (In_get_NoDup Z.eq_dec _ _ _ Hnd Hkv).
    + intros [Hign [t [Ht <-]]].
      pose proof (get_In Z.eq_dec _ _ _ Ht) as Hkv.
      rewrite Forall_forall in Hfiled. specialize (Hfiled _ Hkv).
      simpl in Hfiled.
      exists t. split; [rewrite Hfiled; reflexivity|].
      apply filter_In. split.
      * unfold values. change t with (snd (tid, t)). apply in_map, Hkv.
      * apply negb_true_iff. rewrite Hfiled.
        destruct (existsb (Z.eqb tid) ignore) eqn:He; [|reflexivity].
        apply existsb_eqb_In in He. contradiction.
Qed.

(** X9.  In a handler reached from a fresh one, [get_grid_task_states]
    raises a [ValueError] for an id that is not a grid job.  For a grid job
    it returns one entry per task whose id is not in the ignore list, in
    the order the tasks were added, each with the state [all_tasks] holds
    for that id. *)
Theorem get_grid_task_states_lists_tasks tr self jid ignore :
  reachable tr self ->
  match grid_get jid (_grid_jobs self) with
  | None =>
      exists msg, get_grid_task_states self jid ignore = Raise (ValueError msg)
  | Some gj =>
      exists l,
        get_grid_task_states self jid ignore = Ok l
        /\ map fst l
           = filter (fun tid => negb (existsb (Z.eqb tid) ignore))
                    (keys (all_tasks gj))
        /\ forall tid ps,
            In (tid, ps) l
            <-> (~ In tid ignore
                 /\ exists t, task_get tid (all_tasks gj) = Some t
                              /\ gt_state t = ps)
  end.
Proof.
  intros Hreach.
  destruct (grid_get jid (_grid_jobs self)) as [gj|] eqn:Hget.
  - exact (grid_task_states_spec tr self jid gj ignore Hreach Hget).
  - unfold get_grid_task_states. rewrite Hget. eauto.
Qed.

Lemma get_grid_task_states_lists_tasks_witness :
  get_grid_task_states Samples.after_g1 "g1" [1%Z]
  = Ok [(0%Z, ProcessState_of RUN_REQUESTED); (2%Z, ProcessState_of RUN_REQUESTED)]
  /\ exists msg,
      get_grid_task_states Samples.after_g1 "nope" [] = Raise (ValueError msg).
Proof.
  assert (Hreach : reachable Samples.log_g1 Samples.after_g1).
  { apply (reachable_step [] init (AddJob Samples.grid_job_g1)).
    - exact reachable_init.
    - reflexivity. }
  split; [reflexivity|].
  exact (get_grid_task_states_lists_tasks
           Samples.log_g1 Samples.after_g1 "nope" [] Hreach).
Defined.

(** X10.  In a handler reached from a fresh one, after a worker reports the
    state [ps] for a task of a grid job, [get_grid_task_states] returns
    [ps], and only [ps], for that task, and for every other task of the job
    what it returned before. *)
Theorem reported_state_is_returned tr self jid gj tid ps :
  reachable tr self ->
  grid_get jid (_grid_jobs self) = Some gj ->
  In tid (keys (all_tasks gj)) ->
  let self' := fst (update_grid_task_state_and_get_next self jid tid ps) in
  exists before after,
    get_grid_task_states self jid [] = Ok before
    /\ get_grid_task_states self' jid [] = Ok after
    /\ map fst after = map fst before
    /\ In (tid, ps) after
    /\ (forall ps', In (tid, ps') after -> ps' = ps)
    /\ (forall tid' ps', tid' <> tid ->
                         (In (tid', ps') after <-> In (tid', ps') before)).
Proof.
  intros Hreach Hget Hin self'.
  assert (Hreach' : reachable
                      (tr ++ [(UpdateGridTaskStateAndGetNext jid tid ps,
                               Ok (GridTaskResponse
                                     (snd (update_grid_task_state_and_get_next
                                             self jid tid ps))))])
                      self').
  { apply (reachable_step tr self _ self' _ Hreach). reflexivity. }
  destruct (proj1 (reachable_inv _ _ Hreach) jid gj Hget) as [_ [_ [Hpos _]]].
  assert (Htid : (tid =? -1)%Z = false).
  { apply Z.eqb_neq. specialize (Hpos tid Hin). lia. }
  assert (Hmem : task_mem tid (all_tasks gj) = true)
    by (apply (mem_keys Z.eq_dec); exact Hin).
  assert (Hget' : exists gj',
             grid_get jid (_grid_jobs self') = Some gj'
             /\ all_tasks gj' = all_tasks (set_task_state gj tid ps)).
  { subst self'. unfold update_grid_task_state_and_get_next.
    rewrite Hget, Htid, Hmem. cbn [negb andb].
    destruct (unassigned_tasks (set_task_state gj tid ps)); cbn [fst _grid_jobs];
      eexists; (split; [unfold grid_get, grid_set; apply get_set_same |]);
      reflexivity. }
  destruct Hget' as [gj' [Hget' Hall]].
  destruct (grid_task_states_spec _ _ _ _ [] Hreach Hget)
    as [before [Hb [Hbk Hbin]]].
  destruct (grid_task_states_spec _ _ _ _ [] Hreach' Hget')
    as [after [Ha [Hak Hain]]].
  exists before, after.
  split; [exact Hb|]. split; [exact Ha|]. split.
  { rewrite Hak, Hbk, Hall.
    now rewrite (proj1 (set_task_state_keys gj tid ps)). }
  assert (Hentry : forall tid' ps',
             In (tid', ps') after
             <-> exists t, task_get tid' (all_tasks gj) = Some t
                           /\ gt_state (if Z.eq_dec tid tid'
                                        then with_state ps t else t) = ps').
  { intros tid' ps'. rewrite Hain, Hall, task_get_set_task_state.
    split.
    - intros [_ [t' [Ht' Hs]]].
      destruct (task_get tid' (all_tasks gj)) as [t|]; [|discriminate].
      injection Ht' as <-. eauto.
    - intros [t [Ht Hs]]. split; [intros []|]. rewrite Ht. eauto. }
  apply (mem_get Z.eq_dec) in Hmem. destruct Hmem as [t0 Ht0].
  fold (task_get tid (all_tasks gj)) in Ht0.
  split; [|split].
  - apply Hentry. exists t0. split; [exact Ht0|].
    destruct (Z.eq_dec tid tid); [reflexivity | congruence].
  - intros ps' Hps'. apply Hentry in Hps'. destruct Hps' as [t [Ht Hs]].
    destruct (Z.eq_dec tid tid); [|congruence]. simpl in Hs. congruence.
  - intros tid' ps' Hne. rewrite Hentry, Hbin.
    destruct (Z.eq_dec tid tid'); [congruence|].
    split.
    + intros [t [Ht Hs]]. split; [intros []|]. eauto.
    + intros [_ H]. exact H.
Qed.

Lemma reported_state_is_returned_witness :
  exists after,
    get_grid_task_states
      (fst (update_grid_task_state_and_get_next
              Samples.after_g1 "g1" 1 (ProcessState_of SUCCEEDED)))
      "g1" []
    = Ok after
    /\ In (1%Z, ProcessState_of SUCCEEDED) after.
Proof.
  assert (Hreach : reachable Samples.log_g1 Samples.after_g1).
  { apply (reachable_step [] init (AddJob Samples.grid_job_g1)).
    - exact reachable_init.
    - reflexivity. }
  assert (Hin : In 1%Z [0; 1; 2]%Z) by (simpl; auto).
  destruct (reported_state_is_returned
              Samples.log_g1 Samples.after_g1 "g1" _ 1 (ProcessState_of SUCCEEDED)
              Hreach eq_refl Hin)
    as [before [after [_ [Ha [_ [Hin' _]]]]]].
  exists after. split; [exact Ha | exact Hin'].
Defined.

(** *** [update_grid_task_state_and_get_next] *)

(** X11.  A call with [task_id = -1] hands out work without touching any
    task state: [get_grid_task_states] answers the same before and after,
    for every job and ignore list.  Popping a task from the queue does not
    change its state. *)
Theorem poll_without_update_keeps_task_states self jid ps other ignore :
  get_grid_task_states
    (fst (update_grid_task_state_and_get_next self jid (-1) ps)) other ignore
  = get_grid_task_states self other ignore.
Proof.
  destruct (update_grid_task_cases self jid (-1) ps)
    as [-> | [gj [Hget [[chosen [remaining [Hu ->]]] | [Hu ->]]]]];
    [reflexivity| |];
    unfold get_grid_task_states; simpl; unfold grid_get, grid_set in *;
    (destruct (string_dec jid other) as [<-|Hne];
     [rewrite get_set_same, Hget; reflexivity
     |rewrite (get_set_other _ _ _ _ _ Hne); reflexivity]).
Qed.

(** X12.  A report for a job the coordinator does not hold, or for a task
    id the job does not know, is answered [task_id = -1] and changes
    nothing, also when the job has tasks queued. *)
Theorem unknown_report_changes_nothing self jid tid ps :
  grid_get jid (_grid_jobs self) = None
  \/ (tid <> (-1)%Z
      /\ exists gj, grid_get jid (_grid_jobs self) = Some gj
                    /\ ~ In tid (keys (all_tasks gj))) ->
  update_grid_task_state_and_get_next self jid tid ps
  = (self, mkGridTask (-1) EmptyString).
Proof.
  unfold update_grid_task_state_and_get_next.
  intros [-> | [Htid [gj [-> Hnotin]]]]; [reflexivity|].
  apply Z.eqb_neq in Htid. rewrite Htid.
  destruct (task_mem tid (all_tasks gj)) eqn:Hmem; [|reflexivity].
  apply (mem_keys Z.eq_dec) in Hmem. contradiction.
Qed.

Lemma unknown_report_changes_nothing_witness :
  update_grid_task_state_and_get_next
    Samples.after_g1 "g1" 7 (ProcessState_of SUCCEEDED)
  = (Samples.after_g1, mkGridTask (-1) EmptyString).
Proof.
  apply unknown_report_changes_nothing. right. split; [discriminate|].
  eexists. split; [reflexivity|]. simpl. intros [H|[H|[H|[]]]]; discriminate.
Defined.

(** X13.  In a handler reached from a fresh one, every task in the queue
    of a grid job is the task that [all_tasks] holds under its id, and
    every task of [all_tasks] is filed under its own id: the queue points
    into [all_tasks]. *)
Theorem queue_holds_the_tasks_of_all_tasks tr self jid gj :
  reachable tr self ->
  grid_get jid (_grid_jobs self) = Some gj ->
  Forall (fun t => task_get (gt_task_id t) (all_tasks gj) = Some t)
         (unassigned_tasks gj)
  /\ Forall (fun kv => gt_task_id (snd kv) = fst kv) (all_tasks gj).
Proof.
  intros Hreach Hget.
  destruct (proj1 (reachable_stored_ok _ _ Hreach) jid gj Hget)
    as [_ [_ [Hfiled Hqueue]]].
  split; assumption.
Qed.

Lemma queue_holds_the_tasks_of_all_tasks_witness :
  exists gj,
    grid_get "g1" (_grid_jobs Samples.after_g1) = Some gj
    /\ Forall (fun t => task_get (gt_task_id t) (all_tasks gj) = Some t)
              (unassigned_tasks gj).
Proof.
  assert (Hreach : reachable Samples.log_g1 Samples.after_g1).
  { apply (reachable_step [] init (AddJob Samples.grid_job_g1)).
    - exact reachable_init.
    - reflexivity. }
  eexists. split; [reflexivity|].
  exact (proj1 (queue_holds_the_tasks_of_all_tasks
                  Samples.log_g1 Samples.after_g1 "g1" _ Hreach eq_refl)).
Defined.

(** *** Over any number of calls *)

(** X14.  Whatever calls are made, a stored job is never dropped and its
    [Job] message never changes.  The tasks of a grid job are never
    dropped either: the ids of [all_tasks] only grow at the end, and each
    task keeps its id and its pickled arguments. *)
Theorem jobs_and_tasks_are_kept self self' :
  evolves self self' ->
  (forall k gj,
      grid_get k (_grid_jobs self) = Some gj ->
      exists gj',
        grid_get k (_grid_jobs self') = Some gj'
        /\ gj_job gj' = gj_job gj
        /\ (exists more,
               keys (all_tasks gj') = keys (all_tasks gj) ++ more)
        /\ forall tid t,
            task_get tid (all_tasks gj) = Some t ->
            exists t',
              task_get tid (all_tasks gj') = Some t'
              /\ gt_task_id t' = gt_task_id t
              /\ gt_pickled_function_arguments t'
                 = gt_pickled_function_arguments t)
  /\ (forall k sj,
         simple_get k (_simple_jobs self) = Some sj ->
         exists sj',
           simple_get k (_simple_jobs self') = Some sj'
           /\ sj_job sj' = sj_job sj).
Proof.
  intros Hev. split.
  - intros k gj Hget.
    destruct (evolves_grid _ _ Hev k gj Hget) as [gj' [Hget' Hch]].
    destruct (job_changes_facts _ _ Hch) as [Hj [Hk [_ [Ht _]]]].
    exists gj'. auto.
  - exact (evolves_simple _ _ Hev).
Qed.

Lemma jobs_and_tasks_are_kept_witness :
  exists gj gj',
    grid_get "g1" (_grid_jobs Samples.after_g1) = Some gj
    /\ grid_get "g1" (_grid_jobs Samples.after_j1) = Some gj'
    /\ gj_job gj' = gj_job gj.
Proof.
  assert (Hev : evolves Samples.after_g1 Samples.after_j1).
  { apply (evolves_step _ Samples.after_g1 (AddJob Samples.simple_job_j1)
                        Samples.after_j1 (Ok (AddJobResponse ADDED))).
    - apply evolves_refl.
    - reflexivity. }
  destruct (proj1 (jobs_and_tasks_are_kept _ _ Hev) "g1" _ eq_refl)
    as [gj' [Hget' [Hj _]]].
  eexists _, gj'. split; [reflexivity|]. split; [exact Hget' | exact Hj].
Defined.

(** X15.  Whatever calls are made, a grid job that is marked
    [all_tasks_added] stays marked and gets no new task: the ids of
    [all_tasks] stay the same, and [add_tasks_to_grid_job] accepts a batch
    for it exactly when every task of the batch is already known. *)
Theorem sealed_job_gets_no_new_task self self' jid gj :
  evolves self self' ->
  grid_get jid (_grid_jobs self) = Some gj ->
  gj_all_tasks_added gj = true ->
  exists gj',
    grid_get jid (_grid_jobs self') = Some gj'
    /\ gj_all_tasks_added gj' = true
    /\ keys (all_tasks gj') = keys (all_tasks gj)
    /\ forall tasks sealed,
        snd (add_tasks_to_grid_job self' jid tasks sealed) = Ok tt
        <-> Forall (fun t => In (task_id t) (keys (all_tasks gj))) tasks.
Proof.
  intros Hev Hget Hsealed.
  destruct (evolves_grid _ _ Hev jid gj Hget) as [gj' [Hget' Hch]].
  destruct (job_changes_facts _ _ Hch) as [_ [_ [Hs _]]].
  destruct (Hs Hsealed) as [Hsealed' Hkeys].
  exists gj'. split; [exact Hget'|]. split; [exact Hsealed'|].
  split; [exact Hkeys|].
  intros tasks sealed.
  assert (Hsnd : snd (add_tasks_to_grid_job self' jid tasks sealed)
                 = snd (_add_tasks_to_grid_job gj' tasks)).
  { unfold add_tasks_to_grid_job. rewrite Hget'.
    destruct (_add_tasks_to_grid_job gj' tasks) as [g [[]|e]]; reflexivity. }
  rewrite Hsnd, add_tasks_ok_iff, Hsealed', Hkeys.
  split; apply Forall_impl; intros t; [|auto].
  intros [H|[H _]]; [exact H | discriminate].
Qed.

Lemma sealed_job_gets_no_new_task_witness :
  exists gj',
    grid_get "g1" (_grid_jobs Samples.after_j1) = Some gj'
    /\ gj_all_tasks_added gj' = true
    /\ keys (all_tasks gj') = [0; 1; 2]%Z.
Proof.
  assert (Hev : evolves Samples.after_g1 Samples.after_j1).
  { apply (evolves_step _ Samples.after_g1 (AddJob Samples.simple_job_j1)
                        Samples.after_j1 (Ok (AddJobResponse ADDED))).
    - apply evolves_refl.
    - reflexivity. }
  destruct (sealed_job_gets_no_new_task
              Samples.after_g1 Samples.after_j1 "g1" _ Hev eq_refl eq_refl)
    as [gj' [Hget' [Hsealed [Hkeys _]]]].
  exists gj'. split; [exact Hget'|]. split; [exact Hsealed | exact Hkeys].
Defined.

End CoordinatorMore.

(* ================================================================= *)
(** ** The coordinator: the tasks sent are the tasks handed out *)

Module CoordinatorDispatch.
Import Coordinator CoordinatorProofs CoordinatorMore.
Local Open Scope list_scope.

(** *** What the handler holds is what the log sent *)

Lemma task_mem_known tid (d : dict (K := Z) (V := _GridTask)) :
  task_mem tid d = existsb (Z.eqb tid) (keys d).
Proof.
  apply Bool.eq_iff_eq_true. rewrite existsb_eqb_In.
  unfold task_mem. apply mem_keys.
Qed.

(** The helper files the ids that [filed_ids] lists, in that order, after
    the ones the job holds. *)
Lemma add_tasks_keys_filed tasks :
  forall gj,
    keys (all_tasks (fst (_add_tasks_to_grid_job gj tasks)))
    = keys (all_tasks gj)
      ++ filed_ids (keys (all_tasks gj)) (gj_all_tasks_added gj) tasks.
Proof.
  induction tasks as [|t tasks IH]; intros gj; simpl.
  - now rewrite app_nil_r.
  - rewrite <- task_mem_known.
    destruct (task_mem (task_id t) (all_tasks gj)) eqn:Hmem; simpl; [apply IH|].
    destruct (gj_all_tasks_added gj) eqn:Hs; simpl; [now rewrite app_nil_r|].
    destruct (task_id t <? 0)%Z; simpl; [now rewrite app_nil_r|].
    rewrite IH. simpl. unfold task_set.
    rewrite keys_set_new by exact Hmem.
    rewrite <- app_assoc. reflexivity.
Qed.

Lemma tasks_sent_snoc jid tr entry :
  tasks_sent jid (tr ++ [entry]) = sent_step jid (tasks_sent jid tr) entry.
Proof. unfold tasks_sent. rewrite fold_left_app. reflexivity. Qed.

Lemma tasks_held_grid_set self k gj gj' simple jid :
  grid_get k (_grid_jobs self) = Some gj ->
  keys (all_tasks gj') = keys (all_tasks gj) ->
  gj_all_tasks_added gj' = gj_all_tasks_added gj ->
  tasks_held (mkHandler (grid_set k gj' (_grid_jobs self)) simple) jid
  = tasks_held self jid.
Proof.
  intros Hget Hk Hs. unfold tasks_held. simpl.
  destruct (string_dec k jid) as [<-|Hne].
  - rewrite Hget. unfold grid_get, grid_set. rewrite get_set_same.
    now rewrite Hk, Hs.
  - unfold grid_get, grid_set. now rewrite get_set_other.
Qed.

(** One call changes what the handler holds for a job exactly as
    [sent_step] says. *)
Lemma handle_sent self req self' resp jid :
  handle self req = Some (self', resp) ->
  sent_step jid (tasks_held self jid) (req, resp) = tasks_held self' jid.
Proof.
  destruct req as [job|k tasks sl|js|choice|k tid ps|ids|k ignore];
    simpl; intros H.
  - injection H as <- <-.
    destruct (snd (add_job self job)) as [[|]|e] eqn:Hans.
    + destruct (add_job_added self job Hans)
        as [_ [_ [_ [_ [_ [_ Hst]]]]]].
      destruct Hst as [[Hspec Hst] | [pl [ts [sl [g [Hspec [Hrun Hst]]]]]]];
        rewrite Hst.
      * unfold tasks_held, sent_step. cbn [_grid_jobs].
        destruct (job_id job =? jid)%string; [|reflexivity].
        destruct (job_spec job); try reflexivity; discriminate.
      * unfold sent_step. rewrite Hspec.
        destruct (String.eqb_spec (job_id job) jid) as [<-|Hne].
        -- unfold tasks_held. simpl. unfold grid_get, grid_set.
           rewrite get_set_same. simpl.
           pose proof (add_tasks_keys_filed ts (mk_GridJob job [] [] false 0))
             as Hk.
           rewrite Hrun in Hk. simpl in Hk. now rewrite Hk.
        -- unfold tasks_held. simpl. unfold grid_get, grid_set.
           now rewrite get_set_other.
    + rewrite add_job_not_added by (rewrite Hans; discriminate). reflexivity.
    + rewrite add_job_not_added by (rewrite Hans; discriminate). reflexivity.
  - injection H as <- <-. unfold add_tasks_to_grid_job.
    destruct (grid_get k (_grid_jobs self)) as [gj|] eqn:Hget.
    + pose proof (add_tasks_keys_filed tasks gj) as Hk.
      destruct (add_tasks_appends tasks gj)
        as [new_tasks [_ [_ [_ [_ [_ [Hsealed _]]]]]]].
      destruct (_add_tasks_to_grid_job gj tasks) as [gj1 [[]|e]];
        simpl in Hk, Hsealed; simpl.
      * destruct (String.eqb_spec k jid) as [->|Hne].
        -- unfold tasks_held. rewrite Hget. simpl.
           unfold grid_get, grid_set. rewrite get_set_same.
           destruct sl; simpl.
           ++ now rewrite Hk, orb_true_r.
           ++ now rewrite Hk, Hsealed, orb_false_r.
        -- unfold tasks_held. simpl. unfold grid_get, grid_set.
           now rewrite get_set_other.
      * destruct (String.eqb_spec k jid) as [->|Hne].
        -- unfold tasks_held. rewrite Hget. simpl.
           unfold grid_get, grid_set. rewrite get_set_same.
           now rewrite Hk, Hsealed, andb_false_r, orb_false_r.
        -- unfold tasks_held. simpl. unfold grid_get, grid_set.
           now rewrite get_set_other.
    + simpl. destruct (String.eqb_spec k jid) as [->|Hne]; [|reflexivity].
      unfold tasks_held. now rewrite Hget.
  - injection H as <- <-. unfold tasks_held.
    now rewrite (proj1 (update_job_states_frame js self)).
  - destruct (get_next_job self choice) as [[s j]|] eqn:Hnext; [|discriminate].
    injection H as <- <-.
    destruct (get_next_job_cases _ _ _ _ Hnext)
      as [-> | [[k [gj [Hget ->]]] | [k [sj [_ ->]]]]].
    + reflexivity.
    + symmetry. now apply tasks_held_grid_set with gj.
    + reflexivity.
  - injection H as <- <-.
    destruct (update_grid_task_cases self k tid ps)
      as [Hr | [gj [Hget Hr]]]; cbv zeta in Hr.
    + now rewrite Hr.
    + assert (Hsame :
                keys (all_tasks (if negb (tid =? -1)%Z
                                 then set_task_state gj tid ps else gj))
                = keys (all_tasks gj)
                /\ gj_all_tasks_added (if negb (tid =? -1)%Z
                                       then set_task_state gj tid ps else gj)
                   = gj_all_tasks_added gj).
      { destruct (negb (tid =? -1)%Z); [|split; reflexivity].
        split; [apply set_task_state_keys | reflexivity]. }
      destruct Hsame as [Hk Hs].
      destruct Hr as [[chosen [remaining [_ Hr]]] | [_ Hr]]; rewrite Hr;
        symmetry; now apply tasks_held_grid_set with gj.
  - now injection H as <- <-.
  - now injection H as <- <-.
Qed.

Lemma reachable_sent tr self :
  reachable tr self -> forall jid, tasks_sent jid tr = tasks_held self jid.
Proof.
  induction 1 as [|tr self req self' resp _ IH Hstep]; intros jid.
  - reflexivity.
  - rewrite tasks_sent_snoc, IH. now apply handle_sent.
Qed.

(** Polling sends no task. *)
Lemma tasks_sent_poll_log jid k reports answers tr :
  tasks_sent jid (tr ++ poll_log k reports answers) = tasks_sent jid tr.
Proof.
  unfold tasks_sent. rewrite fold_left_app.
  generalize (fold_left (sent_step jid) tr None) as acc.
  unfold poll_log.
  induction (combine reports answers) as [|ra l IH]; intros acc; simpl; auto.
Qed.

(** The tasks of an accepted request stay with the job. *)
Lemma accepted_tasks_are_held tr self :
  reachable tr self ->
  forall jid tasks,
    (exists sealed resp,
        In (AddTasksToGridJob jid tasks sealed, Ok resp) tr)
    \/ (exists job payload sealed,
           In (AddJob job, Ok (AddJobResponse ADDED)) tr
           /\ job_id job = jid
           /\ job_spec job = py_grid payload tasks sealed) ->
    exists gj,
      grid_get jid (_grid_jobs self) = Some gj
      /\ forall t, In t tasks -> In (task_id t) (keys (all_tasks gj)).
Proof.
  induction 1 as [|tr self req self' resp Hreach IH Hstep]; intros jid tasks Hin.
  - destruct Hin as [[sl [r []]] | [job [pl [sl [[] _]]]]].
  - assert (Hold :
              (exists gj,
                  grid_get jid (_grid_jobs self) = Some gj
                  /\ forall t, In t tasks -> In (task_id t) (keys (all_tasks gj)))
              -> exists gj,
                grid_get jid (_grid_jobs self') = Some gj
                /\ forall t, In t tasks -> In (task_id t) (keys (all_tasks gj))).
    { intros [gj [Hget Hall]].
      pose proof (handle_grid_step _ _ _ _ Hstep jid) as Hgrid.
      rewrite Hget in Hgrid. destruct Hgrid as [gj' [Hget' Hch]].
      destruct (job_changes_facts _ _ Hch) as [_ [[more Hmore] _]].
      exists gj'. split; [exact Hget'|]. intros t Ht. rewrite Hmore.
      apply in_or_app. left. now apply Hall. }
    destruct Hin as [[sl [r Hin]] | [job [pl [sl [Hin [Hid Hspec]]]]]];
      apply in_app_or in Hin; destruct Hin as [Hin | [Heq | []]].
    + apply Hold, IH. left. eauto.
    + injection Heq as -> ->. simpl in Hstep.
      unfold lift, add_tasks_to_grid_job in Hstep.
      destruct (grid_get jid (_grid_jobs self)) as [gj|]; [|discriminate].
      destruct (add_tasks_appends tasks gj)
        as [new_tasks [_ [_ [_ [_ [_ [_ [_ Hall]]]]]]]].
      destruct (_add_tasks_to_grid_job gj tasks) as [gj1 [[]|e]];
        simpl in Hstep, Hall; [|discriminate].
      injection Hstep as <- _.
      eexists. split; [apply get_set_same|].
      destruct sl; simpl; now apply Hall.
    + apply Hold, IH. right. exists job, pl, sl. auto.
    + injection Heq as -> ->. simpl in Hstep. unfold lift in Hstep.
      destruct (snd (add_job self job)) as [[|]|e] eqn:Hans; try discriminate.
      injection Hstep as <-.
      destruct (add_job_added self job Hans)
        as [_ [_ [_ [_ [_ [_ Hst]]]]]].
      destruct Hst as [[Hsimple _] | [pl' [ts [sl' [g [Hspec' [Hrun ->]]]]]]].
      * rewrite Hspec in Hsimple. discriminate.
      * rewrite Hspec in Hspec'. injection Hspec' as <- <- <-.
        destruct (add_tasks_appends tasks (mk_GridJob job [] [] false 0))
          as [new_tasks [_ [_ [_ [_ [_ [_ [_ Hall]]]]]]]].
        rewrite Hrun in Hall. simpl in Hall.
        eexists. split; [rewrite <- Hid; apply get_set_same|].
        simpl. now apply Hall.
Qed.

(** C3.  Let [gj] be a grid job of a handler reached by the calls of [tr],
    and let [sent] be the task ids that the requests of [tr] sent for the
    job: those of the [AddJob] that created it, then those of each later
    [AddTasksToGridJob] batch, in the order sent.  The handler holds exactly
    [sent], in that order and each id once; in particular the tasks of the
    creating request and of every accepted late batch are among them.  The
    task ids handed out for the job so far, followed by the ids still
    queued, are [sent].  A worker that calls once per queued task, each time
    with no update or with the state of a task of the job, is handed exactly
    the queued tasks in queue order; after that every task sent has been
    handed out exactly once, in the order sent, and any further call is
    answered [task_id = -1].  Whenever the queue is empty the answer is
    [task_id = -1]. *)
Theorem grid_tasks_dispatched_fifo tr self jid gj reports :
  reachable tr self ->
  grid_get jid (_grid_jobs self) = Some gj ->
  List.length reports = List.length (unassigned_tasks gj) ->
  forallb (known_report gj) reports = true ->
  let queued := unassigned_tasks gj in
  let r := poll reports self jid in
  let tr' := tr ++ poll_log jid reports (snd r) in
  exists sent,
    tasks_sent jid tr = Some (sent, gj_all_tasks_added gj)
    /\ keys (all_tasks gj) = sent
    /\ (forall tasks sealed resp t,
           In (AddTasksToGridJob jid tasks sealed, Ok resp) tr ->
           In t tasks -> In (task_id t) sent)
    /\ (forall job payload tasks sealed t,
           In (AddJob job, Ok (AddJobResponse ADDED)) tr ->
           job_id job = jid ->
           job_spec job = py_grid payload tasks sealed ->
           In t tasks -> In (task_id t) sent)
    /\ returned_tasks jid tr ++ map gt_task_id queued = sent
    /\ NoDup sent
    /\ snd r = map to_GridTask queued
    /\ reachable tr' (fst r)
    /\ tasks_sent jid tr' = Some (sent, gj_all_tasks_added gj)
    /\ returned_tasks jid tr' = sent
    /\ (forall tid ps,
           snd (update_grid_task_state_and_get_next (fst r) jid tid ps)
           = mkGridTask (-1) EmptyString)
    /\ (queued = [] ->
        forall tid ps,
          snd (update_grid_task_state_and_get_next self jid tid ps)
          = mkGridTask (-1) EmptyString).
Proof.
  intros Hreach Hget Hlen Hknown queued r tr'.
  destruct (proj1 (reachable_inv _ _ Hreach) jid gj Hget) as [Hfifo [Hnd _]].
  assert (Hlen' : List.length reports = List.length (map to_GridTask queued))
    by (rewrite length_map; exact Hlen).
  destruct (poll_drains jid _ reports self gj Hget eq_refl Hlen' Hknown)
    as [Hans [gj' [Hget' [Hu' Hk']]]].
  fold r in Hans, Hget'.
  assert (Hreach' : reachable tr' (fst r)) by (apply poll_reachable, Hreach).
  assert (Hsent : tasks_sent jid tr
                  = Some (keys (all_tasks gj), gj_all_tasks_added gj)).
  { rewrite (reachable_sent _ _ Hreach jid). unfold tasks_held.
    now rewrite Hget. }
  exists (keys (all_tasks gj)).
  split; [exact Hsent|]. split; [reflexivity|].
  split; [|split].
  - intros tasks sealed resp t Hin Ht.
    destruct (accepted_tasks_are_held _ _ Hreach jid tasks) as [g [Hg Hall]];
      [left; eauto|].
    assert (g = gj) by congruence. subst g. now apply Hall.
  - intros job payload tasks sealed t Hin Hid Hspec Ht.
    destruct (accepted_tasks_are_held _ _ Hreach jid tasks) as [g [Hg Hall]];
      [right; exists job, payload, sealed; auto|].
    assert (g = gj) by congruence. subst g. now apply Hall.
  - split; [exact Hfifo|]. split; [exact Hnd|]. split; [exact Hans|].
    split; [exact Hreach'|]. split; [|split; [|split]].
    + unfold tr'. rewrite tasks_sent_poll_log. exact Hsent.
    + destruct (proj1 (reachable_inv _ _ Hreach') jid gj' Hget') as [Hfifo' _].
      rewrite Hu', app_nil_r, Hk' in Hfifo'. exact Hfifo'.
    + intros tid ps. exact (empty_queue_no_task _ _ _ tid ps Hget' Hu').
    + intros Hempty tid ps. exact (empty_queue_no_task _ _ _ tid ps Hget Hempty).
Qed.

Lemma grid_tasks_dispatched_fifo_witness :
  let r := poll Samples.reports_late_g2 Samples.late_g2 "g2" in
  reachable Samples.log_late_g2 Samples.late_g2
  /\ tasks_sent "g2" Samples.log_late_g2 = Some ([0; 5]%Z, true)
  /\ returned_tasks "g2" Samples.log_late_g2 = [0]%Z
  /\ snd r = [mkGridTask 5 "x"]
  /\ returned_tasks "g2"
       (Samples.log_late_g2 ++ poll_log "g2" Samples.reports_late_g2 (snd r))
     = [0; 5]%Z
  /\ snd (update_grid_task_state_and_get_next
            (fst r) "g2" 5 (ProcessState_of SUCCEEDED))
     = mkGridTask (-1) EmptyString.
Proof.
  intros r.
  assert (Hreach : reachable Samples.log_late_g2 Samples.late_g2).
  { apply (reachable_step
             [(AddJob Samples.grid_job_g2, Ok (AddJobResponse ADDED));
              (UpdateGridTaskStateAndGetNext
                 "g2" (-1) (ProcessState_of RUNNING),
               Ok (GridTaskResponse (mkGridTask 0 "a")))]
             Samples.served_g2
             (AddTasksToGridJob "g2" Samples.batch_pre true));
      [|reflexivity].
    apply (reachable_step
             [(AddJob Samples.grid_job_g2, Ok (AddJobResponse ADDED))]
             Samples.after_g2
             (UpdateGridTaskStateAndGetNext
                "g2" (-1) (ProcessState_of RUNNING)));
      [|reflexivity].
    apply (reachable_step [] init (AddJob Samples.grid_job_g2));
      [exact reachable_init | reflexivity]. }
  destruct (grid_tasks_dispatched_fifo
              Samples.log_late_g2 Samples.late_g2 "g2" _ Samples.reports_late_g2
              Hreach eq_refl eq_refl eq_refl)
    as [sent [Hsent [Hkeys [_ [_ [_ [_ [Hans [_ [_ [Hall [Hlast _]]]]]]]]]]]].
  split; [exact Hreach|].
  split; [rewrite <- Hkeys in Hsent; exact Hsent|]. split; [reflexivity|].
  split; [exact Hans|]. split; [|apply Hlast].
  exact (eq_trans Hall (eq_sym Hkeys)).
Defined.

End CoordinatorDispatch.

(* ================================================================= *)
(** ** More on the reader: the builder, rendering and materialization *)

Module ReaderMore.
Import Reader Samples ReaderProofs.
Local Open Scope list_scope.

(** *** The builder and negation *)

Lemma built_valid_ops p : built p -> valid_ops p = true.
Proof.
  induction 1 as [c x|c x|c x|c x|c x|c x|c a b|c items|c
                  |a b _ IHa _ IHb|a b _ IHa _ IHb|a b _ IHa Hinv];
    try reflexivity.
  - simpl. now rewrite IHa, IHb.
  - simpl. now rewrite IHa, IHb.
  - destruct (invert_involutive a IHa) as [q [Hq [Hvalid _]]].
    congruence.
Qed.

(** X16.  Every bool column that can be built from the comparison methods
    of a column, [isin], [between], a bare bool column, [&], [|] and [~]
    carries only operators that negation knows: [~] never raises on it, and
    negating twice gives it back. *)
Theorem negation_never_fails_on_built_columns p :
  built p ->
  exists q, invert p = Ok q /\ built q /\ invert q = Ok p.
Proof.
  intros Hbuilt.
  destruct (invert_involutive p (built_valid_ops p Hbuilt)) as [q [Hq [_ Hback]]].
  exists q. split; [exact Hq|]. split; [|exact Hback].
  exact (built_invert p q Hbuilt Hq).
Qed.

Lemma negation_never_fails_on_built_columns_witness :
  exists q, invert sample_filter = Ok q /\ invert q = Ok sample_filter.
Proof.
  assert (Hbuilt : built sample_filter).
  { apply built_and; [apply built_eq|].
    apply built_or; [apply built_between | apply built_isin]. }
  destruct (negation_never_fails_on_built_columns sample_filter Hbuilt)
    as [q [Hq [_ Hback]]].
  exists q. split; [exact Hq | exact Hback].
Defined.

(** *** Rendering *)

Lemma invert_op_cases op op' :
  invert_op op = Ok op' ->
  In (op, op')
     [("=", "!="); ("!=", "="); (">", "<="); ("<=", ">"); ("<", ">=");
      (">=", "<"); ("BETWEEN", "NOT BETWEEN"); ("NOT BETWEEN", "BETWEEN");
      ("IN", "NOT IN"); ("NOT IN", "IN")]%string.
Proof.
  unfold invert_op.
  repeat match goal with
         | |- context [String.eqb op ?s] =>
             destruct (String.eqb_spec op s);
             [subst op; intros [= <-]; simpl; tauto|]
         end.
  discriminate.
Qed.

Lemma raised_where_clause_leaf v c op op' a t :
  invert_op op = Ok op' ->
  raised (where_clause_OpArg v c op a t)
  = raised (where_clause_OpArg v c op' a t).
Proof.
  intros H. apply invert_op_cases in H. simpl in H.
  unfold where_clause_OpArg.
  destruct (negb (v =? _version_number t)%Z); [reflexivity|].
  repeat (destruct H as [[= <- <-]|H];
          [simpl;
           destruct a as [[s|s|n|s]|[|a0 [|a1 l]]]; simpl;
           try (destruct (list_ascii_of_string s) as [|x [|y l]]; simpl);
           reflexivity|]).
  contradiction.
Qed.

Lemma raised_bind {A B} (m m' : result A) (k k' : A -> result B) :
  raised m = raised m' ->
  (forall a a', raised (k a) = raised (k' a')) ->
  raised (Py.bind m k) = raised (Py.bind m' k').
Proof.
  destruct m, m'; simpl; intros H Hk; try discriminate; auto.
Qed.

Lemma raised_where_clause_invert p :
  forall q t,
    invert p = Ok q ->
    raised (_construct_where_clause p t) = raised (_construct_where_clause q t).
Proof.
  induction p as [v c op a | sa IHa sb IHb op]; intros q t; simpl.
  - destruct (invert_op op) as [op'|e] eqn:Hop; simpl; [|discriminate].
    intros [= <-]. simpl. apply raised_where_clause_leaf, Hop.
  - assert (Hnode :
              forall op',
                (na <- invert sa ;; nb <- invert sb ;;
                 Ok (MdbComputedBoolColumnOpColumn na nb op')) = Ok q ->
                raised (wa <- _construct_where_clause sa t ;;
                        wb <- _construct_where_clause sb t ;;
                        Ok ("(" ++ wa ++ " " ++ op ++ " " ++ wb ++ ")")%string)
                = raised (_construct_where_clause q t)).
    { intros op'.
      destruct (invert sa) as [na|e] eqn:Ha; simpl; [|discriminate].
      destruct (invert sb) as [nb|e] eqn:Hb; simpl; [|discriminate].
      intros [= <-]. simpl.
      apply raised_bind; [apply IHa; reflexivity|]. intros wa wa'.
      apply raised_bind; [apply IHb; reflexivity|]. reflexivity. }
    destruct (op =? "AND")%string; [apply Hnode|].
    destruct (op =? "OR")%string; [apply Hnode | discriminate].
Qed.

(** X17.  Negation does not change whether a bool column renders: for a
    column and its negation [_construct_where_clause] either both return a
    clause or both raise, and then the same exception. *)
Theorem negation_keeps_rendering_outcome p q t :
  invert p = Ok q ->
  raised (_construct_where_clause p t) = raised (_construct_where_clause q t).
Proof. apply raised_where_clause_invert. Qed.

Lemma negation_keeps_rendering_outcome_witness :
  exists q,
    invert sample_filter = Ok q
    /\ raised (_construct_where_clause q sample_table) = None.
Proof.
  eexists. split; [reflexivity|].
  rewrite <- (negation_keeps_rendering_outcome sample_filter _ sample_table eq_refl).
  reflexivity.
Defined.

Lemma where_clause_versions p t :
  forall clause,
    _construct_where_clause p t = Ok clause ->
    Forall (fun v => v = _version_number t) (leaf_versions p).
Proof.
  induction p as [v c op a | sa IHa sb IHb op]; intros clause; simpl.
  - unfold where_clause_OpArg.
    destruct (v =? _version_number t)%Z eqn:Hv; simpl; [|discriminate].
    intros _. constructor; [apply Z.eqb_eq; exact Hv | constructor].
  - destruct (_construct_where_clause sa t) as [wa|e]; simpl; [|discriminate].
    destruct (_construct_where_clause sb t) as [wb|e]; simpl; [|discriminate].
    intros _. apply Forall_app. split; [eapply IHa | eapply IHb]; reflexivity.
Qed.

(** X18.  A bool column renders only against the table version all of its
    leaves were built from: if [_construct_where_clause] returns a clause,
    every leaf carries the version number of the table; a leaf taken from
    another version makes it raise. *)
Theorem rendering_requires_the_table_version p t clause :
  _construct_where_clause p t = Ok clause ->
  Forall (fun v => v = _version_number t) (leaf_versions p).
Proof. apply where_clause_versions. Qed.

Lemma rendering_requires_the_table_version_witness :
  Forall (fun v => v = 3%Z) (leaf_versions sample_filter).
Proof.
  destruct (_construct_where_clause sample_filter sample_table)
    as [clause|e] eqn:Hrender; [|discriminate].
  exact (rendering_requires_the_table_version
           sample_filter sample_table clause Hrender).
Defined.

(** X19.  A projection and a row filter commute: [t[cols][p]] and
    [t[p][cols]] compile to the same SQL fragments and materialize alike
    on every engine. *)
Theorem projection_and_filter_commute t cols p :
  _construct_sql (getitem_rows (getitem_columns t cols) p)
  = _construct_sql (getitem_columns (getitem_rows t p) cols)
  /\ forall E : Engine,
      to_pd (getitem_rows (getitem_columns t cols) p)
      = to_pd (getitem_columns (getitem_rows t p) cols).
Proof.
  assert (Hsql : _construct_sql (getitem_rows (getitem_columns t cols) p)
                 = _construct_sql (getitem_columns (getitem_rows t p) cols)).
  { assert (Hc : column_args (_ops (getitem_rows (getitem_columns t cols) p))
                 = column_args (_ops (getitem_columns (getitem_rows t p) cols))).
    { unfold getitem_rows, getitem_columns. cbn [_ops].
      rewrite !column_args_app. simpl. now rewrite !app_nil_r. }
    assert (Hr : row_args (_ops (getitem_rows (getitem_columns t cols) p))
                 = row_args (_ops (getitem_columns (getitem_rows t p) cols))).
    { unfold getitem_rows, getitem_columns. cbn [_ops].
      rewrite !row_args_app. simpl. now rewrite !app_nil_r. }
    unfold _construct_sql.
    rewrite (where_clause_of_ext
               (getitem_rows (getitem_columns t cols) p)
               (getitem_columns (getitem_rows t p) cols) eq_refl Hr).
    unfold select_clause_of. rewrite Hc. reflexivity. }
  split; [exact Hsql|].
  intros E. apply to_pd_ext; [exact Hsql | reflexivity | reflexivity].
Qed.

(** *** Materialization *)

Section MaterializeMore.
Context {E : Engine}.

Lemma to_pd_newest t clauses older d :
  _construct_sql t = Ok clauses ->
  to_pd (with_data_list t (older ++ [d]))
  = (st <- to_pd_loop (fst clauses) (snd clauses)
             (deduplication_keys (_table_schema t)) O (d :: rev older)
             (mkLoopState duckdb_connect [] empty_DataFrame empty_DataFrame) ;;
     let results := rev (partition_results st) in
     if (List.length results =? 0)%nat then Ok empty_DataFrame
     else Ok (pd_concat_ignore_index results)).
Proof.
  intros Hsql. unfold to_pd. rewrite construct_sql_with_data_list, Hsql.
  destruct clauses as [select_clause where_clause]. simpl.
  rewrite rev_app_distr. reflexivity.
Qed.

(** X20.  When the ops of a table compile, a table without segments
    materializes to the empty frame, and so does a table whose newest
    segment is [delete_all], whatever lies before it, although [empty]
    answers False for it. *)
Theorem tables_that_materialize_empty t clauses :
  _construct_sql t = Ok clauses ->
  (empty t = true -> to_pd t = Ok empty_DataFrame)
  /\ forall older f,
      let t' := with_data_list
                  t (older ++ [mkDataFileEntry "delete_all" f]) in
      empty t' = false /\ to_pd t' = Ok empty_DataFrame.
Proof.
  intros Hsql. split.
  - unfold empty, to_pd. rewrite Hsql.
    destruct (_data_list t); [|discriminate].
    destruct clauses. intros _. reflexivity.
  - intros older f t'. split.
    + unfold empty, t'. simpl. destruct older; reflexivity.
    + unfold t'. rewrite (to_pd_newest t clauses older _ Hsql). reflexivity.
Qed.

(** X21.  When the ops of a table compile and the newest segment has a
    kind other than write, delete and delete_all, [to_pd] raises a
    [ValueError] that names the kind. *)
Theorem unknown_newest_segment_raises t clauses older d :
  _construct_sql t = Ok clauses ->
  known_data_file_type (data_file_type d) = false ->
  to_pd (with_data_list t (older ++ [d]))
  = Raise (ValueError ("data_file_type " ++ data_file_type d
                         ++ " is not supported")%string).
Proof.
  intros Hsql Hkind. rewrite (to_pd_newest t clauses older d Hsql).
  unfold known_data_file_type in Hkind.
  apply orb_false_iff in Hkind. destruct Hkind as [Hkind Hall].
  apply orb_false_iff in Hkind. destruct Hkind as [Hwrite Hdelete].
  simpl. rewrite Hwrite, Hdelete, Hall. reflexivity.
Qed.

(** With no deduplication keys, nothing deleted and nothing seen, the loop
    over write segments files the frames of the plain scan. *)
Lemma to_pd_loop_plain select_clause where_clause :
  df_len empty_DataFrame = O ->
  forall writes i c results,
    forallb (fun d => data_file_type d =? "write")%string writes = true ->
    (st <- to_pd_loop select_clause where_clause None i writes
             (mkLoopState c results empty_DataFrame empty_DataFrame) ;;
     Ok (partition_results st))
    = (frames <- plain_scan select_clause where_clause i writes c ;;
       Ok (results ++ frames)).
Proof.
  intros Hempty.
  induction writes as [|d writes IH]; intros i c results Hall; simpl.
  - now rewrite app_nil_r.
  - simpl in Hall. apply andb_prop in Hall. destruct Hall as [Hd Hall].
    rewrite Hd. unfold on_write. cbn [conn].
    destruct (create_view_from_parquet c (data_filename d) _) as [c'|e];
      simpl; [|reflexivity].
    unfold write_sql. cbn [deduplication_keys_seen deletes conn].
    rewrite Hempty. simpl.
    destruct (execute_fetchdf c' _) as [df|e]; simpl; [|reflexivity].
    rewrite (IH (S i) c' (results ++ [df]) Hall).
    destruct (plain_scan select_clause where_clause (S i) writes c')
      as [dfs|e]; simpl; [|reflexivity].
    now rewrite <- app_assoc.
Qed.

(** X23.  Take a table whose ops compile and whose schema has no
    deduplication keys, and an engine for which the empty frame has no
    rows.  Let the segments of the table be write segments only, or write
    segments that follow a [delete_all] with anything before it.  Then
    [to_pd] runs the plain scan over those write segments, newest first
    from index 0: each is queried with the select and where clause of the
    table and nothing else.  The result is the concatenation of the frames
    the engine returned, the frame of the oldest write segment first, and
    the empty frame when there is no write segment; if a call of the
    engine fails, [to_pd] raises what that call raised. *)
Theorem to_pd_concatenates_the_live_writes
        t select_clause where_clause hidden writes :
  _construct_sql t = Ok (select_clause, where_clause) ->
  deduplication_keys (_table_schema t) = None ->
  df_len empty_DataFrame = O ->
  (hidden = []
   \/ exists older f, hidden = older ++ [mkDataFileEntry "delete_all" f]) ->
  forallb (fun d => data_file_type d =? "write")%string writes = true ->
  to_pd (with_data_list t (hidden ++ writes))
  = (frames <- plain_scan select_clause where_clause O (rev writes)
                 duckdb_connect ;;
     Ok (match frames with
         | [] => empty_DataFrame
         | _ :: _ => pd_concat_ignore_index (rev frames)
         end)).
Proof.
  intros Hsql Hkeys Hempty Hhidden Hall.
  assert (Hrev : forallb (fun d => data_file_type d =? "write")%string
                         (rev writes) = true).
  { apply forallb_forall. intros d Hd. apply in_rev in Hd.
    exact (proj1 (forallb_forall _ _) Hall d Hd). }
  unfold to_pd. rewrite construct_sql_with_data_list, Hsql.
  cbn [bind]. cbv iota beta.
  replace (_table_schema (with_data_list t (hidden ++ writes)))
    with (_table_schema t) by reflexivity.
  replace (_data_list (with_data_list t (hidden ++ writes)))
    with (hidden ++ writes) by reflexivity.
  rewrite Hkeys, rev_app_distr.
  assert (Hloop :
            to_pd_loop select_clause where_clause None O
                       (rev writes ++ rev hidden)
                       (mkLoopState duckdb_connect [] empty_DataFrame
                                    empty_DataFrame)
            = to_pd_loop select_clause where_clause None O (rev writes)
                         (mkLoopState duckdb_connect [] empty_DataFrame
                                      empty_DataFrame)).
  { destruct Hhidden as [-> | [older [f ->]]].
    - simpl. now rewrite app_nil_r.
    - rewrite rev_app_distr. simpl. apply to_pd_loop_delete_all. }
  rewrite Hloop.
  pose proof (to_pd_loop_plain select_clause where_clause Hempty
                               (rev writes) O duckdb_connect [] Hrev) as Hplain.
  destruct (to_pd_loop select_clause where_clause None O (rev writes) _)
    as [st|e]; simpl in Hplain |- *;
    destruct (plain_scan select_clause where_clause O (rev writes)
                         duckdb_connect) as [frames|e'];
    simpl in Hplain |- *; try discriminate.
  - injection Hplain as ->. rewrite length_rev.
    destruct frames; reflexivity.
  - injection Hplain as ->. reflexivity.
Qed.

End MaterializeMore.

Lemma tables_that_materialize_empty_witness :
  @to_pd toy_engine (with_data_list sample_table []) = Ok []
  /\ @to_pd toy_engine
       (with_data_list sample_table
          ([mkDataFileEntry "write" "a"]
             ++ [mkDataFileEntry "delete_all" EmptyString]))
     = Ok [].
Proof.
  destruct (@tables_that_materialize_empty toy_engine sample_table _ eq_refl)
    as [Hnone Hcut].
  split.
  - exact (Hnone eq_refl).
  - exact (proj2 (Hcut [mkDataFileEntry "write" "a"] EmptyString)).
Defined.

Lemma unknown_newest_segment_raises_witness :
  @to_pd toy_engine
     (with_data_list sample_table
        ([mkDataFileEntry "write" "a"] ++ [mkDataFileEntry "append" "b"]))
  = Raise (ValueError "data_file_type append is not supported").
Proof.
  exact (@unknown_newest_segment_raises
           toy_engine sample_table _ [mkDataFileEntry "write" "a"]
           (mkDataFileEntry "append" "b") eq_refl eq_refl).
Defined.

Lemma to_pd_concatenates_the_live_writes_witness :
  @to_pd echo_engine
     (with_data_list sample_table
        (([mkDataFileEntry "write" "a"]
            ++ [mkDataFileEntry "delete_all" EmptyString])
           ++ [mkDataFileEntry "write" "b"; mkDataFileEntry "write" "c"]))
  = Ok ["b: SELECT t1.* FROM t1 WHERE TRUE";
        "c: SELECT t0.* FROM t0 WHERE TRUE"]%string.
Proof.
  exact (@to_pd_concatenates_the_live_writes
           echo_engine sample_table _ _
           ([mkDataFileEntry "write" "a"]
              ++ [mkDataFileEntry "delete_all" EmptyString])
           [mkDataFileEntry "write" "b"; mkDataFileEntry "write" "c"]
           eq_refl eq_refl eq_refl
           (or_intror (ex_intro _ [mkDataFileEntry "write" "a"]
                                (ex_intro _ EmptyString eq_refl)))
           eq_refl).
Defined.

(** *** [read] *)

Section ReadMore.
Context {C : TableVersionsClient}.

(** X22.  Reading a table in a userspace that has no version of it, while
    prod has one, gives exactly what reading it in prod gives: the same
    version number, schema and segments. *)
Theorem read_falls_back_to_prod userspace table_name max_version_number pv :
  userspace <> prod_userspace_name ->
  get_current_table_version userspace table_name max_version_number = None ->
  get_current_table_version prod_userspace_name table_name max_version_number
  = Some pv ->
  read userspace table_name max_version_number
  = read prod_userspace_name table_name max_version_number.
Proof.
  intros Hne Hnone Hprod. unfold read at 1.
  apply String.eqb_neq in Hne. rewrite Hne, Hnone, Hprod.
  unfold read. rewrite String.eqb_refl, Hprod.
  destruct pv as [n f d]. reflexivity.
Qed.

End ReadMore.

Lemma read_falls_back_to_prod_witness :
  @read toy_client "dev" "u" None = @read toy_client "prod" "u" None.
Proof.
  apply (@read_falls_back_to_prod toy_client "dev" "u" None
                                  (mkTableVersion 7 None "prod_u.pkl")).
  - discriminate.
  - reflexivity.
  - reflexivity.
Defined.

End ReaderMore.
